(** * pyOCD CMSIS-Pack device description resolution

    A shallow embedding of [pyocd/target/pack/cmsis_pack.py]: the identity
    merge of the description walker ([CmsisPackDescription]), the memory and
    flash region synthesizer and the debug topology resolver
    ([CmsisPackDevice]), followed by the properties established for them.

    Conventions.
    - A Python [dict] is an insertion-ordered association list with unique
      keys ([dict_set] replaces in place or appends, as CPython does).
    - Python [int] is [Z]; [str] is [string].
    - A call that may raise returns a [result]; code that mutates [self]
      threads the mutated fields explicitly, and the mutations made before an
      exception are kept, as they are in Python.
    - Builtins and classes of other modules (the [int(s, base=0)] parser,
      string formatting, the flash algorithm decoder, region equality) are
      parameters of the development. *)

From Stdlib Require Import ZArith List String Ascii Bool Lia PeanoNat.
Import ListNotations.
Local Open Scope string_scope.
Local Open Scope Z_scope.
Local Open Scope list_scope.

Set Implicit Arguments.
Set Warnings "-register-all".

(** ** Exceptions and results *)

Inductive exn : Type :=
| KeyError
| ValueError
| AssertionError
| FileNotFoundError
| OSError
| IndexError
| MalformedCmsisPackError
| AttributeError
| InternalError.

Inductive result (A : Type) : Type :=
| Ok (a : A)
| Raise (e : exn).
Arguments Ok {A} a.
Arguments Raise {A} e.

Definition exn_eqb (a b : exn) : bool :=
  match a, b with
  | KeyError, KeyError | ValueError, ValueError
  | AssertionError, AssertionError | FileNotFoundError, FileNotFoundError
  | OSError, OSError | IndexError, IndexError
  | MalformedCmsisPackError, MalformedCmsisPackError
  | AttributeError, AttributeError
  | InternalError, InternalError => true
  | _, _ => false
  end.

(** ** Keys of a Python dictionary *)

Class EqKey (K : Type) : Type := { keqb : K -> K -> bool }.

Definition option_eqb {K : Type} (eqb : K -> K -> bool) (a b : option K) : bool :=
  match a, b with
  | Some x, Some y => eqb x y
  | None, None => true
  | _, _ => false
  end.

Definition pair_eqb {A B : Type} (eqa : A -> A -> bool) (eqb : B -> B -> bool)
    (p q : A * B) : bool :=
  eqa (fst p) (fst q) && eqb (snd p) (snd q).

#[export] Instance EqKey_string : EqKey string := {| keqb := String.eqb |}.
#[export] Instance EqKey_Z : EqKey Z := {| keqb := Z.eqb |}.
#[export] Instance EqKey_option (K : Type) `{EqKey K} : EqKey (option K) :=
  {| keqb := option_eqb keqb |}.
#[export] Instance EqKey_pair (A B : Type) `{EqKey A} `{EqKey B} : EqKey (A * B) :=
  {| keqb := pair_eqb keqb keqb |}.

(** Keys whose [==] is equality of values. *)
Class EqKeyOk (K : Type) `{EqKey K} : Prop :=
  keqb_spec : forall a b : K, keqb a b = true <-> a = b.
Arguments EqKeyOk K {_}.

(** ** Insertion-ordered dictionaries *)

Section Dict.
Context {K V : Type} `{EqKey K}.

Definition dict : Type := list (K * V).

(** [d.get(k)] *)
Fixpoint dict_get (k : K) (d : dict) : option V :=
  match d with
  | [] => None
  | (k', v) :: r => if keqb k k' then Some v else dict_get k r
  end.

(** [k in d] *)
Definition dict_mem (k : K) (d : dict) : bool :=
  match dict_get k d with Some _ => true | None => false end.

(** [d[k] = v]: an existing key keeps its position. *)
Fixpoint dict_set (k : K) (v : V) (d : dict) : dict :=
  match d with
  | [] => [(k, v)]
  | (k', v') :: r => if keqb k k' then (k', v) :: r else (k', v') :: dict_set k v r
  end.

(** [del d[k]] for a key that is present (every use in the source is
    guarded by a membership test or iterates over the keys). *)
Fixpoint dict_del (k : K) (d : dict) : dict :=
  match d with
  | [] => []
  | (k', v') :: r => if keqb k k' then r else (k', v') :: dict_del k r
  end.

Definition dict_keys (d : dict) : list K := map fst d.
Definition dict_values (d : dict) : list V := map snd d.

(** [d.update(other)] *)
Definition dict_update (d other : dict) : dict :=
  fold_left (fun acc kv => dict_set (fst kv) (snd kv) acc) other d.

(** The representation invariant of a dictionary: keys are unique. *)
Definition dict_wf (d : dict) : Prop := NoDup (dict_keys d).
End Dict.
Arguments dict K V : clear implicits.

(** ** XML elements *)

Inductive Element : Type :=
| mkElement (tag : string) (attrib : dict string string) (children : list Element).

Definition tag (e : Element) : string := let 'mkElement t _ _ := e in t.
Definition attrib (e : Element) : dict string string := let 'mkElement _ a _ := e in a.
Definition children (e : Element) : list Element := let 'mkElement _ _ c := e in c.

(** [elem.attrib = a] *)
Definition set_attrib (e : Element) (a : dict string string) : Element :=
  mkElement (tag e) a (children e).

(** [name in elem.attrib] *)
Definition has_attr (name : string) (e : Element) : bool := dict_mem name (attrib e).

(** [x == child] for a [str] x and an [Element] child: [Element] defines no
    [__eq__], so the comparison falls back to identity and is [False]. *)
Definition str_eq_element (x : string) (child : Element) : bool := false.

(** [x in elem] for a [str] x: [Element] has no [__contains__]; the operator
    iterates the element as a sequence, that is over its children. *)
Definition str_in_element (x : string) (elem : Element) : bool :=
  existsb (str_eq_element x) (children elem).

(** [s in (a, b, ...)] for strings. *)
Definition str_in (s : string) (l : list string) : bool := existsb (String.eqb s) l.

(** ** Logging *)

Inductive Level : Type := DEBUG | WARNING.

Inductive LogMsg : Type :=
| ErrorParsingPack (err : exn)
| MemoryRegionMissingAddress
| OverlappingMemoryRegions (filename : option string) (part : string)
| SkippingNonKeilAlgo
| IgnoringMemoryError (part : string) (err : exn)
| NoDefaultRam (part : string)
| FlashAlgoNotFound (name part : string)
| PageSizeLargerThanSector (page_size sector_size : Z) (region_name : string)
| NoBootMemory (part : string)
| MalformedPack (part : string).

Definition LogRecord : Type := (Level * LogMsg)%type.

(** ** [_DeviceInfo] and part numbers *)

Record _DeviceInfo : Type := mk_DeviceInfo {
  element : Element;
  families : list string;
  processors : list Element;
  memories : list Element;
  algos : list Element;
  debugs : list Element;
  debugports : list Element;
  accessports : list Element
}.

Definition _get_part_number_from_element (element : Element) : result string :=
  if negb (str_in (tag element) ["device"; "variant"]) then Raise AssertionError
  else match dict_get "Dname" (attrib element) with
       | Some v => Ok v
       | None =>
           if String.eqb (tag element) "variant" then
             match dict_get "Dvariant" (attrib element) with
             | Some v => Ok v
             | None => Raise KeyError
             end
           else Raise ValueError
       end.

(** ** [CmsisPackDescription]: the state of one pack parse *)

(** The pack object, as far as the description uses it. The constructor
    assigns [_pack_file] only when the pack is a zip file: for a pack opened
    from an expanded directory ([_is_dir]) the attribute does not exist.
    [zip_filename] is the [filename] of that [ZipFile], which is [None] for
    one opened from a file object without a name. *)
Record CmsisPack : Type := mkCmsisPack {
  _is_dir : bool;
  zip_filename : option string
}.

(** The [filename] property: [return self._pack_file.filename]. Reading the
    attribute that was never assigned raises [AttributeError]. *)
Definition filename (pack : CmsisPack) : result (option string) :=
  if _is_dir pack then Raise AttributeError else Ok (zip_filename pack).

(** A device as its constructor leaves it: the resolved elements and the part
    number. The lazily built models are functions of [_info] further down. *)
Record CmsisPackDevice : Type := mkCmsisPackDevice {
  _info : _DeviceInfo;
  _part : string
}.

Record CmsisPackDescription : Type := mkDescription {
  _pack : option CmsisPack;
  _state_stack : list _DeviceInfo;
  _devices : list CmsisPackDevice;
  _warned_overlapping_memory_regions : bool;
  LOG : list LogRecord
}.

Definition log (lvl : Level) (msg : LogMsg) (self : CmsisPackDescription) : CmsisPackDescription :=
  mkDescription (_pack self) (_state_stack self) (_devices self)
    (_warned_overlapping_memory_regions self) (LOG self ++ [(lvl, msg)]).

Definition set_warned (self : CmsisPackDescription) : CmsisPackDescription :=
  mkDescription (_pack self) (_state_stack self) (_devices self) true (LOG self).

Definition set_state_stack (stack : list _DeviceInfo) (self : CmsisPackDescription) : CmsisPackDescription :=
  mkDescription (_pack self) stack (_devices self)
    (_warned_overlapping_memory_regions self) (LOG self).

Definition append_device (dev : CmsisPackDevice) (self : CmsisPackDescription) : CmsisPackDescription :=
  mkDescription (_pack self) (_state_stack self) (_devices self ++ [dev])
    (_warned_overlapping_memory_regions self) (LOG self).

(** Computations on the description: the state is kept when an exception is
    raised. *)
Definition M (A : Type) : Type :=
  CmsisPackDescription -> result A * CmsisPackDescription.

Definition ret {A : Type} (a : A) : M A := fun self => (Ok a, self).

Definition raise {A : Type} (e : exn) : M A := fun self => (Raise e, self).

Definition bind {A B : Type} (m : M A) (k : A -> M B) : M B :=
  fun self =>
    match m self with
    | (Ok a, self') => k a self'
    | (Raise e, self') => (Raise e, self')
    end.

Declare Scope pdsc_scope.
Delimit Scope pdsc_scope with pdsc.
Notation "x <- m ;; k" := (bind m (fun x => k))
  (at level 61, m at next level, right associativity) : pdsc_scope.
Notation "m ;;; k" := (bind m (fun _ => k))
  (at level 61, right associativity) : pdsc_scope.

Definition lift {A : Type} (r : result A) : M A := fun self => (r, self).

(** The callback of [_extract_items]: it mutates the dictionary it is given
    and may read and write the description. *)
Definition Filter (K V : Type) : Type :=
  dict K V -> Element -> CmsisPackDescription ->
  result unit * dict K V * CmsisPackDescription.

(** [except (KeyError, ValueError)] *)
Definition caught_by_extract_items (e : exn) : bool :=
  match e with KeyError | ValueError => true | _ => false end.

Fixpoint extract_loop {K V : Type} (filter : Filter K V) (elems : list Element)
    (map : dict K V) (self : CmsisPackDescription)
    : result (dict K V) * CmsisPackDescription :=
  match elems with
  | [] => (Ok map, self)
  | elem :: rest =>
      match filter map elem self with
      | (Ok _, map', self') => extract_loop filter rest map' self'
      | (Raise err, map', self') =>
          if caught_by_extract_items err
          then extract_loop filter rest map' (log DEBUG (ErrorParsingPack err) self')
          else (Raise err, self')
      end
  end.

Definition _extract_items {K V : Type} (state_info_name : _DeviceInfo -> list Element)
    (filter : Filter K V) : M (list V) :=
  fun self =>
    match extract_loop filter (flat_map state_info_name (_state_stack self)) [] self with
    | (Ok map, self') => (Ok (dict_values map), self')
    | (Raise e, self') => (Raise e, self')
    end.

Definition _extract_families (self : CmsisPackDescription) : result (list string) :=
  fold_left
    (fun (acc : result (list string)) (state : _DeviceInfo) =>
       match acc with
       | Raise e => Raise e
       | Ok families =>
           let elem := element state in
           if String.eqb (tag elem) "family" then
             match dict_get "Dvendor" (attrib elem), dict_get "Dfamily" (attrib elem) with
             | Some vendor, Some family => Ok (families ++ [vendor; family])
             | _, _ => Raise KeyError
             end
           else if String.eqb (tag elem) "subFamily" then
             match dict_get "DsubFamily" (attrib elem) with
             | Some sub => Ok (families ++ [sub])
             | None => Raise KeyError
             end
           else Ok families
       end)
    (_state_stack self) (Ok []).

(** [k not in to_elem] is asked of the element, not of its [attrib]. The
    result is [to_elem] after [to_elem.attrib.update(inherited)]. *)
Definition _inherit_attributes (to_elem : Element) (from_elem : option Element) : Element :=
  match from_elem with
  | Some from_elem =>
      let inherited :=
        filter (fun kv => negb (str_in_element (fst kv) to_elem)) (attrib from_elem) in
      set_attrib to_elem (dict_update (attrib to_elem) inherited)
  | None => to_elem
  end.

(** The filter of [_extract_processors]. The source updates the attributes of
    [elem] in place; the collection holds the updated element and the parsed
    tree is left as it was, since merging an element that was merged before
    gives the same attributes ([inherit_attributes_idempotent]). *)
Definition processors_filter : Filter (option string) Element :=
  fun map elem self =>
    let pname := dict_get "Pname" (attrib elem) in
    (Ok tt, dict_set pname (_inherit_attributes elem (dict_get pname map)) map, self).

Definition _extract_processors : M (list Element) :=
  _extract_items processors processors_filter.

(** ** Builtins on ASCII strings

    Instances of the parameters of the model, used to run it on concrete
    packs: the literals of [int(s, base=0)], [str.lower], [str.strip] and the
    two hexadecimal formats. *)

Definition is_space (c : ascii) : bool :=
  let n := nat_of_ascii c in
  (((9 <=? n) && (n <=? 13)) || ((28 <=? n) && (n <=? 32)))%nat.

Fixpoint lstrip (s : string) : string :=
  match s with
  | EmptyString => EmptyString
  | String c rest => if is_space c then lstrip rest else s
  end.

Fixpoint string_rev_onto (s acc : string) : string :=
  match s with
  | EmptyString => acc
  | String c rest => string_rev_onto rest (String c acc)
  end.

Definition py_strip (s : string) : string :=
  string_rev_onto (lstrip (string_rev_onto (lstrip s) EmptyString)) EmptyString.

Definition lower_ascii (c : ascii) : ascii :=
  let n := nat_of_ascii c in
  if ((65 <=? n) && (n <=? 90))%nat then ascii_of_nat (n + 32) else c.

Fixpoint py_lower (s : string) : string :=
  match s with
  | EmptyString => EmptyString
  | String c rest => String (lower_ascii c) (py_lower rest)
  end.

Definition digit_value (c : ascii) : option Z :=
  let n := nat_of_ascii c in
  if ((48 <=? n) && (n <=? 57))%nat then Some (Z.of_nat (n - 48))
  else if ((97 <=? n) && (n <=? 102))%nat then Some (Z.of_nat (n - 87))
  else if ((65 <=? n) && (n <=? 70))%nat then Some (Z.of_nat (n - 55))
  else None.

(** Digits with single underscores between them. *)
Fixpoint digits_value (base : Z) (after_digit : bool) (acc : Z) (s : string) : option Z :=
  match s with
  | EmptyString => if after_digit then Some acc else None
  | String c rest =>
      if Ascii.eqb c "_"%char then
        if after_digit then digits_value base false acc rest else None
      else
        match digit_value c with
        | Some d => if d <? base then digits_value base true (acc * base + d) rest else None
        | None => None
        end
  end.

Definition unsigned_literal (s : string) : option Z :=
  let prefixed (base : Z) (rest : string) :=
    match rest with
    | String "_"%char rest' => digits_value base false 0 rest'
    | _ => digits_value base false 0 rest
    end in
  match s with
  | String "0"%char (String c rest) =>
      if Ascii.eqb (lower_ascii c) "x"%char then prefixed 16 rest
      else if Ascii.eqb (lower_ascii c) "o"%char then prefixed 8 rest
      else if Ascii.eqb (lower_ascii c) "b"%char then prefixed 2 rest
      else match digits_value 10 false 0 s with
           | Some 0 => Some 0
           | _ => None
           end
  | _ => digits_value 10 false 0 s
  end.

Definition py_int0 (s : string) : option Z :=
  match py_strip s with
  | String "-"%char rest => option_map Z.opp (unsigned_literal rest)
  | String "+"%char rest => unsigned_literal rest
  | rest => unsigned_literal rest
  end.

Definition hex_digit (d : Z) : ascii :=
  if d <? 10 then ascii_of_nat (Z.to_nat d + 48) else ascii_of_nat (Z.to_nat d + 87).

Fixpoint hex_onto (fuel : nat) (n : Z) (acc : string) : string :=
  match fuel with
  | O => acc
  | S fuel' =>
      let acc' := String (hex_digit (n mod 16)) acc in
      if n / 16 =? 0 then acc' else hex_onto fuel' (n / 16) acc'
  end.

Definition hex_abs (n : Z) : string :=
  hex_onto (S (Z.to_nat (Z.log2 (Z.abs n)))) (Z.abs n) EmptyString.

Fixpoint zeros (n : nat) : string :=
  match n with
  | O => EmptyString
  | S n' => String "0"%char (zeros n')
  end.

(** ["%08x" % n] *)
Definition format_08x (n : Z) : string :=
  let digits := hex_abs n in
  let sign := if n <? 0 then "-" else "" in
  (sign ++ zeros (8 - String.length sign - String.length digits) ++ digits)%string.

Definition py_format_start_size (start size : Z) : string :=
  (format_08x start ++ ":" ++ format_08x size)%string.

(** [f"_{n:#x}"] *)
Definition py_format_sector_suffix (n : Z) : string :=
  ("_" ++ (if (n <? 0)%Z then "-" else "") ++ "0x" ++ hex_abs n)%string.

Section Model.

(** *** Parameters: builtins and collaborators declared elsewhere *)

(** [int(s, base=0)]; [None] stands for [ValueError]. *)
Variable int0 : string -> option Z.
(** [s.lower()] and [s.strip()] *)
Variable str_lower : string -> string.
Variable str_strip : string -> string.
(** ["%08x:%08x" % (start, size)] *)
Variable format_start_size : Z -> Z -> string.
(** [f"_{sector_size:#x}"] *)
Variable format_sector_suffix : Z -> string.

(** [int(elem.attrib[name], base=0)] *)
Definition int_attrib (elem : Element) (name : string) : result Z :=
  match dict_get name (attrib elem) with
  | None => Raise KeyError
  | Some s => match int0 s with
              | Some n => Ok n
              | None => Raise ValueError
              end
  end.

(** *** Memories *)

Definition MemKey : Type := (string * option string)%type.

Definition get_start_and_size (elem : Element) : M (Z * Z) :=
  fun self =>
    match int_attrib elem "start" with
    | Raise e => (Raise e, log WARNING MemoryRegionMissingAddress self)
    | Ok start =>
        match int_attrib elem "size" with
        | Raise e => (Raise e, log WARNING MemoryRegionMissingAddress self)
        | Ok size => (Ok (start, size), self)
        end
    end.

(** [(prev_start <= start < prev_end) or (prev_start <= end < prev_end)] *)
Definition ranges_overlap (start size prev_start prev_size : Z) : bool :=
  let end_ := start + size - 1 in
  let prev_end := prev_start + prev_size - 1 in
  ((prev_start <=? start) && (start <? prev_end))
  || ((prev_start <=? end_) && (end_ <? prev_end)).

(** [self._state_stack[-1]] *)
Definition top_of_stack (self : CmsisPackDescription) : result _DeviceInfo :=
  match rev (_state_stack self) with
  | [] => Raise IndexError
  | state :: _ => Ok state
  end.

(** The body of [for k in list(map.keys())] in the memory filter. *)
Fixpoint evict_overlapping (pname : option string) (start size : Z)
    (keys : list MemKey) (map : dict MemKey Element) (self : CmsisPackDescription)
    : result unit * dict MemKey Element * CmsisPackDescription :=
  match keys with
  | [] => (Ok tt, map, self)
  | k :: keys' =>
      let prev_pname := snd k in
      match dict_get k map with
      | None => (Raise KeyError, map, self)
      | Some prev_elem =>
          match get_start_and_size prev_elem self with
          | (Raise e, self1) => (Raise e, map, self1)
          | (Ok (prev_start, prev_size), self1) =>
              if ranges_overlap start size prev_start prev_size then
                if keqb pname prev_pname
                   && negb (_warned_overlapping_memory_regions self1)
                then
                  match (match _pack self1 with
                         | Some pack => filename pack
                         | None => Ok (Some "unknown")
                         end) with
                  | Raise e => (Raise e, map, self1)
                  | Ok filename =>
                      match top_of_stack self1 with
                      | Raise e => (Raise e, map, self1)
                      | Ok state =>
                          match _get_part_number_from_element (element state) with
                          | Raise e => (Raise e, map, self1)
                          | Ok part =>
                              let self2 :=
                                set_warned
                                  (log WARNING (OverlappingMemoryRegions filename part)
                                     self1) in
                              evict_overlapping pname start size keys' (dict_del k map) self2
                          end
                      end
                  end
                else evict_overlapping pname start size keys' (dict_del k map) self1
              else evict_overlapping pname start size keys' map self1
          end
      end
  end.

Definition memories_filter : Filter MemKey Element :=
  fun map elem self =>
    match get_start_and_size elem self with
    | (Raise e, self1) => (Raise e, map, self1)
    | (Ok (start, size), self1) =>
        let name :=
          match dict_get "name" (attrib elem) with
          | Some n => n
          | None =>
              match dict_get "id" (attrib elem) with
              | Some i => i
              | None => format_start_size start size
              end
          end in
        let pname := dict_get "Pname" (attrib elem) in
        let info : MemKey := (name, pname) in
        let map1 := if dict_mem info map then dict_del info map else map in
        match evict_overlapping pname start size (dict_keys map1) map1 self1 with
        | (Raise e, map2, self2) => (Raise e, map2, self2)
        | (Ok _, map2, self2) => (Ok tt, dict_set info elem map2, self2)
        end
    end.

Definition _extract_memories : M (list Element) :=
  _extract_items memories memories_filter.

(** *** Algorithms, debug entries, debug ports, access ports *)

Definition algos_filter : Filter (Z * Z) Element :=
  fun map elem self =>
    if match dict_get "style" (attrib elem) with
       | Some style => negb (String.eqb (str_lower style) "keil")
       | None => false
       end
    then (Ok tt, map, log DEBUG SkippingNonKeilAlgo self)
    else
      match int_attrib elem "start" with
      | Raise e => (Raise e, map, self)
      | Ok start =>
          match int_attrib elem "size" with
          | Raise e => (Raise e, map, self)
          | Ok size => (Ok tt, dict_set (start, size) elem map, self)
          end
      end.

Definition _extract_algos : M (list Element) :=
  _extract_items algos algos_filter.

Definition debugs_filter : Filter string Element :=
  fun map elem self =>
    match dict_get "Pname" (attrib elem) with
    | Some pname =>
        (* [str(elem.attrib.get('Punit', 0))] *)
        let unit :=
          match dict_get "Punit" (attrib elem) with
          | Some u => u
          | None => "0"
          end in
        let name := (pname ++ unit)%string in
        let map1 := if dict_mem "*" map then [] else map in
        (Ok tt, dict_set name elem map1, self)
    | None => (Ok tt, dict_set "*" elem [], self)
    end.

Definition _extract_debugs : M (list Element) :=
  _extract_items debugs debugs_filter.

Definition debugports_filter : Filter string Element :=
  fun map elem self =>
    match dict_get "__dp" (attrib elem) with
    | Some dp => (Ok tt, dict_set dp elem map, self)
    | None => (Raise KeyError, map, self)
    end.

Definition _extract_debugports : M (list Element) :=
  _extract_items debugports debugports_filter.

Definition accessports_filter : Filter string Element :=
  fun map elem self =>
    match dict_get "__apid" (attrib elem) with
    | Some apid => (Ok tt, dict_set apid elem map, self)
    | None => (Raise KeyError, map, self)
    end.

Definition _extract_accessports : M (list Element) :=
  _extract_items accessports accessports_filter.

(** *** The walk *)

Definition with_tag (tags : list string) (elems : list Element) : list Element :=
  filter (fun elem => str_in (tag elem) tags) elems.

(** The classification of the children of [parent] into a new state. *)
Definition new_state (parent : Element) : _DeviceInfo :=
  let elems := children parent in
  mk_DeviceInfo parent []
    (with_tag ["processor"] elems)
    (with_tag ["memory"] elems)
    (with_tag ["algorithm"] elems)
    (with_tag ["debug"] elems)
    (with_tag ["debugport"] elems)
    (with_tag ["accessportV1"; "accessportV2"] elems).

Definition recursed_into (elem : Element) : bool :=
  str_in (tag elem) ["subFamily"; "device"; "variant"].

(** [CmsisPackDevice(self, deviceInfo, ...)]: the constructor reads the
    part number. *)
Definition CmsisPackDevice_init (device_info : _DeviceInfo) : result CmsisPackDevice :=
  match _get_part_number_from_element (element device_info) with
  | Ok part => Ok (mkCmsisPackDevice device_info part)
  | Raise e => Raise e
  end.

Definition create_device (parent : Element) : M unit :=
  (families <- (fun self => (_extract_families self, self)) ;;
   processors <- _extract_processors ;;
   memories <- _extract_memories ;;
   algos <- _extract_algos ;;
   debugs <- _extract_debugs ;;
   debugports <- _extract_debugports ;;
   accessports <- _extract_accessports ;;
   let deviceInfo :=
     mk_DeviceInfo parent families processors memories algos debugs
       debugports accessports in
   dev <- lift (CmsisPackDevice_init deviceInfo) ;;
   fun self => (Ok tt, append_device dev self))%pdsc.

Definition push_state (state : _DeviceInfo) : M unit :=
  fun self => (Ok tt, set_state_stack (_state_stack self ++ [state]) self).

Definition pop_state : M unit :=
  fun self =>
    match _state_stack self with
    | [] => (Raise IndexError, self)
    | stack => (Ok tt, set_state_stack (removelast stack) self)
    end.

Fixpoint _parse_devices (parent : Element) : M unit :=
  match parent with
  | mkElement parent_tag _ elems =>
      (push_state (new_state parent) ;;;
       (if str_in parent_tag ["device"; "variant"]
        then create_device parent else ret tt) ;;;
       (fix recurse (l : list Element) : M unit :=
          match l with
          | [] => ret tt
          | elem :: rest =>
              (if recursed_into elem then _parse_devices elem else ret tt) ;;;
              recurse rest
          end) elems ;;;
       pop_state)%pdsc
  end.

(** [ElementTree.iter()]: the element and its descendants in document order. *)
Fixpoint iter_all (root : Element) : list Element :=
  match root with
  | mkElement _ _ elems =>
      root :: (fix each (l : list Element) : list Element :=
                 match l with
                 | [] => []
                 | elem :: rest => iter_all elem ++ each rest
                 end) elems
  end.

Definition iter_tag (t : string) (root : Element) : list Element :=
  with_tag [t] (iter_all root).

Fixpoint parse_families (families : list Element) : M unit :=
  match families with
  | [] => ret tt
  | family :: rest => (_parse_devices family ;;; parse_families rest)%pdsc
  end.

(** [CmsisPackDescription.__init__] on the parsed tree [pdsc]. *)
Definition CmsisPackDescription_init (pack : option CmsisPack) (pdsc : Element)
    : result unit * CmsisPackDescription :=
  parse_families (iter_tag "family" pdsc) (mkDescription pack [] [] false []).

(** ** [CmsisPackDevice]: memory map *)

Inductive MemoryType : Type := ROM | RAM | DEVICE | FLASH.

Definition MemoryType_eqb (a b : MemoryType) : bool :=
  match a, b with
  | ROM, ROM | RAM, RAM | DEVICE, DEVICE | FLASH, FLASH => true
  | _, _ => false
  end.

(** The decoded flash algorithm, as the synthesizer reads it:
    [page_size], [sector_sizes] and [flash_info.value_empty]. *)
Record PackFlashAlgo : Type := mkPackFlashAlgo {
  page_size : Z;
  sector_sizes : list (Z * Z);
  value_empty : Z
}.

(** The RAM handed to the algorithm builder, by its range. *)
Record RamForAlgo : Type := mkRamForAlgo { ram_start : Z; ram_length : Z }.

(** Modelled from the spec: [PackFlashAlgo.get_pyocd_flash_algo] belongs to
    [flash_algo.py], which is not among the sources; it is "a function
    producing an executable algorithm image given a final page size and a
    chosen RAM region". The image is kept as the application itself. *)
Record FlashAlgoImage : Type := get_pyocd_flash_algo {
  image_flm : PackFlashAlgo;
  image_page_size : Z;
  image_ram : RamForAlgo
}.

Record FlashAttrs : Type := mkFlashAttrs {
  sector_size : Z;
  flash_page_size : Z;
  flm : PackFlashAlgo;
  algo : FlashAlgoImage;
  erased_byte_value : Z
}.

(** Modelled from the spec: the region classes belong to
    [core/memory_map.py], which is not among the sources. A region has a
    name, the inclusive address range [[start, end]] with
    [end = start + length - 1], access rights, a kind, the default, boot
    and testable flags and an optional alias; a flash region adds
    [FlashAttrs]. *)
Record MemoryRegion : Type := mkMemoryRegion {
  region_name : string;
  region_start : Z;
  region_length : Z;
  region_access : string;
  region_type : MemoryType;
  is_default : bool;
  is_boot_memory : bool;
  is_testable : bool;
  region_alias : option string;
  flash_attrs : option FlashAttrs
}.

Definition region_end (region : MemoryRegion) : Z :=
  region_start region + region_length region - 1.

(** Modelled from the spec: [MemoryRegion.contains_address], address
    containment in the inclusive range. *)
Definition contains_address (region : MemoryRegion) (addr : Z) : bool :=
  (region_start region <=? addr) && (addr <=? region_end region).

(** [FlashRegion(name=..., start=..., end=..., ...)] *)
Definition FlashRegion (name access : string) (start end_ : Z) (fa : FlashAttrs)
    (is_default is_boot_memory is_testable : bool) (alias : option string)
    : MemoryRegion :=
  mkMemoryRegion name start (end_ - start + 1) access FLASH
    is_default is_boot_memory is_testable alias (Some fa).

(** [PackFlashAlgo(self.get_file(filename))]: the storage provider and the
    decoder. *)
Variable open_flash_algo : string -> result PackFlashAlgo.

(** [x is y or x == y] on regions, the test of [list.remove]. *)
Variable region_eq : MemoryRegion -> MemoryRegion -> bool.

Record MemoryMapState : Type := mkMemoryMapState {
  _regions : list MemoryRegion;
  _saw_startup : bool;
  _default_ram : option MemoryRegion;
  device_log : list LogRecord
}.

Definition dlog (lvl : Level) (msg : LogMsg) (self : MemoryMapState) : MemoryMapState :=
  mkMemoryMapState (_regions self) (_saw_startup self) (_default_ram self)
    (device_log self ++ [(lvl, msg)]).

Definition set_saw_startup (self : MemoryMapState) : MemoryMapState :=
  mkMemoryMapState (_regions self) true (_default_ram self) (device_log self).

Definition set_regions (regions : list MemoryRegion) (self : MemoryMapState) : MemoryMapState :=
  mkMemoryMapState regions (_saw_startup self) (_default_ram self) (device_log self).

Definition set_default_ram (region : MemoryRegion) (self : MemoryMapState) : MemoryMapState :=
  mkMemoryMapState (_regions self) (_saw_startup self) (Some region) (device_log self).

(** [sub in s] for strings. *)
Fixpoint str_contains (sub s : string) : bool :=
  String.prefix sub s
  || match s with
     | EmptyString => false
     | String _ rest => str_contains sub rest
     end.

Definition _get_bool_attribute (elem : Element) (name : string) (default : bool) : bool :=
  match dict_get name (attrib elem) with
  | None => default
  | Some raw =>
      let value := str_lower (str_strip raw) in
      if str_in value ["true"; "1"] then true
      else if str_in value ["false"; "0"] then false
      else default
  end.

(** The name, access rights and kind of a memory element; [Ok None] is the
    [continue] of an element with neither [name] nor [id]. *)
Definition region_name_access_type (elem : Element)
    : result (option (string * string * MemoryType)) :=
  match dict_get "name" (attrib elem) with
  | Some name =>
      match dict_get "access" (attrib elem) with
      | None => Raise KeyError
      | Some access =>
          let type :=
            if str_contains "p" access then DEVICE
            else if str_contains "w" access then RAM
            else ROM in
          Ok (Some (name, access, type))
      end
  | None =>
      match dict_get "id" (attrib elem) with
      | Some name =>
          if str_contains "RAM" name then Ok (Some (name, "rwx", RAM))
          else Ok (Some (name, "rx", ROM))
      | None => Ok None
      end
  end.

(** One iteration of the loop of [_build_memory_regions]. *)
Definition build_memory_region (part : string) (elem : Element) (self : MemoryMapState)
    : MemoryMapState :=
  let ignore (err : exn) := dlog DEBUG (IgnoringMemoryError part err) self in
  match region_name_access_type elem with
  | Raise err => ignore err
  | Ok None => self
  | Ok (Some (name, access, type)) =>
      match int_attrib elem "start" with
      | Raise err => ignore err
      | Ok start =>
          match int_attrib elem "size" with
          | Raise err => ignore err
          | Ok size =>
              let isDefault := _get_bool_attribute elem "default" false in
              let isStartup := _get_bool_attribute elem "startup" false in
              let self1 := if isStartup then set_saw_startup self else self in
              let region :=
                mkMemoryRegion name start size access type isDefault isStartup
                  isDefault (dict_get "alias" (attrib elem)) None in
              let self2 := set_regions (_regions self1 ++ [region]) self1 in
              match _default_ram self2 with
              | None =>
                  if MemoryType_eqb type RAM && isDefault
                  then set_default_ram region self2 else self2
              | Some _ => self2
              end
          end
      end
  end.

Definition _build_memory_regions (dev : CmsisPackDevice) (self : MemoryMapState)
    : MemoryMapState :=
  fold_left (fun st elem => build_memory_region (_part dev) elem st)
    (memories (_info dev)) self.

Definition _get_containing_region (self : MemoryMapState) (addr : Z) : option MemoryRegion :=
  find (fun region => contains_address region addr) (_regions self).

Fixpoint find_matching_algo_in (algos : list Element) (region : MemoryRegion)
    : result Element :=
  match algos with
  | [] => Raise KeyError
  | algo :: rest =>
      match int_attrib algo "start" with
      | Raise e => Raise e
      | Ok algoStart =>
          match int_attrib algo "size" with
          | Raise e => Raise e
          | Ok algoSize =>
              let algoEnd := algoStart + algoSize - 1 in
              if ((algoStart <=? region_start region) && (region_start region <=? algoEnd))
                 && ((algoStart <=? region_end region) && (region_end region <=? algoEnd))
              then Ok algo
              else find_matching_algo_in rest region
          end
      end
  end.

Definition _find_matching_algo (dev : CmsisPackDevice) (region : MemoryRegion)
    : result Element :=
  find_matching_algo_in (algos (_info dev)) region.

Definition _load_flash_algo (filename : string) : result (option PackFlashAlgo) :=
  match open_flash_algo filename with
  | Ok packAlgo => Ok (Some packAlgo)
  | Raise FileNotFoundError => Ok None
  | Raise e => Raise e
  end.

(** The body of the generator [_split_flash_region_by_sector_size], from
    position [j] of the sector table on; [sectors] is the table from [j]. *)
Fixpoint split_from (region : MemoryRegion) (page_size_ : Z) (algo_ : FlashAlgoImage)
    (pack_algo : PackFlashAlgo) (sectors : list (Z * Z)) (self : MemoryMapState)
    : list MemoryRegion * MemoryMapState :=
  match sectors with
  | [] => ([], self)
  | (offset, sector_size_) :: rest =>
      let start := region_start region + offset in
      let end_ :=
        match rest with
        | [] => region_end region
        | (next_offset, _) :: _ => region_start region + next_offset - 1
        end in
      if end_ <? start then split_from region page_size_ algo_ pack_algo rest self
      else
        let '(region_page_size, self1) :=
          if page_size_ >? sector_size_
          then (sector_size_,
                dlog WARNING
                  (PageSizeLargerThanSector page_size_ sector_size_ (region_name region))
                  self)
          else (page_size_, self) in
        let '(is_boot, self2) :=
          if negb (_saw_startup self1) then (true, set_saw_startup self1)
          else (is_boot_memory region, self1) in
        let name :=
          if (1 <? Z.of_nat (List.length (sector_sizes pack_algo)))
          then (region_name region ++ format_sector_suffix sector_size_)%string
          else region_name region in
        let flash :=
          FlashRegion name (region_access region) start end_
            (mkFlashAttrs sector_size_ region_page_size pack_algo algo_
               (value_empty pack_algo))
            (is_default region) is_boot (is_testable region) (region_alias region) in
        let '(more, self3) :=
          split_from region page_size_ algo_ pack_algo rest self2 in
        (flash :: more, self3)
  end.

Definition _split_flash_region_by_sector_size (region : MemoryRegion) (page_size_ : Z)
    (algo_ : FlashAlgoImage) (pack_algo : PackFlashAlgo) (self : MemoryMapState)
    : list MemoryRegion * MemoryMapState :=
  split_from region page_size_ algo_ pack_algo (sector_sizes pack_algo) self.


(** [min(s[1] for s in packAlgo.sector_sizes)] when the decoded page size is
    implausibly small. *)
Definition choose_page_size (packAlgo : PackFlashAlgo) : result Z :=
  if page_size packAlgo <=? 32 then
    match map snd (sector_sizes packAlgo) with
    | [] => Raise ValueError
    | s :: rest => Ok (fold_left Z.min rest s)
    end
  else Ok (page_size packAlgo).

(** The [try: ... except KeyError:] block selecting the RAM for the algo. *)
Definition select_ram_for_algo (algo_element : Element) (default_ram : MemoryRegion)
    (self : MemoryMapState) : result RamForAlgo :=
  match dict_get "RAMstart" (attrib algo_element) with
  | None => Ok (mkRamForAlgo (region_start default_ram) (region_length default_ram))
  | Some raw_start =>
      match int0 raw_start with
      | None => Raise ValueError
      | Some ram_start_ =>
          match dict_get "RAMsize" (attrib algo_element) with
          | Some raw_size =>
              match int0 raw_size with
              | None => Raise ValueError
              | Some ram_size => Ok (mkRamForAlgo ram_start_ ram_size)
              end
          | None =>
              match _get_containing_region self ram_start_ with
              | Some containing_region =>
                  Ok (mkRamForAlgo ram_start_
                        (region_length containing_region
                         - (ram_start_ - region_start containing_region)))
              | None => Ok (mkRamForAlgo ram_start_ (128 * 1024))
              end
          end
      end
  end.

(** One iteration of the loop of [_build_flash_regions]; [acc] is
    [(regions_to_delete, regions_to_add)]. The debug record of the
    algorithm's details, written when a session option asks for it, is left
    out. *)
Definition convert_rom_region (dev : CmsisPackDevice) (default_ram : MemoryRegion)
    (region : MemoryRegion) (acc : list MemoryRegion * list MemoryRegion)
    (self : MemoryMapState)
    : result (list MemoryRegion * list MemoryRegion) * MemoryMapState :=
  if negb (MemoryType_eqb (region_type region) ROM) then (Ok acc, self)
  else
    match _find_matching_algo dev region with
    | Raise KeyError => (Ok acc, self)
    | Raise e => (Raise e, self)
    | Ok algo_element =>
        match dict_get "name" (attrib algo_element) with
        | None => (Raise KeyError, self)
        | Some algo_name =>
            match _load_flash_algo algo_name with
            | Raise e => (Raise e, self)
            | Ok None =>
                (Ok acc, dlog WARNING (FlashAlgoNotFound algo_name (_part dev)) self)
            | Ok (Some packAlgo) =>
                match choose_page_size packAlgo with
                | Raise e => (Raise e, self)
                | Ok page_size_ =>
                    match select_ram_for_algo algo_element default_ram self with
                    | Raise e => (Raise e, self)
                    | Ok ram_for_algo =>
                        let algo_ := get_pyocd_flash_algo packAlgo page_size_ ram_for_algo in
                        let '(flashes, self1) :=
                          _split_flash_region_by_sector_size region page_size_ algo_
                            packAlgo self in
                        (Ok (fst acc ++ [region], snd acc ++ flashes), self1)
                    end
                end
            end
        end
    end.

Fixpoint convert_rom_regions (dev : CmsisPackDevice) (default_ram : MemoryRegion)
    (regions : list MemoryRegion) (acc : list MemoryRegion * list MemoryRegion)
    (self : MemoryMapState)
    : result (list MemoryRegion * list MemoryRegion) * MemoryMapState :=
  match regions with
  | [] => (Ok acc, self)
  | region :: rest =>
      match convert_rom_region dev default_ram region acc self with
      | (Ok acc', self') => convert_rom_regions dev default_ram rest acc' self'
      | (Raise e, self') => (Raise e, self')
      end
  end.

(** [regions.remove(region)] *)
Fixpoint list_remove (region : MemoryRegion) (regions : list MemoryRegion)
    : result (list MemoryRegion) :=
  match regions with
  | [] => Raise ValueError
  | r :: rest =>
      if region_eq r region then Ok rest
      else match list_remove region rest with
           | Ok rest' => Ok (r :: rest')
           | Raise e => Raise e
           end
  end.

Fixpoint remove_regions (to_delete : list MemoryRegion) (self : MemoryMapState)
    : result unit * MemoryMapState :=
  match to_delete with
  | [] => (Ok tt, self)
  | region :: rest =>
      match list_remove region (_regions self) with
      | Ok regions' => remove_regions rest (set_regions regions' self)
      | Raise e => (Raise e, self)
      end
  end.

Definition _build_flash_regions (dev : CmsisPackDevice) (self : MemoryMapState)
    : result unit * MemoryMapState :=
  match _default_ram self with
  | None => (Ok tt, dlog WARNING (NoDefaultRam (_part dev)) self)
  | Some default_ram =>
      match convert_rom_regions dev default_ram (_regions self) ([], []) self with
      | (Raise e, self1) => (Raise e, self1)
      | (Ok (regions_to_delete, regions_to_add), self1) =>
          match remove_regions regions_to_delete self1 with
          | (Raise e, self2) => (Raise e, self2)
          | (Ok _, self2) =>
              (Ok tt, set_regions (_regions self2 ++ regions_to_add) self2)
          end
      end
  end.

Definition new_memory_map_state : MemoryMapState := mkMemoryMapState [] false None [].

(** The [memory_map] property on its first access; the value is the region
    list handed to [MemoryMap]. *)
Definition memory_map (dev : CmsisPackDevice) : result (list MemoryRegion) * MemoryMapState :=
  let self1 := _build_memory_regions dev new_memory_map_state in
  match _build_flash_regions dev self1 with
  | (Raise e, self2) => (Raise e, self2)
  | (Ok _, self2) =>
      let self3 :=
        if negb (_saw_startup self2)
        then dlog WARNING (NoBootMemory (_part dev)) self2 else self2 in
      (Ok (_regions self3), self3)
  end.

(** ** [CmsisPackDevice]: debug topology *)

(** Modelled from the spec: the access-port address classes belong to
    [coresight/ap.py], which is not among the sources. An address is
    index-based (v1: an index and a debug-port index) or absolute (v2: an
    address and a debug-port index); an omitted debug port is debug port 0. *)
Inductive APAddressBase : Type :=
| APv1Address (apsel : Z) (dp : Z)
| APv2Address (address : Z) (dp : Z).

Definition default_dp : Z := 0.

Record ProcessorInfo : Type := mkProcessorInfo {
  proc_name : string;
  proc_unit : Z;
  total_units : Z;
  ap_address : APAddressBase;
  proc_address : Z;
  svd_path : option string;
  default_reset_sequence : string
}.

(** [ProcessorInfo(name=name, total_units=total_units)] with the defaults of
    the dataclass. *)
Definition new_ProcessorInfo (name : string) (total_units_ : Z) : ProcessorInfo :=
  mkProcessorInfo name (-1) total_units_ (APv1Address (-1) default_dp) 0 None "ResetSystem".

Record TopologyState : Type := mkTopologyState {
  _valid_dps : list Z;
  _apids : dict Z APAddressBase;
  _processors_map : dict string ProcessorInfo;
  _built_apid_map : bool;
  topology_log : list LogRecord
}.

Definition tlog (part : string) (self : TopologyState) : TopologyState :=
  mkTopologyState (_valid_dps self) (_apids self) (_processors_map self)
    (_built_apid_map self) (topology_log self ++ [(WARNING, MalformedPack part)]).

Definition set_valid_dps (dps : list Z) (self : TopologyState) : TopologyState :=
  mkTopologyState dps (_apids self) (_processors_map self) (_built_apid_map self)
    (topology_log self).

Definition set_apids (apids : dict Z APAddressBase) (self : TopologyState) : TopologyState :=
  mkTopologyState (_valid_dps self) apids (_processors_map self) (_built_apid_map self)
    (topology_log self).

Definition set_processors_map (procs : dict string ProcessorInfo) (self : TopologyState)
    : TopologyState :=
  mkTopologyState (_valid_dps self) (_apids self) procs (_built_apid_map self)
    (topology_log self).

Definition set_built_apid_map (self : TopologyState) : TopologyState :=
  mkTopologyState (_valid_dps self) (_apids self) (_processors_map self) true
    (topology_log self).

(** [_get_int_attribute]; the only exception is [MalformedCmsisPackError]. *)
Definition _get_int_attribute (elem : Element) (name : string) (default : option Z)
    : result Z :=
  match dict_get name (attrib elem) with
  | None =>
      match default with
      | None => Raise MalformedCmsisPackError
      | Some d => Ok d
      end
  | Some raw =>
      match int0 raw with
      | Some value => Ok value
      | None => Raise MalformedCmsisPackError
      end
  end.

Definition _build_valid_dps (dev : CmsisPackDevice) (self : TopologyState) : TopologyState :=
  let self1 :=
    fold_left
      (fun st debugport =>
         match _get_int_attribute debugport "__dp" None with
         | Ok dp => set_valid_dps (_valid_dps st ++ [dp]) st
         | Raise _ => tlog (_part dev) st
         end)
      (debugports (_info dev)) self in
  match _valid_dps self1 with
  | [] => set_valid_dps [0] self1
  | _ => self1
  end.

(** The [valid_dps] property. *)
Definition valid_dps (dev : CmsisPackDevice) (self : TopologyState)
    : list Z * TopologyState :=
  match _valid_dps self with
  | [] => let self1 := _build_valid_dps dev self in (_valid_dps self1, self1)
  | dps => (dps, self)
  end.

Definition Z_in (n : Z) (l : list Z) : bool := existsb (Z.eqb n) l.

(** One iteration of the loop of [_handle_accessports]. [InternalError] is
    not caught. *)
Definition handle_accessport (dev : CmsisPackDevice) (accessport : Element)
    (self : TopologyState) : result unit * TopologyState :=
  match _get_int_attribute accessport "__dp" (Some 0) with
  | Raise _ => (Ok tt, tlog (_part dev) self)
  | Ok ap_dp =>
      let '(dps, self1) := valid_dps dev self in
      let self2 := if negb (Z_in ap_dp dps) then tlog (_part dev) self1 else self1 in
      let address_of : result (result APAddressBase) :=
        if String.eqb (tag accessport) "accessportV1" then
          match _get_int_attribute accessport "index" None with
          | Ok index => Ok (Ok (APv1Address index ap_dp))
          | Raise e => Ok (Raise e)
          end
        else if String.eqb (tag accessport) "accessportV2" then
          match _get_int_attribute accessport "address" None with
          | Ok address => Ok (Ok (APv2Address address ap_dp))
          | Raise e => Ok (Raise e)
          end
        else Raise InternalError in
      match address_of with
      | Raise e => (Raise e, self2)
      | Ok (Raise _) => (Ok tt, tlog (_part dev) self2)
      | Ok (Ok ap_address_) =>
          match _get_int_attribute accessport "__apid" None with
          | Raise _ => (Ok tt, tlog (_part dev) self2)
          | Ok apid => (Ok tt, set_apids (dict_set apid ap_address_ (_apids self2)) self2)
          end
      end
  end.

Fixpoint handle_accessports_loop (dev : CmsisPackDevice) (elems : list Element)
    (self : TopologyState) : result unit * TopologyState :=
  match elems with
  | [] => (Ok tt, self)
  | accessport :: rest =>
      match handle_accessport dev accessport self with
      | (Ok _, self') => handle_accessports_loop dev rest self'
      | (Raise e, self') => (Raise e, self')
      end
  end.

Definition _handle_accessports (dev : CmsisPackDevice) (self : TopologyState)
    : result unit * TopologyState :=
  handle_accessports_loop dev (accessports (_info dev)) self.

(** One iteration of the loop of [_handle_processors]. *)
Definition handle_processor (dev : CmsisPackDevice) (proc : Element) (self : TopologyState)
    : TopologyState :=
  let pname_of : result string :=
    match dict_get "Pname" (attrib proc) with
    | Some pname => Ok pname
    | None =>
        match dict_get "Dcore" (attrib proc) with
        | Some dcore => Ok dcore
        | None => Raise MalformedCmsisPackError
        end
    end in
  match pname_of with
  | Raise _ => tlog (_part dev) self
  | Ok pname =>
      match _get_int_attribute proc "Punits" (Some 1) with
      | Raise _ => tlog (_part dev) self
      | Ok punits =>
          if dict_mem pname (_processors_map self) then tlog (_part dev) self
          else set_processors_map
                 (dict_set pname (new_ProcessorInfo pname punits) (_processors_map self))
                 self
      end
  end.

Definition _handle_processors (dev : CmsisPackDevice) (self : TopologyState) : TopologyState :=
  let self1 :=
    fold_left (fun st proc => handle_processor dev proc st) (processors (_info dev)) self in
  match _processors_map self1 with
  | [] =>
      set_processors_map (dict_set "unknown" (new_ProcessorInfo "unknown" 1) [])
        (tlog (_part dev) self1)
  | _ => self1
  end.

(** The access-port address a [<debug>] element resolves to; the outer
    [result] is never an error here and the inner one is the
    [MalformedCmsisPackError] that the loop catches. *)
Definition debug_ap_address (dev : CmsisPackDevice) (debug : Element) (self : TopologyState)
    : result APAddressBase * TopologyState :=
  if has_attr "__apid" debug then
    match _get_int_attribute debug "__apid" None with
    | Raise e => (Raise e, self)
    | Ok apid =>
        match dict_get apid (_apids self) with
        | None => (Raise MalformedCmsisPackError, self)
        | Some ap_address_ => (Ok ap_address_, self)
        end
    end
  else if has_attr "__ap" debug then
    match _get_int_attribute debug "__dp" (Some 0) with
    | Raise e => (Raise e, self)
    | Ok dp_index =>
        let '(dps, self1) := valid_dps dev self in
        if negb (Z_in dp_index dps) then (Raise MalformedCmsisPackError, self1)
        else
          match _get_int_attribute debug "__ap" None with
          | Raise e => (Raise e, self1)
          | Ok ap_index => (Ok (APv1Address ap_index dp_index), self1)
          end
    end
  else (Ok (APv1Address 0 default_dp), self).

Definition set_proc (pname : string) (proc : ProcessorInfo) (self : TopologyState)
    : TopologyState :=
  set_processors_map (dict_set pname proc (_processors_map self)) self.

Definition with_unit (u : Z) (p : ProcessorInfo) : ProcessorInfo :=
  mkProcessorInfo (proc_name p) u (total_units p) (ap_address p) (proc_address p)
    (svd_path p) (default_reset_sequence p).

Definition with_ap_address (a : APAddressBase) (p : ProcessorInfo) : ProcessorInfo :=
  mkProcessorInfo (proc_name p) (proc_unit p) (total_units p) a (proc_address p)
    (svd_path p) (default_reset_sequence p).

Definition with_address (a : Z) (p : ProcessorInfo) : ProcessorInfo :=
  mkProcessorInfo (proc_name p) (proc_unit p) (total_units p) (ap_address p) a
    (svd_path p) (default_reset_sequence p).

Definition with_svd_path (s : option string) (p : ProcessorInfo) : ProcessorInfo :=
  mkProcessorInfo (proc_name p) (proc_unit p) (total_units p) (ap_address p)
    (proc_address p) s (default_reset_sequence p).

Definition with_default_reset_sequence (s : string) (p : ProcessorInfo) : ProcessorInfo :=
  mkProcessorInfo (proc_name p) (proc_unit p) (total_units p) (ap_address p)
    (proc_address p) (svd_path p) s.

(** The assignments onto the target [ProcessorInfo]; the object is mutated in
    place, so the assignments made before an error stay. *)
Definition update_processor (dev : CmsisPackDevice) (debug : Element) (pname : string)
    (ap_address_ : APAddressBase) (self : TopologyState) : TopologyState :=
  match dict_get pname (_processors_map self) with
  | None => tlog (_part dev) self
  | Some proc =>
      match _get_int_attribute debug "Punit" (Some 0) with
      | Raise _ => tlog (_part dev) self
      | Ok unit_ =>
          let proc1 := with_ap_address ap_address_ (with_unit unit_ proc) in
          match _get_int_attribute debug "address" (Some 0) with
          | Raise _ => tlog (_part dev) (set_proc pname proc1 self)
          | Ok address =>
              let proc2 :=
                with_svd_path (dict_get "svd" (attrib debug)) (with_address address proc1) in
              let proc3 :=
                match dict_get "defaultResetSequence" (attrib debug) with
                | Some seq => with_default_reset_sequence seq proc2
                | None => proc2
                end in
              set_proc pname proc3 self
          end
      end
  end.

(** One iteration of the loop over [self._info.debugs] in [_build_aps_map]. *)
Definition handle_debug (dev : CmsisPackDevice) (debug : Element) (self : TopologyState)
    : result unit * TopologyState :=
  match (match dict_get "Pname" (attrib debug) with
         | Some pname => Ok pname
         | None =>
             match dict_keys (_processors_map self) with
             | first :: _ => Ok first
             | [] => Raise IndexError
             end
         end) with
  | Raise e => (Raise e, self)
  | Ok pname =>
      if negb (dict_mem pname (_processors_map self)) then (Ok tt, tlog (_part dev) self)
      else
        match debug_ap_address dev debug self with
        | (Raise _, self1) => (Ok tt, tlog (_part dev) self1)
        | (Ok ap_address_, self1) =>
            (Ok tt, update_processor dev debug pname ap_address_ self1)
        end
  end.

Fixpoint handle_debugs (dev : CmsisPackDevice) (elems : list Element) (self : TopologyState)
    : result unit * TopologyState :=
  match elems with
  | [] => (Ok tt, self)
  | debug :: rest =>
      match handle_debug dev debug self with
      | (Ok _, self') => handle_debugs dev rest self'
      | (Raise e, self') => (Raise e, self')
      end
  end.

Definition _build_aps_map (dev : CmsisPackDevice) (self : TopologyState)
    : result unit * TopologyState :=
  let self0 := set_built_apid_map self in
  match _handle_accessports dev self0 with
  | (Raise e, self1) => (Raise e, self1)
  | (Ok _, self1) =>
      let self2 := _handle_processors dev self1 in
      match _processors_map self2 with
      | [] => (Raise AssertionError, self2)
      | _ => handle_debugs dev (debugs (_info dev)) self2
      end
  end.

Definition new_topology_state : TopologyState := mkTopologyState [] [] [] false [].

(** The [processors_map] property on its first access. *)
Definition processors_map (dev : CmsisPackDevice)
    : result (dict string ProcessorInfo) * TopologyState :=
  match _build_aps_map dev new_topology_state with
  | (Ok _, self) => (Ok (_processors_map self), self)
  | (Raise e, self) => (Raise e, self)
  end.

(** ** Statement vocabulary *)

(** A debug entry is per-processor when it carries [Pname]. *)
Definition per_processor (elem : Element) : bool := has_attr "Pname" elem.

(** The key the debug filter files a per-processor entry under. *)
Definition debug_key (elem : Element) : string :=
  match dict_get "Pname" (attrib elem) with
  | Some pname =>
      (pname ++ match dict_get "Punit" (attrib elem) with
                | Some u => u
                | None => "0"
                end)%string
  | None => "*"
  end.

(** The sub-ranges a sector table cuts a region into, as (start, end, sector
    size): sub-range [j] starts at the region's start plus offset [j] and
    ends one below the start of sub-range [j+1]; the last one extends to the
    region's end. *)
Fixpoint sub_ranges (first last : Z) (table : list (Z * Z)) : list (Z * Z * Z) :=
  match table with
  | [] => []
  | (offset, size) :: rest =>
      (first + offset,
       match rest with
       | [] => last
       | (next_offset, _) :: _ => first + next_offset - 1
       end,
       size) :: sub_ranges first last rest
  end.

(** A sub-range whose end is below its start is malformed. *)
Definition well_formed_range (r : Z * Z * Z) : bool :=
  let '(s, e, _) := r in s <=? e.

(** The range and sector size of a synthesized flash region. *)
Definition flash_range (region : MemoryRegion) : Z * Z * Z :=
  (region_start region, region_end region,
   match flash_attrs region with
   | Some fa => sector_size fa
   | None => 0
   end).

(** The region [[0, 0x1FFFF]] and the sector table of the flash split
    example. *)
Definition example_rom : MemoryRegion :=
  mkMemoryRegion "IROM1" 0 0x20000 "rx" ROM true false true None None.

Definition example_flm : PackFlashAlgo :=
  mkPackFlashAlgo 0x400 [(0, 0x1000); (0x10000, 0x2000)] 0xFF.

(** A memory element that gives a name and no access string. *)
Definition named_without_access (elem : Element) : bool :=
  has_attr "name" elem && negb (has_attr "access" elem).

(** The inclusive range of an algorithm element fully contains the region's
    start and end addresses. *)
Definition fully_contains (region : MemoryRegion) (algo : Element) : bool :=
  match int_attrib algo "start", int_attrib algo "size" with
  | Ok start, Ok size =>
      let last := start + size - 1 in
      ((start <=? region_start region) && (region_start region <=? last))
      && ((start <=? region_end region) && (region_end region <=? last))
  | _, _ => false
  end.

(** The algorithm list of a device is the one the walk resolved. *)
Definition resolved_algos (l : list Element) : Prop :=
  exists self self', _extract_algos self = (Ok l, self').

(** The collection is one global entry under the sentinel, or per-processor
    entries only. *)
Definition homogeneous (m : dict string Element) : Prop :=
  (exists g, m = [("*", g)] /\ per_processor g = false)
  \/ Forall (fun e => per_processor e = true) (dict_values m).

(** What the collection looks like once [last] has been folded in. *)
Definition reflects (last : Element) (m : dict string Element) : Prop :=
  if per_processor last
  then Forall (fun e => per_processor e = true) (dict_values m)
       /\ In last (dict_values m)
  else m = [("*", last)].

(** Both required attributes of an algorithm element parse. *)
Definition valid_range (algo : Element) : Prop :=
  exists start size, int_attrib algo "start" = Ok start /\ int_attrib algo "size" = Ok size.

(** The size of an explicit algorithm RAM: [RAMsize] if given, else the
    remaining length of the region containing the RAM start, else 128 KiB. *)
Definition explicit_ram_size (algo_element : Element) (self : MemoryMapState)
    (ram_start_ : Z) : result Z :=
  match dict_get "RAMsize" (attrib algo_element) with
  | Some raw =>
      match int0 raw with
      | Some n => Ok n
      | None => Raise ValueError
      end
  | None =>
      match find (fun region => contains_address region ram_start_) (_regions self) with
      | Some within => Ok (region_length within - (ram_start_ - region_start within))
      | None => Ok 131072
      end
  end.

(** How many regions carry the boot-memory flag. *)
Definition count_boot (regions : list MemoryRegion) : nat :=
  List.length (filter is_boot_memory regions).

(** The processor a debug element is aimed at, given the processor names in
    the order of the map: its [Pname], else the first processor. *)
Definition debug_target (names : list string) (debug : Element) : option string :=
  match dict_get "Pname" (attrib debug) with
  | Some pname => Some pname
  | None => hd_error names
  end.

(** The address a [ProcessorInfo] is constructed with. *)
Definition placeholder_address : APAddressBase := APv1Address (-1) default_dp.

(** The key of a memory element: its [name], else its [id], else its start
    and size as text, paired with its processor name. *)
Definition memory_key (elem : Element) (start size : Z) : MemKey :=
  (match dict_get "name" (attrib elem) with
   | Some n => n
   | None =>
       match dict_get "id" (attrib elem) with
       | Some i => i
       | None => format_start_size start size
       end
   end,
   dict_get "Pname" (attrib elem)).

(** An earlier entry overlaps the new range [[start, start+size-1]]:
    [prevStart <= start < prevEnd] or [prevStart <= end < prevEnd]. *)
Definition overlaps_new (start size : Z) (prev : Element) : bool :=
  match int_attrib prev "start", int_attrib prev "size" with
  | Ok prev_start, Ok prev_size => ranges_overlap start size prev_start prev_size
  | _, _ => false
  end.

(** The collection after a new entry is folded in: the entry under the same
    key is deleted, every remaining entry that overlaps is evicted, whatever
    its processor name, and the new entry is inserted. *)
Definition merged_memories (elem : Element) (start size : Z) (m : dict MemKey Element)
    : dict MemKey Element :=
  let info := memory_key elem start size in
  dict_set info elem
    (filter (fun kv => negb (overlaps_new start size (snd kv))) (dict_del info m)).

(** Some remaining entry of the same processor name overlaps the new one. *)
Definition same_processor_overlap (elem : Element) (start size : Z)
    (m : dict MemKey Element) : bool :=
  let info := memory_key elem start size in
  existsb (fun kv => overlaps_new start size (snd kv) && keqb (snd info) (snd (fst kv)))
    (dict_del info m).

Definition is_overlap_warning (r : LogRecord) : bool :=
  match r with
  | (WARNING, OverlappingMemoryRegions _ _) => true
  | _ => false
  end.

(** The overlap warnings in a log. *)
Definition overlap_warnings (records : list LogRecord) : nat :=
  List.length (filter is_overlap_warning records).

(** The invariant of a memory collection: unique keys, and every entry went
    through [get_start_and_size]. *)
Definition memory_map_ok (m : dict MemKey Element) : Prop :=
  dict_wf m /\ Forall valid_range (dict_values m).

(** The file name the overlap warning prints:
    [self.pack.filename if self.pack else "unknown"]. *)
Definition warning_filename (self : CmsisPackDescription) : result (option string) :=
  match _pack self with
  | Some pack => filename pack
  | None => Ok (Some "unknown")
  end.

(** The description belongs to a pack opened from an expanded directory. *)
Definition opened_from_directory (self : CmsisPackDescription) : bool :=
  match _pack self with
  | Some pack => _is_dir pack
  | None => false
  end.

(** The error raised while the arguments of the overlap warning are
    evaluated, if any: the file name first, then the part number of the
    device being resolved. *)
Definition warning_error (self : CmsisPackDescription) : option exn :=
  match warning_filename self with
  | Raise e => Some e
  | Ok _ =>
      match top_of_stack self with
      | Raise e => Some e
      | Ok state =>
          match _get_part_number_from_element (element state) with
          | Raise e => Some e
          | Ok _ => None
          end
      end
  end.

(** The overlap warning, emitted unless it was emitted before. *)
Definition warn_once (needed : bool) (part : string) (self : CmsisPackDescription)
    : CmsisPackDescription :=
  if needed && negb (_warned_overlapping_memory_regions self)
  then match warning_filename self with
       | Ok filename =>
           set_warned (log WARNING (OverlappingMemoryRegions filename part) self)
       | Raise _ => self
       end
  else self.

(** The overlap warning, when it is due, can be built: the file name of the
    pack can be read, and the device being resolved has the part number. *)
Definition warning_printable (needed : bool) (part : string)
    (self : CmsisPackDescription) : Prop :=
  needed = true ->
  _warned_overlapping_memory_regions self = false ->
  (exists filename, warning_filename self = Ok filename)
  /\ exists state,
       top_of_stack self = Ok state
       /\ _get_part_number_from_element (element state) = Ok part.

(** The overlap warnings logged so far are accounted for by the flag. *)
Definition warned_once (self : CmsisPackDescription) : Prop :=
  (overlap_warnings (LOG self) <= Nat.b2n (_warned_overlapping_memory_regions self))%nat.

(** A property of the description that logging leaves alone: any record
    other than the overlap warning, and the overlap warning together with the
    flag when the flag was off. *)
Record log_stable (P : CmsisPackDescription -> Prop) : Prop := mk_log_stable {
  stable_log :
    forall lvl msg self,
      is_overlap_warning (lvl, msg) = false -> P self -> P (log lvl msg self);
  stable_warn :
    forall fn part self,
      _warned_overlapping_memory_regions self = false -> P self ->
      P (set_warned (log WARNING (OverlappingMemoryRegions fn part) self))
}.

(** A computation, or a filter, keeps a property of the description,
    whether it returns or raises. *)
Definition keeps (P : CmsisPackDescription -> Prop) {A : Type} (c : M A) : Prop :=
  forall self, P self -> P (snd (c self)).

Definition filter_keeps (P : CmsisPackDescription -> Prop) {K V : Type}
    (filter : Filter K V) : Prop :=
  forall m elem self, P self -> P (snd (filter m elem self)).

(** A property of the description that the walk's own bookkeeping leaves
    alone as well. *)
Record walk_stable (P : CmsisPackDescription -> Prop) : Prop := mk_walk_stable {
  stable_logging : log_stable P;
  stable_stack : forall stack self, P self -> P (set_state_stack stack self);
  stable_devices : forall dev self, P self -> P (append_device dev self)
}.

(** A required numeric attribute is missing or not a number. *)
Definition unreadable (elem : Element) (name : string) : Prop :=
  forall n, int_attrib elem name <> Ok n.

(** The merge pass skips [bad]: the filter raises an error the pass catches,
    leaves the collection as it was and touches nothing of the description
    but the log; the pass logs the error and goes on with the rest. *)
Definition skipped_by {K V : Type} (filter : Filter K V) (bad : Element) : Prop :=
  forall (m : dict K V) (self : CmsisPackDescription) (rest : list Element),
    exists e self1,
      filter m bad self = (Raise e, m, self1)
      /\ caught_by_extract_items e = true
      /\ _state_stack self1 = _state_stack self
      /\ _devices self1 = _devices self
      /\ _warned_overlapping_memory_regions self1 = _warned_overlapping_memory_regions self
      /\ extract_loop filter (bad :: rest) m self
         = extract_loop filter rest m (log DEBUG (ErrorParsingPack e) self1).

(** The merge pass returns a collection. *)
Definition returns {A : Type} (c : M A) (self : CmsisPackDescription) : Prop :=
  exists a self', c self = (Ok a, self').

(** The computation raises, whatever the state it starts in. *)
Definition never_returns {A : Type} (c : M A) : Prop :=
  forall self, exists e self', c self = (Raise e, self').

(** An algorithm element the filter does not drop for its style. *)
Definition keil_style (elem : Element) : bool :=
  match dict_get "style" (attrib elem) with
  | Some style => String.eqb (str_lower style) "keil"
  | None => true
  end.

(** ** Example packs *)

(** A description with one family holding [elems]. *)
Definition pdsc_of (elems : list Element) : Element :=
  mkElement "package" []
    [mkElement "devices" []
       [mkElement "family" [("Dfamily", "Example"); ("Dvendor", "Vendor:1")] elems]].

(** A decoder that knows one algorithm file, and region equality by range. *)
Definition example_open_flash_algo (name : string) : result PackFlashAlgo :=
  if String.eqb name "Flash/Example.FLM" then Ok example_flm else Raise FileNotFoundError.

Definition same_range (a b : MemoryRegion) : bool :=
  (region_start a =? region_start b) && (region_length a =? region_length b).

(** Inheritance: the family gives the core and an FPU, the device another
    FPU. *)
Definition family_processor : Element :=
  mkElement "processor" [("Dcore", "Cortex-M4"); ("Dfpu", "SP_FPU")] [].

Definition device_processor : Element :=
  mkElement "processor" [("Dfpu", "NO_FPU")] [].

Definition pdsc_inheritance : Element :=
  pdsc_of [family_processor;
           mkElement "device" [("Dname", "DevA")] [device_processor]].

(** Overlap: a device whose second memory overlaps its first, and a second
    device with an overlap of its own. *)
Definition memory_low : Element :=
  mkElement "memory" [("name", "IROM1"); ("access", "rx");
                      ("start", "0x0"); ("size", "0x1000")] [].

Definition memory_overlapping : Element :=
  mkElement "memory" [("name", "IROM2"); ("access", "rx");
                      ("start", "0x800"); ("size", "0x1000")] [].

Definition device_overlap : Element :=
  mkElement "device" [("Dname", "DevB")] [memory_low; memory_overlapping].

Definition device_overlap_again : Element :=
  mkElement "device" [("Dname", "DevC")] [memory_low; memory_overlapping].

Definition pdsc_overlap : Element := pdsc_of [device_overlap; device_overlap_again].

Definition state_overlap : _DeviceInfo :=
  mk_DeviceInfo device_overlap [] [] [memory_low; memory_overlapping] [] [] [] [].

Definition description_overlap : CmsisPackDescription :=
  mkDescription None [state_overlap] [] false [].

(** Debug scope: a per-processor entry, a global one, a per-processor one. *)
Definition debug_A : Element := mkElement "debug" [("Pname", "cm4"); ("__ap", "0")] [].
Definition debug_global : Element := mkElement "debug" [("svd", "dev.svd")] [].
Definition debug_B : Element :=
  mkElement "debug" [("Pname", "cm0"); ("Punit", "1"); ("__ap", "1")] [].

(** Flash synthesis: a ROM with a matching algorithm that names its RAM, and
    a RAM that is or is not the default. *)
Definition memory_rom : Element :=
  mkElement "memory" [("name", "IROM1"); ("access", "rx");
                      ("start", "0x00000000"); ("size", "0x20000")] [].

Definition memory_ram : Element :=
  mkElement "memory" [("name", "IRAM1"); ("access", "rwx");
                      ("start", "0x20000000"); ("size", "0x8000")] [].

Definition memory_ram_default : Element :=
  mkElement "memory" [("name", "IRAM1"); ("access", "rwx");
                      ("start", "0x20000000"); ("size", "0x8000");
                      ("default", "1")] [].

Definition algorithm_explicit_ram : Element :=
  mkElement "algorithm" [("name", "Flash/Example.FLM"); ("start", "0x00000000");
                         ("size", "0x20000"); ("RAMstart", "0x20000000");
                         ("RAMsize", "0x1000")] [].

Definition cortex_m4 : Element := mkElement "processor" [("Dcore", "Cortex-M4")] [].

Definition element_no_default_ram : Element :=
  mkElement "device" [("Dname", "DevD")]
    [cortex_m4; memory_rom; memory_ram; algorithm_explicit_ram].

Definition device_no_default_ram : CmsisPackDevice :=
  mkCmsisPackDevice
    (mk_DeviceInfo element_no_default_ram ["Vendor:1"; "Example"] [cortex_m4]
       [memory_rom; memory_ram] [algorithm_explicit_ram] [] [] [])
    "DevD".

Definition element_default_ram : Element :=
  mkElement "device" [("Dname", "DevE")]
    [cortex_m4; memory_rom; memory_ram_default; algorithm_explicit_ram].

Definition device_default_ram : CmsisPackDevice :=
  mkCmsisPackDevice
    (mk_DeviceInfo element_default_ram ["Vendor:1"; "Example"] [cortex_m4]
       [memory_rom; memory_ram_default] [algorithm_explicit_ram] [] [] [])
    "DevE".

Definition region_rom : MemoryRegion :=
  mkMemoryRegion "IROM1" 0 0x20000 "rx" ROM false false false None None.

Definition region_ram : MemoryRegion :=
  mkMemoryRegion "IRAM1" 0x20000000 0x8000 "rwx" RAM false false false None None.

Definition region_ram_default : MemoryRegion :=
  mkMemoryRegion "IRAM1" 0x20000000 0x8000 "rwx" RAM true false true None None.

(** Malformed device: a device without [Dname] ahead of a well-formed one. *)
Definition element_nameless : Element := mkElement "device" [] [cortex_m4].
Definition element_named : Element := mkElement "device" [("Dname", "DevF")] [cortex_m4].

Definition pdsc_nameless_first : Element := pdsc_of [element_nameless; element_named].
Definition pdsc_named_only : Element := pdsc_of [element_named].

(** A memory element without its size. *)
Definition memory_sizeless : Element :=
  mkElement "memory" [("name", "IROM3"); ("access", "rx"); ("start", "0x0")] [].

(** Boot memory: two memory elements marked startup. *)
Definition memory_boot_1 : Element :=
  mkElement "memory" [("name", "IROM1"); ("access", "rx"); ("start", "0x0");
                      ("size", "0x1000"); ("startup", "1")] [].

Definition memory_boot_2 : Element :=
  mkElement "memory" [("name", "IROM2"); ("access", "rx"); ("start", "0x10000");
                      ("size", "0x1000"); ("startup", "true")] [].

Definition device_two_boot : CmsisPackDevice :=
  mkCmsisPackDevice
    (mk_DeviceInfo
       (mkElement "device" [("Dname", "DevG")] [cortex_m4; memory_boot_1; memory_boot_2])
       ["Vendor:1"; "Example"] [cortex_m4] [memory_boot_1; memory_boot_2] [] [] [] [])
    "DevG".

(** Debug topology: a processor with no debug element, and one with a debug
    element that names no access port. *)
Definition device_no_debug : CmsisPackDevice :=
  mkCmsisPackDevice
    (mk_DeviceInfo (mkElement "device" [("Dname", "DevH")] [cortex_m4])
       ["Vendor:1"; "Example"] [cortex_m4] [] [] [] [] [])
    "DevH".

Definition device_plain_debug : CmsisPackDevice :=
  mkCmsisPackDevice
    (mk_DeviceInfo (mkElement "device" [("Dname", "DevI")] [cortex_m4; debug_global])
       ["Vendor:1"; "Example"] [cortex_m4] [] [] [debug_global] [] [])
    "DevI".

(** A named memory element without access rights. *)
Definition memory_no_access : Element :=
  mkElement "memory" [("name", "IROM1"); ("start", "0x0"); ("size", "0x1000")] [].

(** ** Keyed collections *)

(** The collection a pass builds when its filter files each element under a
    key and a later element replaces an earlier one with the same key;
    elements without a key are passed over. *)
Definition keyed_fold {K : Type} `{EqKey K} (key : Element -> option K)
    (elems : list Element) (m : dict K Element) : dict K Element :=
  fold_left
    (fun m elem =>
       match key elem with
       | Some k => dict_set k elem m
       | None => m
       end)
    elems m.

(** The filter files under [key]: whatever it returns or raises, this is what
    it does to the collection. *)
Definition files_under {K : Type} `{EqKey K} (key : Element -> option K)
    (filter : Filter K Element) : Prop :=
  forall m elem self,
    snd (fst (filter m elem self))
    = match key elem with
      | Some k => dict_set k elem m
      | None => m
      end.

(** The last element of [elems] that has the key [k]. *)
Definition last_filed {K : Type} `{EqKey K} (key : Element -> option K) (k : K)
    (elems : list Element) : option Element :=
  find (fun e => match key e with
                 | Some k' => keqb k k'
                 | None => false
                 end)
    (rev elems).

(** A collection, as the list the pass returns, holds for every key the last
    element filed under it and nothing else. *)
Definition last_wins {K : Type} `{EqKey K} (key : Element -> option K)
    (elems values : list Element) : Prop :=
  NoDup (map key values)
  /\ (forall v, In v values ->
        exists k, key v = Some k /\ last_filed key k elems = Some v)
  /\ (forall e k, In e elems -> key e = Some k ->
        exists v, In v values /\ key v = Some k).

(** The range an algorithm element is filed under, when the filter keeps it. *)
Definition algo_key (elem : Element) : option (Z * Z) :=
  if keil_style elem then
    match int_attrib elem "start", int_attrib elem "size" with
    | Ok start, Ok size => Some (start, size)
    | _, _ => None
    end
  else None.

(** Debug ports and access ports are filed under the attribute as written. *)
Definition debugport_key (elem : Element) : option string := dict_get "__dp" (attrib elem).
Definition accessport_key (elem : Element) : option string :=
  dict_get "__apid" (attrib elem).

(** ** Memory map vocabulary *)

(** A RAM region marked default. *)
Definition default_ram_candidate (region : MemoryRegion) : bool :=
  MemoryType_eqb (region_type region) RAM && is_default region.

(** Regions that follow one another without a gap: the first starts at
    [first], each next one starts right after the one before ends, none is
    empty, and the last one ends at [last]. *)
Fixpoint tiles (first last : Z) (regions : list MemoryRegion) : Prop :=
  match regions with
  | [] => first = last + 1
  | r :: rest =>
      region_start r = first /\ first <= region_end r
      /\ tiles (region_end r + 1) last rest
  end.

Fixpoint increasing_below (bound prev : Z) (offsets : list Z) : Prop :=
  match offsets with
  | [] => prev < bound
  | o :: rest => prev < o /\ increasing_below bound o rest
  end.

(** A sector table that fits a region of [length] bytes: its first offset is
    0 and its offsets increase strictly and stay below the length. *)
Definition table_fits (length : Z) (table : list (Z * Z)) : Prop :=
  match map fst table with
  | [] => False
  | first :: rest => first = 0 /\ increasing_below length first rest
  end.

(** The flash region made for the table entry [(offset, sector)], but for its
    range and boot flag. *)
Definition flash_of_sector (region : MemoryRegion) (page : Z) (image : FlashAlgoImage)
    (pack_algo : PackFlashAlgo) (sector : Z) (f : MemoryRegion) : Prop :=
  flash_attrs f
  = Some (mkFlashAttrs sector (Z.min page sector) pack_algo image (value_empty pack_algo))
  /\ region_type f = FLASH
  /\ region_access f = region_access region
  /\ is_default f = is_default region
  /\ is_testable f = is_testable region
  /\ region_alias f = region_alias region
  /\ region_name f
     = if 1 <? Z.of_nat (List.length (sector_sizes pack_algo))
       then (region_name region ++ format_sector_suffix sector)%string
       else region_name region.

(** An algorithm whose decoded page size is a phrase size. *)
Definition example_flm_small_page : PackFlashAlgo :=
  mkPackFlashAlgo 16 [(0, 0x1000); (0x10000, 0x2000)] 0xFF.

(** ** Memory merge vocabulary *)

(** The key a memory element is filed under, when its range can be read. *)
Definition element_key (elem : Element) : option MemKey :=
  match int_attrib elem "start", int_attrib elem "size" with
  | Ok start, Ok size => Some (memory_key elem start size)
  | _, _ => None
  end.

(** The merge's overlap test of a later element against an earlier one. *)
Definition overlaps_entry (earlier later : Element) : bool :=
  match int_attrib later "start", int_attrib later "size" with
  | Ok start, Ok size => overlaps_new start size earlier
  | _, _ => false
  end.

(** No element of the list overlaps, by the merge's test, one before it. *)
Definition merged_apart (values : list Element) : Prop :=
  ForallOrdPairs (fun earlier later => overlaps_entry earlier later = false) values.

(** The invariant of the memory collection: unique keys, every entry filed
    under its own key, and entries apart in insertion order. *)
Definition memory_map_apart (m : dict MemKey Element) : Prop :=
  dict_wf m
  /\ Forall (fun kv => element_key (snd kv) = Some (fst kv)) m
  /\ merged_apart (dict_values m).

(** A memory that encloses an earlier, smaller one. *)
Definition memory_inner : Element :=
  mkElement "memory" [("name", "IROM_A"); ("access", "rx");
                      ("start", "0x800"); ("size", "0x100")] [].

Definition memory_enclosing : Element :=
  mkElement "memory" [("name", "IROM_B"); ("access", "rx");
                      ("start", "0x0"); ("size", "0x2000")] [].

(** ** Flash synthesis vocabulary *)

(** A region the flash synthesis passes over: it is not a ROM, or no
    algorithm contains it. *)
Definition passed_over (dev : CmsisPackDevice) (region : MemoryRegion) : Prop :=
  region_type region <> ROM \/ _find_matching_algo dev region = Raise KeyError.

(** A matched algorithm element the synthesis cannot use, and the error it
    raises: the element has no [name]; or the decoder fails otherwise than by
    a missing file; or the [RAMstart] of a decodable algorithm is not a
    number. *)
Definition unusable_algorithm (algo_element : Element) (e : exn) : Prop :=
  (dict_get "name" (attrib algo_element) = None /\ e = KeyError)
  \/ (exists name,
        dict_get "name" (attrib algo_element) = Some name
        /\ open_flash_algo name = Raise e /\ e <> FileNotFoundError)
  \/ (exists name packAlgo page raw,
        dict_get "name" (attrib algo_element) = Some name
        /\ open_flash_algo name = Ok packAlgo
        /\ choose_page_size packAlgo = Ok page
        /\ dict_get "RAMstart" (attrib algo_element) = Some raw
        /\ int0 raw = None /\ e = ValueError).

(** A device whose only algorithm has no [name]. *)
Definition algorithm_unnamed : Element :=
  mkElement "algorithm" [("start", "0x00000000"); ("size", "0x20000")] [].

Definition device_unnamed_algorithm : CmsisPackDevice :=
  mkCmsisPackDevice
    (mk_DeviceInfo
       (mkElement "device" [("Dname", "DevK")]
          [cortex_m4; memory_ram_default; memory_rom; algorithm_unnamed])
       ["Vendor:1"; "Example"] [cortex_m4] [memory_ram_default; memory_rom]
       [algorithm_unnamed] [] [] [])
    "DevK".

(** ** Walk vocabulary *)

(** The device and variant elements the walk of [parent] comes to, in
    document order: [parent] itself when it is one, then those of each child
    the walk recurses into. *)
Fixpoint device_elements (parent : Element) : list Element :=
  match parent with
  | mkElement parent_tag _ elems =>
      (if str_in parent_tag ["device"; "variant"] then [parent] else [])
      ++ (fix each (l : list Element) : list Element :=
            match l with
            | [] => []
            | elem :: rest =>
                (if recursed_into elem then device_elements elem else []) ++ each rest
            end) elems
  end.

(** The device was made from its element: it carries the element's part
    number. *)
Definition made_from_element (dev : CmsisPackDevice) : Prop :=
  _get_part_number_from_element (element (_info dev)) = Ok (_part dev).

(** From [before] to [after] the description got one device for each of
    [elems], in that order and after the devices it had, and its state stack
    and pack are as they were. *)
Definition walked (before after : CmsisPackDescription) (elems : list Element) : Prop :=
  _state_stack after = _state_stack before
  /\ _pack after = _pack before
  /\ exists devs,
       _devices after = _devices before ++ devs
       /\ map (fun dev => element (_info dev)) devs = elems
       /\ Forall made_from_element devs.

(** A family with a device, and a sub-family with a device that has two
    variants. *)
Definition pdsc_nested : Element :=
  pdsc_of
    [cortex_m4;
     mkElement "device" [("Dname", "DevL")] [];
     mkElement "subFamily" [("DsubFamily", "Sub")]
       [mkElement "device" [("Dname", "DevM")]
          [mkElement "variant" [("Dvariant", "DevM1")] [];
           mkElement "variant" [("Dvariant", "DevM2")] []]]].

(** ** Debug merge vocabulary *)

(** A per-processor debug element whose key is not the sentinel. *)
Definition keyed_debug (elem : Element) : Prop :=
  per_processor elem = true /\ debug_key elem <> "*".

(** The collection that per-processor entries build: for every key the last
    element filed under it. *)
Definition debug_entries (elems : list Element) : dict string Element :=
  keyed_fold (fun elem => Some (debug_key elem)) elems [].

(** ** Debug topology vocabulary *)

(** The debug-port indices the [<debugport>] elements of a device give, in
    their order; an element whose [__dp] is missing or not a number gives
    none. *)
Definition readable_dps (dev : CmsisPackDevice) : list Z :=
  flat_map
    (fun debugport =>
       match _get_int_attribute debugport "__dp" None with
       | Ok dp => [dp]
       | Raise _ => []
       end)
    (debugports (_info dev)).

(** The [apid_map] property. *)
Definition apid_map (dev : CmsisPackDevice) (self : TopologyState)
    : result (dict Z APAddressBase) * TopologyState :=
  if negb (_built_apid_map self) then
    match _build_aps_map dev self with
    | (Ok _, self1) => (Ok (_apids self1), self1)
    | (Raise e, self1) => (Raise e, self1)
    end
  else (Ok (_apids self), self).

(** The [uses_apid] property. *)
Definition uses_apid (dev : CmsisPackDevice) (self : TopologyState)
    : result bool * TopologyState :=
  match apid_map dev self with
  | (Ok apids, self1) => (Ok (0 <? Z.of_nat (List.length apids)), self1)
  | (Raise e, self1) => (Raise e, self1)
  end.

(** What an access-port element contributes to the map of access-port ids:
    the number its [__apid] denotes and the address it describes, provided
    [__dp] (0 when absent), [index] or [address], and [__apid] can all be
    read. *)
Definition accessport_entry (accessport : Element) : option (Z * APAddressBase) :=
  match _get_int_attribute accessport "__dp" (Some 0) with
  | Raise _ => None
  | Ok ap_dp =>
      let address_of : option APAddressBase :=
        if String.eqb (tag accessport) "accessportV1" then
          match _get_int_attribute accessport "index" None with
          | Ok index => Some (APv1Address index ap_dp)
          | Raise _ => None
          end
        else if String.eqb (tag accessport) "accessportV2" then
          match _get_int_attribute accessport "address" None with
          | Ok address => Some (APv2Address address ap_dp)
          | Raise _ => None
          end
        else None in
      match address_of with
      | None => None
      | Some ap_address_ =>
          match _get_int_attribute accessport "__apid" None with
          | Ok apid => Some (apid, ap_address_)
          | Raise _ => None
          end
      end
  end.

(** The element is an access port of one of the two versions. *)
Definition is_accessport (elem : Element) : bool :=
  str_in (tag elem) ["accessportV1"; "accessportV2"].

(** The last element of [elems] that contributes the id [apid]. *)
Definition last_accessport (apid : Z) (elems : list Element) : option Element :=
  find (fun elem => match accessport_entry elem with
                    | Some (k, _) => k =? apid
                    | None => false
                    end)
    (rev elems).

(** The access-port ids and the built flag are as they were. *)
Definition apids_kept (before after : TopologyState) : Prop :=
  _apids after = _apids before /\ _built_apid_map after = _built_apid_map before.

(** Two access ports whose ids are written differently and denote the same
    number. *)
Definition accessport_decimal : Element :=
  mkElement "accessportV1" [("__apid", "1"); ("index", "0")] [].

Definition accessport_hex : Element :=
  mkElement "accessportV2" [("__apid", "0x1"); ("address", "0x2000")] [].

Definition element_two_accessports : Element :=
  mkElement "device" [("Dname", "DevN")] [cortex_m4; accessport_decimal; accessport_hex].

Definition device_two_accessports : CmsisPackDevice :=
  mkCmsisPackDevice
    (mk_DeviceInfo element_two_accessports ["Vendor:1"; "Example"] [cortex_m4] [] [] [] []
       [accessport_decimal; accessport_hex])
    "DevN".

(** What a processor element contributes: its name ([Pname], else [Dcore])
    and its number of units (1 when [Punits] is absent), provided it has a
    name and its [Punits] can be read. *)
Definition processor_entry (proc : Element) : option (string * Z) :=
  match match dict_get "Pname" (attrib proc) with
        | Some pname => Some pname
        | None => dict_get "Dcore" (attrib proc)
        end with
  | None => None
  | Some pname =>
      match _get_int_attribute proc "Punits" (Some 1) with
      | Ok punits => Some (pname, punits)
      | Raise _ => None
      end
  end.

Definition processor_entries (procs : list Element) : list (string * Z) :=
  flat_map (fun proc => match processor_entry proc with
                        | Some entry => [entry]
                        | None => []
                        end) procs.

(** The processor map after one more processor element. *)
Definition add_processor (proc : Element) (m : dict string ProcessorInfo)
    : dict string ProcessorInfo :=
  match processor_entry proc with
  | Some (pname, punits) =>
      if dict_mem pname m then m else dict_set pname (new_ProcessorInfo pname punits) m
  | None => m
  end.

(** Every processor is filed under its own name. *)
Definition named_processors (m : dict string ProcessorInfo) : Prop :=
  Forall (fun kv => proc_name (snd kv) = fst kv) m.

(** ** Sorted elements *)

Definition all_tagged (tags : list string) (elems : list Element) : Prop :=
  Forall (fun elem => str_in (tag elem) tags = true) elems.

(** Every list of a device info holds elements of its own kind only. *)
Definition well_sorted (info : _DeviceInfo) : Prop :=
  all_tagged ["processor"] (processors info)
  /\ all_tagged ["memory"] (memories info)
  /\ all_tagged ["algorithm"] (algos info)
  /\ all_tagged ["debug"] (debugs info)
  /\ all_tagged ["debugport"] (debugports info)
  /\ all_tagged ["accessportV1"; "accessportV2"] (accessports info).

Definition sorted_description (self : CmsisPackDescription) : Prop :=
  Forall well_sorted (_state_stack self)
  /\ Forall (fun dev => well_sorted (_info dev)) (_devices self).

(** Whatever the filter does, it files elements of the kind it is given. *)
Definition files_tagged (tags : list string) {K : Type} (filter : Filter K Element)
    : Prop :=
  forall m elem self,
    all_tagged tags (dict_values m) ->
    str_in (tag elem) tags = true ->
    all_tagged tags (dict_values (snd (fst (filter m elem self)))).

(** A debug element whose [address] is not a number, for a device with one
    processor. *)
Definition debug_bad_address : Element :=
  mkElement "debug" [("__ap", "2"); ("Punit", "3"); ("address", "none")] [].

Definition device_bad_address : CmsisPackDevice :=
  mkCmsisPackDevice
    (mk_DeviceInfo (mkElement "device" [("Dname", "DevP")] [cortex_m4; debug_bad_address])
       ["Vendor:1"; "Example"] [cortex_m4] [] [] [debug_bad_address] [] [])
    "DevP".

(** ** Processor merge vocabulary *)

(** The element is filed under the processor name [pname]. *)
Definition same_processor (pname : option string) (elem : Element) : bool :=
  keqb (dict_get "Pname" (attrib elem)) pname.

(** The value of the attribute [k] in the first of [elems] that has it. *)
Definition outermost_attribute (k : string) (elems : list Element) : option string :=
  match find (has_attr k) elems with
  | Some elem => dict_get k (attrib elem)
  | None => None
  end.

(** The resolved processor [r] of the elements [elems] of one processor
    name, outermost first: every attribute has the value of the outermost
    element that gives it, and the tag and children are those of the
    innermost element. *)
Definition merged_processor (elems : list Element) (r : Element) : Prop :=
  (forall k, dict_get k (attrib r) = outermost_attribute k elems)
  /\ exists outer inner,
       elems = outer ++ [inner] /\ tag r = tag inner /\ children r = children inner.

Definition processors_merged (elems : list Element) (m : dict (option string) Element)
    : Prop :=
  forall pname,
    match dict_get pname m with
    | Some r => dict_wf (attrib r) /\ merged_processor (filter (same_processor pname) elems) r
    | None => filter (same_processor pname) elems = []
    end.

(** The state stack at a device below a family, each with a processor
    element. *)
Definition element_device_inheritance : Element :=
  mkElement "device" [("Dname", "DevA")] [device_processor].

Definition element_family_inheritance : Element :=
  mkElement "family" [("Dfamily", "Example"); ("Dvendor", "Vendor:1")]
    [family_processor; element_device_inheritance].

Definition description_inheritance : CmsisPackDescription :=
  mkDescription None
    [new_state element_family_inheritance; new_state element_device_inheritance]
    [] false [].

(** A device whose only access port has no [index]. *)
Definition accessport_no_index : Element :=
  mkElement "accessportV1" [("__apid", "1")] [].

Definition device_unreadable_accessport : CmsisPackDevice :=
  mkCmsisPackDevice
    (mk_DeviceInfo
       (mkElement "device" [("Dname", "DevQ")] [cortex_m4; accessport_no_index])
       ["Vendor:1"; "Example"] [cortex_m4] [] [] [] [] [accessport_no_index])
    "DevQ".

(** A sector table whose second offset lies beyond the example region. *)
Definition example_flm_beyond : PackFlashAlgo :=
  mkPackFlashAlgo 0x400 [(0, 0x1000); (0x30000, 0x2000)] 0xFF.

(** ** Family names *)

(** The names an element on the state stack contributes to the family list
    of a device: vendor and family for a [family] element, the sub-family
    name for a [subFamily] element, nothing for any other element; [None]
    when an attribute it needs is missing. *)
Definition family_names (elem : Element) : option (list string) :=
  if String.eqb (tag elem) "family" then
    match dict_get "Dvendor" (attrib elem), dict_get "Dfamily" (attrib elem) with
    | Some vendor, Some family => Some [vendor; family]
    | _, _ => None
    end
  else if String.eqb (tag elem) "subFamily" then
    match dict_get "DsubFamily" (attrib elem) with
    | Some sub => Some [sub]
    | None => None
    end
  else Some [].

(** Some element on the state stack cannot give its names. *)
Definition nameless_family (self : CmsisPackDescription) : Prop :=
  Exists (fun state => family_names (element state) = None) (_state_stack self).

(** What a walk that would come to the devices [elems] does below an element
    that cannot give its names: it returns, having created nothing, when it comes to no device;
    it raises [KeyError] at the first device it comes to. *)
Definition aborts_at_first_device (self : CmsisPackDescription) (run : M unit)
    (elems : list Element) : Prop :=
  match elems with
  | [] =>
      exists self', run self = (Ok tt, self')
                    /\ _state_stack self' = _state_stack self
                    /\ _devices self' = _devices self
  | _ :: _ =>
      exists self', run self = (Raise KeyError, self')
                    /\ _devices self' = _devices self
  end.

(** A family without [Dvendor], with and without a device. *)
Definition family_without_vendor : Element :=
  mkElement "family" [("Dfamily", "Example")]
    [cortex_m4; mkElement "device" [("Dname", "DevR")] []].

Definition family_without_vendor_empty : Element :=
  mkElement "family" [("Dfamily", "Example")] [cortex_m4].

(** ** Vendor and families of a device *)

(** [s.split(':')[0]] *)
Fixpoint before_colon (s : string) : string :=
  match s with
  | EmptyString => EmptyString
  | String c rest =>
      if Ascii.eqb c ":" then EmptyString else String c (before_colon rest)
  end.

(** The [vendor] property. *)
Definition vendor (dev : CmsisPackDevice) : result string :=
  match families (_info dev) with
  | [] => Raise IndexError
  | first :: _ => Ok (before_colon first)
  end.

(** The [families] property: [self._info.families[1:]]. *)
Definition device_families (dev : CmsisPackDevice) : list string :=
  tl (families (_info dev)).

(** The walk of [parent] starts below a family element that satisfies [G],
    or at such an element. *)
Definition rooted (G : Element -> Prop) (parent : Element)
    (self : CmsisPackDescription) : Prop :=
  match _state_stack self with
  | [] => String.eqb (tag parent) "family" = true /\ G parent
  | state :: _ => String.eqb (tag (element state)) "family" = true /\ G (element state)
  end.

(** The family list of the device starts with the vendor and the name of a
    family element that satisfies [G]. *)
Definition of_family (G : Element -> Prop) (dev : CmsisPackDevice) : Prop :=
  exists family vendor_ name subs,
    G family
    /\ dict_get "Dvendor" (attrib family) = Some vendor_
    /\ dict_get "Dfamily" (attrib family) = Some name
    /\ families (_info dev) = vendor_ :: name :: subs.

(** The flash regions split from [region] with the algorithm image built
    for the RAM [ram], the split starting in state [s]. *)
Definition flashes_with_ram (region : MemoryRegion) (page : Z) (packAlgo : PackFlashAlgo)
    (ram : RamForAlgo) (s : MemoryMapState) : list MemoryRegion :=
  fst (_split_flash_region_by_sector_size region page
         (get_pyocd_flash_algo packAlgo page ram) packAlgo s).

(** A flash region whose algorithm image is built for the RAM [ram]. *)
Definition uses_ram (ram : RamForAlgo) (f : MemoryRegion) : Prop :=
  region_type f = FLASH
  /\ option_map (fun fa => image_ram (algo fa)) (flash_attrs f) = Some ram.

(** A pack opened from an expanded directory, and the description of the
    overlapping device in it. *)
Definition directory_pack : CmsisPack := mkCmsisPack true None.

Definition description_overlap_directory : CmsisPackDescription :=
  mkDescription (Some directory_pack) [state_overlap] [] false [].

(** A pack opened from a zip file. *)
Definition zip_pack : CmsisPack := mkCmsisPack false (Some "Vendor.Example.1.0.0.pack").

(** The overlapping memories under a device without a part number. *)
Definition device_overlap_nameless : Element :=
  mkElement "device" [] [memory_low; memory_overlapping].

Definition state_overlap_nameless : _DeviceInfo :=
  mk_DeviceInfo device_overlap_nameless [] [] [memory_low; memory_overlapping] [] [] [] [].

Definition description_overlap_nameless : CmsisPackDescription :=
  mkDescription None [state_overlap_nameless] [] false [].

(** A debug port and an access port whose index is not a number. *)
Definition debugport_not_a_number : Element :=
  mkElement "debugport" [("__dp", "first")] [].

Definition accessport_not_a_number : Element :=
  mkElement "accessportV1" [("__apid", "main"); ("index", "0")] [].

(** Names the file-name expression of the overlap warning. *)
Ltac name_warning_filename :=
  match goal with
  | |- context [match _pack ?s with
                | Some pack => filename pack
                | None => Ok (Some ?u)
                end] =>
      change (match _pack s with
              | Some pack => filename pack
              | None => Ok (Some u)
              end) with (warning_filename s)
  end.

(** * Properties *)

(** ** Dictionaries *)

#[export] Instance EqKeyOk_string : EqKeyOk string := String.eqb_eq.
#[export] Instance EqKeyOk_Z : EqKeyOk Z := Z.eqb_eq.

Lemma dict_values_set_in (K V : Type) `{EqKey K} (k : K) (v : V) (d : dict K V) :
  In v (dict_values (dict_set k v d)).
Proof.
  induction d as [|[k' v'] d IH]; cbn.
  - now left.
  - destruct (keqb k k'); cbn; auto.
Qed.

Lemma dict_values_set_Forall (K V : Type) `{EqKey K} (P : V -> Prop) (k : K) (v : V)
    (d : dict K V) :
  P v -> Forall P (dict_values d) -> Forall P (dict_values (dict_set k v d)).
Proof.
  intros Hv. induction d as [|[k' v'] d IH]; cbn; intros Hd.
  - constructor; auto.
  - inversion Hd; subst. destruct (keqb k k'); cbn; constructor; auto.
Qed.

(** ** Debug entries *)

Lemma debugs_filter_step (m : dict string Element) (elem : Element)
    (self : CmsisPackDescription) :
  homogeneous m ->
  exists m', debugs_filter m elem self = (Ok tt, m', self)
             /\ homogeneous m' /\ reflects elem m'.
Proof.
  intros Hm. unfold debugs_filter, reflects, homogeneous, per_processor, has_attr, dict_mem.
  destruct (dict_get "Pname" (attrib elem)) as [pname|] eqn:Hp.
  - eexists; split; [reflexivity|].
    assert (Hall : Forall (fun e => per_processor e = true)
                     (dict_values (if match dict_get "*" m with
                                      | Some _ => true | None => false end
                                   then [] else m))).
    { destruct (dict_get "*" m) eqn:Hstar; [constructor|].
      destruct Hm as [(g & -> & _)|Hm]; [discriminate Hstar|exact Hm]. }
    assert (He : per_processor elem = true)
      by (unfold per_processor, has_attr, dict_mem; now rewrite Hp).
    split; [right|split].
    + apply dict_values_set_Forall; assumption.
    + apply dict_values_set_Forall; assumption.
    + apply dict_values_set_in.
  - eexists; split; [reflexivity|]. cbn. split; [|reflexivity].
    left. exists elem. split; [reflexivity|].
    unfold per_processor, has_attr, dict_mem. now rewrite Hp.
Qed.

Lemma debugs_loop_spec (elems : list Element) :
  forall (m : dict string Element) (self : CmsisPackDescription),
    homogeneous m ->
    exists m', extract_loop debugs_filter elems m self = (Ok m', self)
               /\ homogeneous m'
               /\ (forall pre last, elems = pre ++ [last] -> reflects last m').
Proof.
  induction elems as [|elem rest IH]; intros m self Hm.
  - exists m. split; [reflexivity|]. split; [assumption|].
    intros [|? ?] last E; discriminate E.
  - destruct (debugs_filter_step elem self Hm) as (m1 & Hstep & Hm1 & Hlast).
    destruct (IH m1 self Hm1) as (m' & Hloop & Hm' & Hrest).
    exists m'. cbn [extract_loop]. rewrite Hstep. split; [exact Hloop|].
    split; [exact Hm'|].
    intros pre last E. destruct rest as [|r rest'].
    + cbn in Hloop. inversion Hloop; subst m'.
      destruct pre as [|p [|? ?]]; cbn in E; inversion E; subst; assumption.
    + destruct pre as [|p pre']; cbn in E.
      * discriminate E.
      * inversion E; subst. eapply Hrest; eassumption.
Qed.

(** C3. Folding any sequence of debug elements through the debug-entry merge
    never fails and leaves a homogeneous collection: one global entry under
    the sentinel key, or per-processor entries only; it has the scope of the
    element processed last; and [processor-specific A, global,
    processor-specific B] leaves exactly the entry of B, under B's key. *)
Theorem debug_merge_homogeneous (elems : list Element) (self : CmsisPackDescription) :
  exists m,
    extract_loop debugs_filter elems [] self = (Ok m, self)
    /\ homogeneous m
    /\ (forall pre last, elems = pre ++ [last] -> reflects last m)
    /\ (forall A G B,
           elems = [A; G; B] ->
           per_processor A = true -> per_processor G = false ->
           per_processor B = true ->
           m = [(debug_key B, B)]).
Proof.
  assert (H0 : homogeneous []) by (right; constructor).
  destruct (debugs_loop_spec elems self H0) as (m & Hloop & Hm & Hlast).
  exists m. repeat split; try assumption.
  intros A G B -> HA HG HB. cbn in Hloop.
  unfold debugs_filter, per_processor, has_attr, dict_mem, debug_key in *.
  destruct (dict_get "Pname" (attrib A)); [|discriminate HA].
  destruct (dict_get "Pname" (attrib G)); [discriminate HG|].
  destruct (dict_get "Pname" (attrib B)); [|discriminate HB].
  cbn in Hloop. inversion Hloop; reflexivity.
Qed.

(** ** Flash split *)

Lemma split_from_ranges (region : MemoryRegion) (page : Z) (image : FlashAlgoImage)
    (pack_algo : PackFlashAlgo) (sectors : list (Z * Z)) :
  forall self,
    map flash_range (fst (split_from region page image pack_algo sectors self))
    = filter well_formed_range
        (sub_ranges (region_start region) (region_end region) sectors).
Proof.
  induction sectors as [|[offset size] rest IH]; intros self; [reflexivity|].
  cbn [split_from sub_ranges filter well_formed_range].
  set (e := match rest with
            | [] => region_end region
            | (next_offset, _) :: _ => region_start region + next_offset - 1
            end).
  destruct (Z.ltb_spec e (region_start region + offset)) as [Hlt|Hge].
  - replace (region_start region + offset <=? e) with false
      by (symmetry; apply Z.leb_gt; lia).
    apply IH.
  - replace (region_start region + offset <=? e) with true
      by (symmetry; apply Z.leb_le; lia).
    destruct (page >? size); destruct (negb _);
      match goal with
      | |- context [split_from region page image pack_algo rest ?s] =>
          specialize (IH s);
          destruct (split_from region page image pack_algo rest s) as [more s3]
      end;
      cbn [fst map]; rewrite <- IH; f_equal;
      unfold flash_range, FlashRegion, region_end; cbn; f_equal; f_equal; lia.
Qed.

(** C9. Splitting a matched ROM region by the decoded sector table yields, in
    table order, one flash region per sub-range of the table: sub-range [j]
    spans from the region's start plus offset [j] to one below the start of
    sub-range [j+1], the last one ends at the region's end, and a sub-range
    whose end is below its start is dropped. The table [(0,0x1000),
    (0x10000,0x2000)] on the region [0,0x1FFFF] gives [0,0xFFFF] with sector
    size 0x1000 and [0x10000,0x1FFFF] with sector size 0x2000. *)
Theorem split_by_sector_table (region : MemoryRegion) (page : Z) (image : FlashAlgoImage)
    (pack_algo : PackFlashAlgo) (self : MemoryMapState) :
  let flashes := fst (_split_flash_region_by_sector_size region page image pack_algo self) in
  map flash_range flashes
  = filter well_formed_range
      (sub_ranges (region_start region) (region_end region) (sector_sizes pack_algo))
  /\ Forall (fun f => region_type f = FLASH) flashes
  /\ map flash_range
       (fst (_split_flash_region_by_sector_size example_rom page image example_flm self))
     = [(0, 0xFFFF, 0x1000); (0x10000, 0x1FFFF, 0x2000)].
Proof.
  cbv zeta. split; [apply split_from_ranges|]. split.
  - unfold _split_flash_region_by_sector_size.
    generalize (sector_sizes pack_algo). intros sectors. revert self.
    induction sectors as [|[offset size] rest IH]; intros self; cbn [split_from fst].
    + constructor.
    + destruct (_ <? _); [apply IH|].
      destruct (page >? size); destruct (negb _);
        match goal with
        | |- context [split_from region page image pack_algo rest ?s] =>
            specialize (IH s);
            destruct (split_from region page image pack_algo rest s) as [more s3]
        end; cbn [fst] in *; constructor; auto.
  - unfold _split_flash_region_by_sector_size. rewrite split_from_ranges. reflexivity.
Qed.

(** ** Memory regions *)

Lemma build_memory_region_adds_at_most_one (part : string) (elem : Element)
    (self : MemoryMapState) :
  (List.length (_regions (build_memory_region part elem self))
   <= List.length (_regions self)
      + (if named_without_access elem then 0 else 1))%nat.
Proof.
  unfold build_memory_region, region_name_access_type, named_without_access,
    has_attr, dict_mem.
  destruct (dict_get "name" (attrib elem)) as [name|];
    [destruct (dict_get "access" (attrib elem)) as [access|]|
     destruct (dict_get "id" (attrib elem)) as [name|]];
    cbn [negb andb]; try (cbn; lia);
    try destruct (str_contains "RAM" name);
    destruct (int_attrib elem "start"); try (cbn; lia);
    destruct (int_attrib elem "size"); try (cbn; lia);
    destruct (_get_bool_attribute elem "startup" false);
    cbn [_default_ram set_regions set_saw_startup _regions];
    destruct (_default_ram self);
    try match goal with |- context [if ?c then _ else _] => destruct c end;
    cbn; rewrite ?length_app; cbn; lia.
Qed.

(** C10. A memory element with a [name] attribute and no [access] attribute
    is skipped whole by the region builder, whatever its start and size: the
    [KeyError] is caught and logged and nothing else changes. So a named
    element adds a region only if it carries an access string, and the
    regions built are at most as many as the other elements. *)
Theorem named_memory_without_access_skipped (part : string) (elem : Element)
    (self : MemoryMapState) :
  has_attr "name" elem = true ->
  (has_attr "access" elem = false ->
   build_memory_region part elem self
   = dlog DEBUG (IgnoringMemoryError part KeyError) self)
  /\ (_regions (build_memory_region part elem self) <> _regions self ->
      has_attr "access" elem = true)
  /\ (forall dev : CmsisPackDevice,
         (List.length (_regions (_build_memory_regions dev self))
          <= List.length (_regions self)
             + List.length
                 (filter (fun e => negb (named_without_access e))
                    (memories (_info dev))))%nat).
Proof.
  intros Hname.
  assert (Hskip : has_attr "access" elem = false ->
                  build_memory_region part elem self
                  = dlog DEBUG (IgnoringMemoryError part KeyError) self).
  { intros Hacc. unfold build_memory_region, region_name_access_type.
    unfold has_attr, dict_mem in Hname, Hacc.
    destruct (dict_get "name" (attrib elem)); [|discriminate Hname].
    destruct (dict_get "access" (attrib elem)); [discriminate Hacc|reflexivity]. }
  split; [exact Hskip|]. split.
  - intros Hchg. destruct (has_attr "access" elem) eqn:Hacc; [reflexivity|].
    exfalso. apply Hchg. now rewrite (Hskip eq_refl).
  - intros dev. unfold _build_memory_regions.
    generalize (memories (_info dev)) as elems. clear. intros elems. revert self.
    induction elems as [|e rest IH]; intros self; cbn [fold_left filter].
    + lia.
    + specialize (IH (build_memory_region (_part dev) e self)).
      pose proof (build_memory_region_adds_at_most_one (_part dev) e self) as Hone.
      destruct (named_without_access e); cbn [negb List.length] in *; lia.
Qed.

(** ** Algorithm matching *)

Lemma algos_filter_step (m : dict (Z * Z) Element) (elem : Element)
    (self : CmsisPackDescription) :
  Forall valid_range (dict_values m) ->
  exists r m' self',
    algos_filter m elem self = (r, m', self')
    /\ Forall valid_range (dict_values m')
    /\ match r with Ok _ => True | Raise e => caught_by_extract_items e = true end.
Proof.
  intros Hm. unfold algos_filter.
  destruct (match dict_get "style" (attrib elem) with
            | Some style => negb (String.eqb (str_lower style) "keil")
            | None => false
            end).
  - do 3 eexists; split; [reflexivity|]. split; [assumption|exact I].
  - destruct (int_attrib elem "start") as [start|e] eqn:Hs.
    + destruct (int_attrib elem "size") as [size|e] eqn:Hz.
      * do 3 eexists; split; [reflexivity|]. split; [|exact I].
        apply dict_values_set_Forall; [|assumption]. now exists start, size.
      * do 3 eexists; split; [reflexivity|]. split; [assumption|].
        unfold int_attrib in Hz. destruct (dict_get "size" (attrib elem)) as [raw|];
          [destruct (int0 raw)|]; inversion Hz; reflexivity.
    + do 3 eexists; split; [reflexivity|]. split; [assumption|].
      unfold int_attrib in Hs. destruct (dict_get "start" (attrib elem)) as [raw|];
        [destruct (int0 raw)|]; inversion Hs; reflexivity.
Qed.

Lemma algos_loop_valid (elems : list Element) :
  forall (m : dict (Z * Z) Element) (self : CmsisPackDescription),
    Forall valid_range (dict_values m) ->
    exists m' self',
      extract_loop algos_filter elems m self = (Ok m', self')
      /\ Forall valid_range (dict_values m').
Proof.
  induction elems as [|elem rest IH]; intros m self Hm; cbn [extract_loop].
  - now exists m, self.
  - destruct (algos_filter_step m elem self Hm) as (r & m1 & s1 & -> & Hm1 & Hr).
    destruct r as [[]|e]; [apply IH; assumption|].
    rewrite Hr. apply IH; assumption.
Qed.

Lemma resolved_algos_valid (l : list Element) :
  resolved_algos l -> Forall valid_range l.
Proof.
  intros (self & self' & Hx). unfold _extract_algos, _extract_items in Hx.
  destruct (algos_loop_valid (flat_map algos (_state_stack self)) [] self)
    as (m' & s' & Hloop & Hv); [constructor|].
  rewrite Hloop in Hx. inversion Hx; subst. exact Hv.
Qed.

Lemma find_matching_algo_in_spec (l : list Element) (region : MemoryRegion) :
  Forall valid_range l ->
  find_matching_algo_in l region
  = match find (fully_contains region) l with
    | Some algo => Ok algo
    | None => Raise KeyError
    end.
Proof.
  induction 1 as [|algo rest (start & size & Hs & Hz) _ IH]; cbn [find_matching_algo_in find].
  - reflexivity.
  - unfold fully_contains at 1. rewrite Hs, Hz. cbv zeta.
    destruct (_ && _); [reflexivity|exact IH].
Qed.

(** C8. On the algorithm list the walk resolved, algorithm matching for a
    region returns the first element, in list order, whose inclusive range
    [[start, start+size-1]] contains both the region's start and its end;
    when no element does, it raises [KeyError] and the conversion loop leaves
    the region as it is, a plain ROM. *)
Theorem first_containing_algo_match (dev : CmsisPackDevice) (region : MemoryRegion) :
  resolved_algos (algos (_info dev)) ->
  _find_matching_algo dev region
  = match find (fully_contains region) (algos (_info dev)) with
    | Some algo => Ok algo
    | None => Raise KeyError
    end
  /\ (find (fully_contains region) (algos (_info dev)) = None ->
      forall default_ram acc self,
        convert_rom_region dev default_ram region acc self = (Ok acc, self)).
Proof.
  intros Hres. apply resolved_algos_valid in Hres.
  pose proof (find_matching_algo_in_spec region Hres) as Hfind.
  split; [exact Hfind|].
  intros Hnone default_ram acc self. unfold convert_rom_region, _find_matching_algo.
  rewrite Hfind, Hnone. now destruct (negb _).
Qed.

(** ** Flash synthesis and the default RAM *)

(** A ROM region whose matched algorithm names its RAM is converted with
    that RAM, whatever the default RAM is. *)
Lemma convert_rom_region_explicit_ram (dev : CmsisPackDevice) (self : MemoryMapState)
    (default_ram region : MemoryRegion) (acc : list MemoryRegion * list MemoryRegion)
    (algo_element : Element) (name : string) (packAlgo : PackFlashAlgo)
    (page start size : Z) :
  region_type region = ROM ->
  _find_matching_algo dev region = Ok algo_element ->
  dict_get "name" (attrib algo_element) = Some name ->
  open_flash_algo name = Ok packAlgo ->
  choose_page_size packAlgo = Ok page ->
  int_attrib algo_element "RAMstart" = Ok start ->
  explicit_ram_size algo_element self start = Ok size ->
  convert_rom_region dev default_ram region acc self
  = (Ok (fst acc ++ [region],
         snd acc
         ++ fst (_split_flash_region_by_sector_size region page
                   (get_pyocd_flash_algo packAlgo page (mkRamForAlgo start size))
                   packAlgo self)),
     snd (_split_flash_region_by_sector_size region page
            (get_pyocd_flash_algo packAlgo page (mkRamForAlgo start size))
            packAlgo self)).
Proof.
  intros Hrom Hfind Hname Hopen Hpage Hstart Hsize.
  unfold convert_rom_region, _load_flash_algo.
  rewrite Hrom, Hfind, Hname, Hopen, Hpage. cbn [MemoryType_eqb negb].
  assert (Hram : select_ram_for_algo algo_element default_ram self
                 = Ok (mkRamForAlgo start size)).
  { unfold select_ram_for_algo, explicit_ram_size, int_attrib,
      _get_containing_region in *.
    destruct (dict_get "RAMstart" (attrib algo_element)) as [raw|]; [|discriminate].
    destruct (int0 raw); inversion Hstart; subst.
    destruct (dict_get "RAMsize" (attrib algo_element)) as [raw'|].
    - destruct (int0 raw'); inversion Hsize; reflexivity.
    - destruct (find _ _); inversion Hsize; reflexivity. }
  rewrite Hram.
  destruct (_split_flash_region_by_sector_size _ _ _ _ _); reflexivity.
Qed.

(** ** The boot-memory flag *)

Lemma count_boot_app (l1 l2 : list MemoryRegion) :
  count_boot (l1 ++ l2) = (count_boot l1 + count_boot l2)%nat.
Proof. unfold count_boot. now rewrite filter_app, length_app. Qed.

Lemma count_boot_none (l : list MemoryRegion) :
  existsb is_boot_memory l = false -> count_boot l = 0%nat.
Proof.
  unfold count_boot. induction l as [|r l IH]; cbn; [reflexivity|].
  destruct (is_boot_memory r); cbn; [discriminate|exact IH].
Qed.

Lemma build_memory_region_saw_startup (part : string) (elem : Element)
    (self : MemoryMapState) :
  _saw_startup self = existsb is_boot_memory (_regions self) ->
  _saw_startup (build_memory_region part elem self)
  = existsb is_boot_memory (_regions (build_memory_region part elem self)).
Proof.
  intros Hinv. unfold build_memory_region.
  destruct (region_name_access_type elem) as [[[[name access] type]|]|]; cbn; auto.
  destruct (int_attrib elem "start"); cbn; auto.
  destruct (int_attrib elem "size"); cbn; auto.
  destruct (_get_bool_attribute elem "startup" false);
    cbn [_default_ram set_regions set_saw_startup _regions _saw_startup];
    destruct (_default_ram self);
    try match goal with |- context [if ?c then _ else _] => destruct c end;
    cbn; rewrite existsb_app; cbn; rewrite ?orb_true_r, ?orb_false_r; auto.
Qed.

Lemma build_memory_regions_saw_startup (dev : CmsisPackDevice) :
  let built := _build_memory_regions dev new_memory_map_state in
  _saw_startup built = existsb is_boot_memory (_regions built).
Proof.
  cbv zeta. unfold _build_memory_regions.
  assert (H0 : _saw_startup new_memory_map_state
               = existsb is_boot_memory (_regions new_memory_map_state)) by reflexivity.
  revert H0. generalize new_memory_map_state as self.
  induction (memories (_info dev)) as [|elem rest IH]; intros self Hinv; cbn [fold_left].
  - exact Hinv.
  - apply IH. now apply build_memory_region_saw_startup.
Qed.

Lemma split_from_boot (region : MemoryRegion) (page : Z) (image : FlashAlgoImage)
    (pack_algo : PackFlashAlgo) (sectors : list (Z * Z)) :
  forall self,
    let flashes := fst (split_from region page image pack_algo sectors self) in
    let self' := snd (split_from region page image pack_algo sectors self) in
    _regions self' = _regions self
    /\ _default_ram self' = _default_ram self
    /\ (_saw_startup self = true ->
        _saw_startup self' = true
        /\ Forall (fun f => is_boot_memory f = is_boot_memory region) flashes)
    /\ (_saw_startup self = false -> is_boot_memory region = false ->
        match flashes with
        | [] => _saw_startup self' = false
        | first :: others =>
            _saw_startup self' = true /\ is_boot_memory first = true
            /\ Forall (fun f => is_boot_memory f = false) others
        end).
Proof.
  induction sectors as [|[offset size] rest IH]; intros self; cbv zeta.
  - cbn. repeat split; auto; discriminate.
  - cbn [split_from]. destruct (_ <? _); [apply IH|].
    destruct (_saw_startup self) eqn:Hsaw.
    + assert (Hs : forall s, _saw_startup s = true ->
                (if negb (_saw_startup s) then (true, set_saw_startup s)
                 else (is_boot_memory region, s)) = (is_boot_memory region, s))
        by (intros s ->; reflexivity).
      destruct (page >? size); rewrite Hs by (cbn; assumption);
        match goal with
        | |- context [split_from region page image pack_algo rest ?s] =>
            destruct (IH s) as (Hr & Hd & Ht & _);
            destruct (split_from region page image pack_algo rest s) as [more s3]
        end; cbn [fst snd] in *;
        (split; [exact Hr|]); (split; [exact Hd|]);
        (split; [|discriminate]); intros _;
        (destruct Ht as [Ht1 Ht2]; [cbn; assumption|]);
        (split; [exact Ht1|]); (constructor; [reflexivity|exact Ht2]).
    + assert (Hs : forall s, _saw_startup s = false ->
                (if negb (_saw_startup s) then (true, set_saw_startup s)
                 else (is_boot_memory region, s)) = (true, set_saw_startup s))
        by (intros s ->; reflexivity).
      destruct (page >? size); rewrite Hs by (cbn; assumption);
        match goal with
        | |- context [split_from region page image pack_algo rest ?s] =>
            destruct (IH s) as (Hr & Hd & Ht & _);
            destruct (split_from region page image pack_algo rest s) as [more s3]
        end; cbn [fst snd] in *;
        (split; [exact Hr|]); (split; [exact Hd|]);
        (split; [discriminate|]); intros _ Hnb;
        (destruct Ht as [Ht1 Ht2]; [reflexivity|]);
        (split; [exact Ht1|]); (split; [reflexivity|]);
        rewrite Hnb in Ht2; exact Ht2.
Qed.

Lemma count_boot_all_false (l : list MemoryRegion) :
  Forall (fun f => is_boot_memory f = false) l -> count_boot l = 0%nat.
Proof.
  unfold count_boot. induction 1 as [|r l Hr _ IH]; cbn; [reflexivity|].
  now rewrite Hr.
Qed.

(** The flash regions split from a region without the flag carry it at most
    once, and exactly when the split turned [_saw_startup] on. *)
Lemma split_count_boot (region : MemoryRegion) (page : Z) (image : FlashAlgoImage)
    (pack_algo : PackFlashAlgo) (self : MemoryMapState) :
  is_boot_memory region = false ->
  let sp := _split_flash_region_by_sector_size region page image pack_algo self in
  (count_boot (fst sp) + Nat.b2n (_saw_startup self) = Nat.b2n (_saw_startup (snd sp)))%nat
  /\ _regions (snd sp) = _regions self
  /\ _default_ram (snd sp) = _default_ram self.
Proof.
  intros Hnb. cbv zeta. unfold _split_flash_region_by_sector_size.
  destruct (split_from_boot region page image pack_algo (sector_sizes pack_algo) self)
    as (Hr & Hd & Ht & Hf).
  split; [|split; assumption].
  destruct (_saw_startup self) eqn:Hsaw.
  - destruct Ht as [Ht1 Ht2]; [reflexivity|]. rewrite Ht1.
    rewrite count_boot_all_false; [reflexivity|].
    rewrite Hnb in Ht2. exact Ht2.
  - specialize (Hf eq_refl Hnb).
    destruct (fst (split_from region page image pack_algo (sector_sizes pack_algo) self))
      as [|first others].
    + now rewrite Hf.
    + destruct Hf as (Hs & Hfirst & Hothers). rewrite Hs.
      change (first :: others) with ([first] ++ others).
      rewrite count_boot_app, (count_boot_all_false Hothers).
      unfold count_boot. cbn. now rewrite Hfirst.
Qed.

Lemma convert_rom_region_boot (dev : CmsisPackDevice) (default_ram region : MemoryRegion)
    (acc acc' : list MemoryRegion * list MemoryRegion) (self self' : MemoryMapState) :
  is_boot_memory region = false ->
  convert_rom_region dev default_ram region acc self = (Ok acc', self') ->
  (count_boot (snd acc') + Nat.b2n (_saw_startup self)
   = count_boot (snd acc) + Nat.b2n (_saw_startup self'))%nat
  /\ _regions self' = _regions self.
Proof.
  intros Hnb. unfold convert_rom_region.
  destruct (negb _); [intros E; inversion E; subst; auto|].
  destruct (_find_matching_algo dev region) as [algo_element|[]];
    try discriminate; [|intros E; inversion E; subst; auto].
  destruct (dict_get "name" (attrib algo_element)) as [name|]; [|discriminate].
  destruct (_load_flash_algo name) as [[packAlgo|]|]; try discriminate;
    [|intros E; inversion E; subst; auto].
  destruct (choose_page_size packAlgo) as [page|]; [|discriminate].
  destruct (select_ram_for_algo algo_element default_ram self) as [ram|]; [|discriminate].
  pose proof (split_count_boot region page (get_pyocd_flash_algo packAlgo page ram)
                packAlgo self Hnb) as Hsp. cbv zeta in Hsp.
  destruct (_split_flash_region_by_sector_size _ _ _ _ _) as [flashes self1].
  cbn [fst snd] in Hsp. destruct Hsp as (Hc & Hr & _).
  intros E; inversion E; subst. cbn [snd]. rewrite count_boot_app.
  split; [lia|exact Hr].
Qed.

Lemma convert_rom_regions_boot (dev : CmsisPackDevice) (default_ram : MemoryRegion)
    (regions : list MemoryRegion) :
  Forall (fun r => is_boot_memory r = false) regions ->
  forall acc acc' self self',
    convert_rom_regions dev default_ram regions acc self = (Ok acc', self') ->
    (count_boot (snd acc') + Nat.b2n (_saw_startup self)
     = count_boot (snd acc) + Nat.b2n (_saw_startup self'))%nat
    /\ _regions self' = _regions self.
Proof.
  induction 1 as [|region rest Hnb _ IH]; intros acc acc' self self'; cbn [convert_rom_regions].
  - intros E; inversion E; subst; auto.
  - destruct (convert_rom_region dev default_ram region acc self) as [[acc1|e] self1] eqn:Hstep;
      [|discriminate].
    intros Hrest. apply (convert_rom_region_boot _ _ _ _ _ Hnb) in Hstep.
    apply IH in Hrest. destruct Hstep as [H1 H2], Hrest as [H3 H4].
    split; [lia|congruence].
Qed.

Lemma list_remove_count_boot (region : MemoryRegion) (regions regions' : list MemoryRegion) :
  list_remove region regions = Ok regions' ->
  (count_boot regions' <= count_boot regions)%nat.
Proof.
  revert regions'. induction regions as [|r rest IH]; intros regions'; cbn [list_remove].
  - discriminate.
  - destruct (region_eq r region).
    + intros E; inversion E; subst. unfold count_boot. cbn.
      destruct (is_boot_memory r); cbn; lia.
    + destruct (list_remove region rest) as [rest'|]; [|discriminate].
      intros E; inversion E; subst. specialize (IH rest' eq_refl).
      unfold count_boot in *. cbn. destruct (is_boot_memory r); cbn; lia.
Qed.

Lemma remove_regions_count_boot (to_delete : list MemoryRegion) :
  forall self self',
    remove_regions to_delete self = (Ok tt, self') ->
    (count_boot (_regions self') <= count_boot (_regions self))%nat.
Proof.
  induction to_delete as [|region rest IH]; intros self self'; cbn [remove_regions].
  - intros E; inversion E; subst; lia.
  - destruct (list_remove region (_regions self)) as [regions'|] eqn:Hrm; [|discriminate].
    intros Hrest. apply IH in Hrest. apply list_remove_count_boot in Hrm.
    cbn [_regions set_regions] in Hrest. lia.
Qed.

(** C6, as the code has it. The region builder gives the boot-memory flag to
    every region made from an element marked startup, and [_saw_startup]
    records whether it made one. The flash split gives the flag to a region
    of its own accord only while [_saw_startup] is off, to the first region
    it yields, and turns it on; from then on a flash region has the flag of
    the ROM region it is split from. So when no region-producing memory
    element is marked startup, at most one region of the finished memory map
    carries the flag. *)
Theorem boot_flag_synthesized_at_most_once (dev : CmsisPackDevice) :
  let built := _build_memory_regions dev new_memory_map_state in
  _saw_startup built = existsb is_boot_memory (_regions built)
  /\ (forall region page image pack_algo self,
         let flashes :=
           fst (_split_flash_region_by_sector_size region page image pack_algo self) in
         (_saw_startup self = true ->
          Forall (fun f => is_boot_memory f = is_boot_memory region) flashes)
         /\ (_saw_startup self = false -> is_boot_memory region = false ->
             match flashes with
             | [] => True
             | first :: others =>
                 is_boot_memory first = true
                 /\ Forall (fun f => is_boot_memory f = false) others
             end))
  /\ (forall regions self,
         memory_map dev = (Ok regions, self) ->
         _saw_startup built = false ->
         (count_boot regions <= 1)%nat).
Proof.
  clear format_start_size.
  cbv zeta. split; [apply build_memory_regions_saw_startup|]. split.
  - intros region page image pack_algo self. unfold _split_flash_region_by_sector_size.
    destruct (split_from_boot region page image pack_algo (sector_sizes pack_algo) self)
      as (_ & _ & Ht & Hf).
    split; [intros Hs; apply Ht; exact Hs|].
    intros Hs Hnb. specialize (Hf Hs Hnb).
    destruct (fst (split_from _ _ _ _ _ _)); [exact I|]. tauto.
  - intros regions self Hmap Hsaw.
    pose proof (build_memory_regions_saw_startup dev) as Hinv. cbv zeta in Hinv.
    rewrite Hsaw in Hinv. symmetry in Hinv.
    pose proof (count_boot_none _ Hinv) as Hzero.
    assert (Hall : Forall (fun r => is_boot_memory r = false)
                     (_regions (_build_memory_regions dev new_memory_map_state))).
    { apply Forall_forall. intros r Hin.
      destruct (is_boot_memory r) eqn:Hb; [|reflexivity].
      assert (existsb is_boot_memory
                (_regions (_build_memory_regions dev new_memory_map_state)) = true)
        by (apply existsb_exists; eauto).
      congruence. }
    unfold memory_map, _build_flash_regions in Hmap.
    set (built := _build_memory_regions dev new_memory_map_state) in *.
    destruct (_default_ram built) as [default_ram|].
    + destruct (convert_rom_regions dev default_ram (_regions built) ([], []) built)
        as [[[to_delete to_add]|e] self1] eqn:Hconv; [|discriminate].
      apply (convert_rom_regions_boot _ _ Hall) in Hconv. destruct Hconv as [Hc Hr].
      destruct (remove_regions to_delete self1) as [[[]|e] self2] eqn:Hrm; [|discriminate].
      apply remove_regions_count_boot in Hrm. rewrite Hr, Hzero in Hrm.
      cbn [snd] in Hc. change (count_boot []) with 0%nat in Hc.
      assert (count_boot to_add <= 1)%nat
        by (destruct (_saw_startup self1), (_saw_startup built); cbn in Hc; lia).
      destruct (negb _); inversion Hmap; subst; cbn; rewrite count_boot_app; lia.
    + cbn in Hmap. rewrite Hsaw in Hmap. cbn in Hmap.
      inversion Hmap; subst. cbn. lia.
Qed.

(** ** Dictionary lookups *)

Section DictLookup.
Context {K V : Type} `{EqKeyOk K}.

Lemma keqb_refl (k : K) : keqb k k = true.
Proof. now apply keqb_spec. Qed.

Lemma keqb_neq (k k' : K) : k <> k' -> keqb k k' = false.
Proof.
  intros Hne. destruct (keqb k k') eqn:E; [|reflexivity].
  apply keqb_spec in E. contradiction.
Qed.

Lemma dict_get_set_same (k : K) (v : V) (d : dict K V) :
  dict_get k (dict_set k v d) = Some v.
Proof.
  induction d as [|[k' v'] d IH]; cbn.
  - now rewrite keqb_refl.
  - destruct (keqb k k') eqn:E; cbn; rewrite E; [reflexivity|exact IH].
Qed.

Lemma dict_get_set_other (k k' : K) (v : V) (d : dict K V) :
  k <> k' -> dict_get k (dict_set k' v d) = dict_get k d.
Proof.
  intros Hne. induction d as [|[k0 v0] d IH]; cbn.
  - now rewrite keqb_neq.
  - destruct (keqb k' k0) eqn:E; cbn.
    + apply keqb_spec in E. subst k0. now rewrite keqb_neq.
    + now rewrite IH.
Qed.

Lemma dict_keys_set_present (k : K) (v : V) (d : dict K V) :
  dict_mem k d = true -> dict_keys (dict_set k v d) = dict_keys d.
Proof.
  unfold dict_mem, dict_keys. induction d as [|[k' v'] d IH]; cbn; [discriminate|].
  destruct (keqb k k'); cbn; [reflexivity|]. intros Hm. now rewrite IH.
Qed.

Lemma dict_get_in_values (k : K) (v : V) (d : dict K V) :
  dict_get k d = Some v -> In v (dict_values d).
Proof.
  induction d as [|[k' v'] d IH]; cbn; [discriminate|].
  destruct (keqb k k'); [intros E; inversion E; now left|auto].
Qed.

Lemma dict_get_in_keys (k : K) (d : dict K V) :
  In k (dict_keys d) <-> exists v, dict_get k d = Some v.
Proof.
  induction d as [|[k' v'] d IH]; cbn.
  - split; [contradiction|intros [v E]; discriminate].
  - destruct (keqb k k') eqn:E.
    + apply keqb_spec in E. subst. split; eauto.
    + rewrite <- IH. split; [intros [->|Hin]; [|exact Hin]|auto].
      rewrite keqb_refl in E. discriminate.
Qed.
End DictLookup.

(** ** Debug topology *)

Lemma build_valid_dps_processors (dev : CmsisPackDevice) (self : TopologyState) :
  _processors_map (_build_valid_dps dev self) = _processors_map self.
Proof.
  unfold _build_valid_dps.
  assert (Hfold : forall l st,
             _processors_map
               (fold_left
                  (fun st debugport =>
                     match _get_int_attribute debugport "__dp" None with
                     | Ok dp => set_valid_dps (_valid_dps st ++ [dp]) st
                     | Raise _ => tlog (_part dev) st
                     end) l st) = _processors_map st).
  { induction l as [|e l IH]; intros st; cbn [fold_left]; [reflexivity|].
    rewrite IH. now destruct (_get_int_attribute e "__dp" None). }
  match goal with |- context [match _valid_dps ?s with _ => _ end] =>
    destruct (_valid_dps s) eqn:E end; cbn; apply Hfold.
Qed.

Lemma valid_dps_processors (dev : CmsisPackDevice) (self : TopologyState) :
  _processors_map (snd (valid_dps dev self)) = _processors_map self.
Proof.
  unfold valid_dps. destruct (_valid_dps self); cbn; [|reflexivity].
  apply build_valid_dps_processors.
Qed.

Lemma debug_ap_address_processors (dev : CmsisPackDevice) (debug : Element)
    (self : TopologyState) :
  _processors_map (snd (debug_ap_address dev debug self)) = _processors_map self.
Proof.
  unfold debug_ap_address.
  destruct (has_attr "__apid" debug).
  - destruct (_get_int_attribute debug "__apid" None); [|reflexivity].
    now destruct (dict_get _ _).
  - destruct (has_attr "__ap" debug); [|reflexivity].
    destruct (_get_int_attribute debug "__dp" (Some 0)); [|reflexivity].
    pose proof (valid_dps_processors dev self) as Hv.
    destruct (valid_dps dev self) as [dps self1]. cbn [snd] in Hv.
    destruct (negb _); [exact Hv|].
    now destruct (_get_int_attribute debug "__ap" None).
Qed.

Lemma update_processor_keys (dev : CmsisPackDevice) (debug : Element) (pname : string)
    (ap : APAddressBase) (self : TopologyState) :
  dict_keys (_processors_map (update_processor dev debug pname ap self))
  = dict_keys (_processors_map self)
  /\ forall name, name <> pname ->
       dict_get name (_processors_map (update_processor dev debug pname ap self))
       = dict_get name (_processors_map self).
Proof.
  unfold update_processor.
  destruct (dict_get pname (_processors_map self)) as [proc|] eqn:Hget; [|now split].
  assert (Hmem : dict_mem pname (_processors_map self) = true)
    by (unfold dict_mem; now rewrite Hget).
  destruct (_get_int_attribute debug "Punit" (Some 0)); [|now split].
  destruct (_get_int_attribute debug "address" (Some 0)); cbn;
    (split; [now apply dict_keys_set_present|]);
    intros name Hne; now apply dict_get_set_other.
Qed.

(** A debug element leaves the processor names alone, and every processor it
    is not aimed at as it was. *)
Lemma handle_debug_frame (dev : CmsisPackDevice) (debug : Element) (self : TopologyState) :
  let self' := snd (handle_debug dev debug self) in
  dict_keys (_processors_map self') = dict_keys (_processors_map self)
  /\ forall name,
       debug_target (dict_keys (_processors_map self)) debug <> Some name ->
       dict_get name (_processors_map self') = dict_get name (_processors_map self).
Proof.
  cbv zeta. unfold handle_debug, debug_target.
  set (target := match dict_get "Pname" (attrib debug) with
                 | Some pname => Ok pname
                 | None => match dict_keys (_processors_map self) with
                           | first :: _ => Ok first
                           | [] => Raise IndexError
                           end
                 end).
  assert (Ht : forall pname, target = Ok pname ->
               match dict_get "Pname" (attrib debug) with
               | Some p => Some p
               | None => hd_error (dict_keys (_processors_map self))
               end = Some pname).
  { subst target. intros pname. destruct (dict_get "Pname" (attrib debug)).
    - intros E; inversion E; reflexivity.
    - destruct (dict_keys (_processors_map self)); intros E; inversion E; reflexivity. }
  destruct target as [pname|e]; [|now split].
  specialize (Ht pname eq_refl).
  destruct (negb (dict_mem pname (_processors_map self))); [now split|].
  pose proof (debug_ap_address_processors dev debug self) as Hap.
  destruct (debug_ap_address dev debug self) as [[ap|e] self1]; cbn [snd] in *.
  - destruct (update_processor_keys dev debug pname ap self1) as [Hk Hf].
    rewrite <- Hap in Ht |- *. split; [exact Hk|].
    intros name Hne. apply Hf. intros ->. apply Hne. exact Ht.
  - cbn. now rewrite Hap.
Qed.

Lemma handle_debugs_frame (dev : CmsisPackDevice) (elems : list Element) :
  forall self,
    let self' := snd (handle_debugs dev elems self) in
    dict_keys (_processors_map self') = dict_keys (_processors_map self)
    /\ forall name,
         (forall d, In d elems ->
                    debug_target (dict_keys (_processors_map self)) d <> Some name) ->
         dict_get name (_processors_map self') = dict_get name (_processors_map self).
Proof.
  induction elems as [|d rest IH]; intros self; cbv zeta; cbn [handle_debugs].
  - now split.
  - destruct (handle_debug_frame dev d self) as [Hk Hf]. cbv zeta in Hk, Hf.
    destruct (handle_debug dev d self) as [[[]|e] self1]; cbn [snd] in *.
    + destruct (IH self1) as [Hk' Hf']. cbv zeta in Hk', Hf'.
      split; [congruence|]. intros name Hnone.
      rewrite Hf'; [apply Hf; apply Hnone; now left|].
      intros d' Hin. rewrite Hk. apply Hnone. now right.
    + split; [exact Hk|]. intros name Hnone. apply Hf. apply Hnone. now left.
Qed.

Lemma handle_debugs_app (dev : CmsisPackDevice) (l1 l2 : list Element) :
  forall self,
    handle_debugs dev (l1 ++ l2) self
    = match handle_debugs dev l1 self with
      | (Ok _, self1) => handle_debugs dev l2 self1
      | (Raise e, self1) => (Raise e, self1)
      end.
Proof.
  induction l1 as [|d l1 IH]; intros self; cbn [handle_debugs app]; [reflexivity|].
  destruct (handle_debug dev d self) as [[[]|e] self1]; [apply IH|reflexivity].
Qed.

(** A debug element with neither [__apid] nor [__ap] and a readable [Punit]
    leaves its target on access port 0 of debug port 0. *)
Lemma handle_debug_default_ap (dev : CmsisPackDevice) (debug : Element)
    (self : TopologyState) (name : string) (proc : ProcessorInfo) (unit_ : Z) :
  debug_target (dict_keys (_processors_map self)) debug = Some name ->
  dict_get name (_processors_map self) = Some proc ->
  has_attr "__apid" debug = false ->
  has_attr "__ap" debug = false ->
  _get_int_attribute debug "Punit" (Some 0) = Ok unit_ ->
  exists proc',
    dict_get name (_processors_map (snd (handle_debug dev debug self))) = Some proc'
    /\ ap_address proc' = APv1Address 0 default_dp.
Proof.
  intros Ht Hget Hapid Hap Hunit. unfold handle_debug, debug_target in *.
  assert (Hmem : dict_mem name (_processors_map self) = true)
    by (unfold dict_mem; now rewrite Hget).
  replace (match dict_get "Pname" (attrib debug) with
           | Some pname => Ok pname
           | None => match dict_keys (_processors_map self) with
                     | first :: _ => Ok first
                     | [] => Raise IndexError
                     end
           end) with (@Ok string name).
  2:{ destruct (dict_get "Pname" (attrib debug)); [now inversion Ht|].
      destruct (dict_keys (_processors_map self)); inversion Ht; reflexivity. }
  rewrite Hmem. cbn [negb]. unfold debug_ap_address. rewrite Hapid, Hap. cbn [snd].
  unfold update_processor. rewrite Hget, Hunit.
  destruct (_get_int_attribute debug "address" (Some 0)).
  - destruct (dict_get "defaultResetSequence" (attrib debug));
      eexists; (split; [cbn; apply dict_get_set_same|reflexivity]).
  - eexists; split; [cbn; apply dict_get_set_same|reflexivity].
Qed.

Lemma handle_accessports_processors (dev : CmsisPackDevice) (elems : list Element) :
  forall self,
    _processors_map (snd (handle_accessports_loop dev elems self)) = _processors_map self.
Proof.
  induction elems as [|accessport rest IH]; intros self; cbn [handle_accessports_loop];
    [reflexivity|].
  assert (Hstep : _processors_map (snd (handle_accessport dev accessport self))
                  = _processors_map self).
  { unfold handle_accessport.
    destruct (_get_int_attribute accessport "__dp" (Some 0)); [|reflexivity].
    pose proof (valid_dps_processors dev self) as Hv.
    destruct (valid_dps dev self) as [dps self1]. cbn [snd] in Hv.
    assert (Hv2 : _processors_map (if negb (Z_in a dps) then tlog (_part dev) self1 else self1)
                  = _processors_map self) by (destruct (negb _); exact Hv).
    destruct (String.eqb (tag accessport) "accessportV1").
    - destruct (_get_int_attribute accessport "index" None); [|exact Hv2].
      destruct (_get_int_attribute accessport "__apid" None); exact Hv2.
    - destruct (String.eqb (tag accessport) "accessportV2"); [|exact Hv2].
      destruct (_get_int_attribute accessport "address" None); [|exact Hv2].
      destruct (_get_int_attribute accessport "__apid" None); exact Hv2. }
  destruct (handle_accessport dev accessport self) as [[[]|e] self1]; cbn [snd] in *.
  - now rewrite IH.
  - exact Hstep.
Qed.

Lemma handle_processors_placeholder (dev : CmsisPackDevice) (self : TopologyState) :
  Forall (fun p => ap_address p = placeholder_address) (dict_values (_processors_map self)) ->
  Forall (fun p => ap_address p = placeholder_address)
    (dict_values (_processors_map (_handle_processors dev self))).
Proof.
  intros Hinit. unfold _handle_processors.
  assert (Hfold : forall l st,
             Forall (fun p => ap_address p = placeholder_address)
               (dict_values (_processors_map st)) ->
             Forall (fun p => ap_address p = placeholder_address)
               (dict_values
                  (_processors_map
                     (fold_left (fun st proc => handle_processor dev proc st) l st)))).
  { induction l as [|proc l IH]; intros st Hst; cbn [fold_left]; [exact Hst|].
    apply IH. unfold handle_processor.
    destruct (match dict_get "Pname" (attrib proc) with
              | Some pname => Ok pname
              | None => match dict_get "Dcore" (attrib proc) with
                        | Some dcore => Ok dcore
                        | None => Raise MalformedCmsisPackError
                        end
              end) as [pname|]; [|exact Hst].
    destruct (_get_int_attribute proc "Punits" (Some 1)); [|exact Hst].
    destruct (dict_mem pname (_processors_map st)); [exact Hst|].
    cbn. apply dict_values_set_Forall; [reflexivity|exact Hst]. }
  specialize (Hfold (processors (_info dev)) self Hinit).
  destruct (_processors_map (fold_left _ _ _)) eqn:E;
    [|rewrite <- E in Hfold; exact Hfold].
  cbn. constructor; [reflexivity|constructor].
Qed.

(** C7, as the code has it. Once the debug topology is resolved, a processor
    that no debug element is aimed at keeps the address it was constructed
    with, the index-based access port -1 on debug port 0; a processor whose
    last debug element supplies neither [__apid] nor [__ap] (and a readable
    [Punit]) is on the index-based access port 0 of debug port 0. *)
Theorem processor_ap_address_resolution (dev : CmsisPackDevice)
    (pm : dict string ProcessorInfo) (self : TopologyState) (name : string)
    (proc : ProcessorInfo) :
  processors_map dev = (Ok pm, self) ->
  dict_get name pm = Some proc ->
  ((forall d, In d (debugs (_info dev)) -> debug_target (dict_keys pm) d <> Some name) ->
   ap_address proc = placeholder_address)
  /\ (forall pre d post unit_,
         debugs (_info dev) = pre ++ d :: post ->
         debug_target (dict_keys pm) d = Some name ->
         (forall d', In d' post -> debug_target (dict_keys pm) d' <> Some name) ->
         has_attr "__apid" d = false ->
         has_attr "__ap" d = false ->
         _get_int_attribute d "Punit" (Some 0) = Ok unit_ ->
         ap_address proc = APv1Address 0 default_dp).
Proof.
  unfold processors_map, _build_aps_map, _handle_accessports.
  pose proof (handle_accessports_processors dev (accessports (_info dev))
                (set_built_apid_map new_topology_state)) as Hacc.
  destruct (handle_accessports_loop dev (accessports (_info dev))
              (set_built_apid_map new_topology_state)) as [[[]|e] self1];
    [|discriminate].
  cbn [snd] in Hacc.
  assert (Hph : Forall (fun p => ap_address p = placeholder_address)
                  (dict_values (_processors_map (_handle_processors dev self1)))).
  { apply handle_processors_placeholder. rewrite Hacc. constructor. }
  set (self2 := _handle_processors dev self1) in *.
  destruct (_processors_map self2) as [|kv pm2] eqn:Hpm2; [discriminate|].
  rewrite <- Hpm2 in Hph. clear Hpm2 kv pm2.
  destruct (handle_debugs dev (debugs (_info dev)) self2) as [[[]|e] self'] eqn:Hloop;
    [|discriminate].
  intros E Hget. inversion E; subst pm self'. clear E. split.
  - intros Hnone.
    destruct (handle_debugs_frame dev (debugs (_info dev)) self2) as [Hk Hf].
    cbv zeta in Hk, Hf. rewrite Hloop in Hk, Hf. cbn [snd] in Hk, Hf.
    rewrite Hf in Hget by (intros d Hin; rewrite <- Hk; now apply Hnone).
    apply dict_get_in_values in Hget.
    rewrite Forall_forall in Hph. now apply Hph.
  - intros pre d post unit_ Hsplit Htarget Hpost Hapid Hap Hunit.
    rewrite Hsplit, handle_debugs_app in Hloop.
    destruct (handle_debugs_frame dev pre self2) as [Hka _]. cbv zeta in Hka.
    destruct (handle_debugs dev pre self2) as [[[]|e] self_a]; [|discriminate].
    cbn [snd] in Hka. cbn [handle_debugs] in Hloop.
    destruct (handle_debug_frame dev d self_a) as [Hkb _]. cbv zeta in Hkb.
    destruct (handle_debug dev d self_a) as [[[]|e] self_b] eqn:Hd; [|discriminate].
    cbn [snd] in Hkb.
    destruct (handle_debugs_frame dev post self_b) as [Hkc Hf]. cbv zeta in Hkc, Hf.
    rewrite Hloop in Hkc, Hf. cbn [snd] in Hkc, Hf.
    assert (Hin : In name (dict_keys (_processors_map self_a))).
    { rewrite <- Hkb, <- Hkc. apply dict_get_in_keys. eauto. }
    apply dict_get_in_keys in Hin. destruct Hin as [proc_a Hproc_a].
    destruct (handle_debug_default_ap dev d self_a (name := name) (proc := proc_a)
                (unit_ := unit_)) as (proc' & Hget' & Hap'); try assumption.
    { rewrite <- Hkb, <- Hkc. exact Htarget. }
    rewrite Hd in Hget'. cbn [snd] in Hget'.
    rewrite Hf in Hget by (intros d' Hin'; rewrite <- Hkc; now apply Hpost).
    congruence.
Qed.

(** ** Memory merge *)

#[export] Instance EqKeyOk_option (K : Type) `{EqKeyOk K} : EqKeyOk (option K).
Proof.
  intros [x|] [y|]; cbn; split; intro E; try discriminate; auto.
  - apply keqb_spec in E. now subst.
  - apply keqb_spec. congruence.
Qed.

#[export] Instance EqKeyOk_pair (A B : Type) `{EqKeyOk A} `{EqKeyOk B} : EqKeyOk (A * B).
Proof.
  intros [a1 a2] [b1 b2]; cbn. unfold pair_eqb; cbn.
  rewrite andb_true_iff, !keqb_spec.
  split; [intros [-> ->]; reflexivity | intro E; inversion E; auto].
Qed.

Section DictDelete.
Context {K V : Type} `{EqKeyOk K}.

Lemma dict_get_app_fresh (k : K) (v : V) (kept rest : dict K V) :
  ~ In k (dict_keys kept) -> dict_get k (kept ++ (k, v) :: rest) = Some v.
Proof.
  induction kept as [|[k' v'] kept IH]; cbn; intros Hfresh.
  - now rewrite keqb_refl.
  - rewrite keqb_neq by (intros ->; apply Hfresh; now left).
    apply IH. intros Hin. apply Hfresh. now right.
Qed.

Lemma dict_del_app_fresh (k : K) (v : V) (kept rest : dict K V) :
  ~ In k (dict_keys kept) -> dict_del k (kept ++ (k, v) :: rest) = kept ++ rest.
Proof.
  induction kept as [|[k' v'] kept IH]; cbn; intros Hfresh.
  - now rewrite keqb_refl.
  - rewrite keqb_neq by (intros ->; apply Hfresh; now left).
    f_equal. apply IH. intros Hin. apply Hfresh. now right.
Qed.

Lemma dict_del_absent (k : K) (d : dict K V) :
  dict_mem k d = false -> dict_del k d = d.
Proof.
  unfold dict_mem. induction d as [|[k' v'] d IH]; cbn; [reflexivity|].
  destruct (keqb k k'); [discriminate|]. intros Hm. now rewrite IH.
Qed.

Lemma dict_del_keys_incl (k : K) (d : dict K V) :
  forall x, In x (dict_keys (dict_del k d)) -> In x (dict_keys d).
Proof.
  unfold dict_keys. induction d as [|[k' v'] d IH]; cbn; [auto|].
  destruct (keqb k k'); cbn; intros x; [auto|]. intros [->|Hin]; auto.
Qed.

Lemma dict_del_wf (k : K) (d : dict K V) : dict_wf d -> dict_wf (dict_del k d).
Proof.
  unfold dict_wf. induction d as [|[k' v'] d IH]; cbn; [auto|].
  intros Hnd. inversion Hnd as [|? ? Hfresh Hrest]; subst.
  destruct (keqb k k'); [exact Hrest|].
  change (NoDup (k' :: dict_keys (dict_del k d))). constructor; [|now apply IH].
  intros Hin. apply Hfresh. now apply dict_del_keys_incl in Hin.
Qed.

Lemma dict_del_values_incl (k : K) (d : dict K V) (P : V -> Prop) :
  Forall P (dict_values d) -> Forall P (dict_values (dict_del k d)).
Proof.
  unfold dict_values. induction d as [|[k' v'] d IH]; cbn; [auto|].
  intros Hall. inversion Hall; subst. destruct (keqb k k'); [assumption|].
  cbn. constructor; auto.
Qed.

Lemma dict_del_not_in (k : K) (d : dict K V) :
  dict_wf d -> ~ In k (dict_keys (dict_del k d)).
Proof.
  unfold dict_wf, dict_keys. induction d as [|[k' v'] d IH]; cbn; [auto|].
  intros Hnd. inversion Hnd as [|? ? Hfresh Hrest]; subst.
  destruct (keqb k k') eqn:E.
  - apply keqb_spec in E. now subst.
  - cbn. intros [->|Hin]; [rewrite keqb_refl in E; discriminate|].
    now apply IH in Hin.
Qed.

Lemma dict_set_wf (k : K) (v : V) (d : dict K V) : dict_wf d -> dict_wf (dict_set k v d).
Proof.
  unfold dict_wf, dict_keys. induction d as [|[k' v'] d IH]; cbn.
  - intros _. constructor; [auto|constructor].
  - intros Hnd. inversion Hnd as [|? ? Hfresh Hrest]; subst.
    destruct (keqb k k') eqn:E; cbn; [exact Hnd|].
    constructor; [|now apply IH].
    intros Hin. apply Hfresh. clear IH Hnd Hrest Hfresh.
    induction d as [|[k0 v0] d IHd]; cbn in *.
    + destruct Hin as [->|[]]. rewrite keqb_refl in E. discriminate.
    + destruct (keqb k k0); cbn in Hin; [exact Hin|].
      destruct Hin as [->|Hin]; auto.
Qed.
End DictDelete.

Lemma get_start_and_size_valid (elem : Element) (self : CmsisPackDescription)
    (start size : Z) :
  int_attrib elem "start" = Ok start -> int_attrib elem "size" = Ok size ->
  get_start_and_size elem self = (Ok (start, size), self).
Proof. intros Hs Hz. unfold get_start_and_size. now rewrite Hs, Hz. Qed.

Lemma evict_overlapping_spec (pname : option string) (start size : Z)
    (part : string) (rest : dict MemKey Element) :
  forall (kept : dict MemKey Element) (self : CmsisPackDescription),
    dict_wf (kept ++ rest) ->
    Forall valid_range (dict_values rest) ->
    warning_printable
      (existsb (fun kv => overlaps_new start size (snd kv) && keqb pname (snd (fst kv)))
         rest)
      part self ->
    evict_overlapping pname start size (dict_keys rest) (kept ++ rest) self
    = (Ok tt,
       kept ++ filter (fun kv => negb (overlaps_new start size (snd kv))) rest,
       warn_once
         (existsb (fun kv => overlaps_new start size (snd kv) && keqb pname (snd (fst kv)))
            rest)
         part self).
Proof.
  induction rest as [|[k v] rest IH]; intros kept self Hwf Hvalid Hprint.
  - cbn. unfold warn_once. cbn. now rewrite app_nil_r.
  - assert (Hfresh : ~ In k (dict_keys kept)).
    { unfold dict_wf, dict_keys in *. rewrite map_app in Hwf. cbn in Hwf.
      apply NoDup_remove_2 in Hwf. intros Hin. apply Hwf. apply in_or_app. now left. }
    assert (Hwf_del : dict_wf (kept ++ rest)).
    { unfold dict_wf, dict_keys in *. rewrite map_app in *. cbn in Hwf.
      now apply NoDup_remove_1 in Hwf. }
    assert (Hwf_keep : dict_wf ((kept ++ [(k, v)]) ++ rest))
      by (rewrite <- app_assoc; exact Hwf).
    inversion Hvalid as [|? ? (ps & pz & Hps & Hpz) Hvalid']; subst.
    cbn [dict_keys map fst evict_overlapping].
    rewrite dict_get_app_fresh by exact Hfresh.
    rewrite (get_start_and_size_valid _ self Hps Hpz).
    cbn [filter existsb snd fst] in Hprint |- *.
    assert (Hov : ranges_overlap start size ps pz = overlaps_new start size v)
      by (unfold overlaps_new; now rewrite Hps, Hpz).
    rewrite Hov. destruct (overlaps_new start size v); cbn [negb andb orb] in Hprint |- *.
    + rewrite dict_del_app_fresh by exact Hfresh.
      destruct (keqb pname (snd k)); cbn [andb orb] in Hprint |- *.
      * destruct (_warned_overlapping_memory_regions self) eqn:Hw; cbn [negb].
        -- fold (dict_keys rest). rewrite (IH kept self Hwf_del Hvalid').
           ++ unfold warn_once. rewrite Hw. cbn [negb]. now rewrite !andb_false_r.
           ++ intros _ Hw'. rewrite Hw in Hw'. discriminate Hw'.
        -- destruct (Hprint eq_refl Hw) as ((fn & Hfn) & state & Htop & Hpart).
           pose proof Hfn as Hfn'. unfold warning_filename in Hfn'.
           rewrite Hfn', Htop, Hpart. fold (dict_keys rest).
           rewrite (IH kept _ Hwf_del Hvalid').
           ++ unfold warn_once at 1.
              cbn [set_warned _warned_overlapping_memory_regions negb].
              rewrite andb_false_r. unfold warn_once. rewrite Hw, Hfn. reflexivity.
           ++ intros _ Hw'. discriminate Hw'.
      * fold (dict_keys rest). now rewrite (IH kept self Hwf_del Hvalid' Hprint).
    + fold (dict_keys rest).
      replace (kept ++ (k, v) :: rest) with ((kept ++ [(k, v)]) ++ rest)
        by (now rewrite <- app_assoc).
      rewrite (IH (kept ++ [(k, v)]) self Hwf_keep Hvalid' Hprint).
      now rewrite <- app_assoc.
Qed.

Lemma filter_keys_incl (K V : Type) (f : K * V -> bool) (d : dict K V) :
  dict_wf d -> dict_wf (List.filter f d).
Proof.
  unfold dict_wf, dict_keys. induction d as [|kv d IH]; cbn; [auto|].
  intros Hnd. inversion Hnd as [|? ? Hfresh Hrest]; subst.
  destruct (f kv); cbn; [|auto]. constructor; [|auto].
  intros Hin. apply Hfresh. apply in_map_iff in Hin. destruct Hin as (x & <- & Hx).
  apply in_map. now apply filter_In in Hx.
Qed.

Lemma filter_values_Forall (K V : Type) (P : V -> Prop) (f : K * V -> bool) (d : dict K V) :
  Forall P (dict_values d) -> Forall P (dict_values (List.filter f d)).
Proof.
  unfold dict_values. induction d as [|kv d IH]; cbn; [auto|].
  intros Hall. inversion Hall; subst. destruct (f kv); cbn; auto.
Qed.

Lemma merged_memories_ok (m : dict MemKey Element) (elem : Element) (start size : Z) :
  memory_map_ok m ->
  int_attrib elem "start" = Ok start -> int_attrib elem "size" = Ok size ->
  memory_map_ok (merged_memories elem start size m).
Proof.
  intros [Hwf Hvalid] Hs Hz. unfold merged_memories. split.
  - apply dict_set_wf, filter_keys_incl, dict_del_wf, Hwf.
  - apply dict_values_set_Forall; [now exists start, size|].
    apply filter_values_Forall, dict_del_values_incl, Hvalid.
Qed.

Lemma memories_filter_spec (m : dict MemKey Element) (elem : Element)
    (self : CmsisPackDescription) (start size : Z) (part : string) :
  memory_map_ok m ->
  int_attrib elem "start" = Ok start ->
  int_attrib elem "size" = Ok size ->
  warning_printable (same_processor_overlap elem start size m) part self ->
  memories_filter m elem self
  = (Ok tt, merged_memories elem start size m,
     warn_once (same_processor_overlap elem start size m) part self).
Proof.
  intros [Hwf Hvalid] Hs Hz Hprint. unfold memories_filter.
  rewrite (get_start_and_size_valid _ self Hs Hz).
  change (match dict_get "name" (attrib elem) with
          | Some n => n
          | None => match dict_get "id" (attrib elem) with
                    | Some i => i
                    | None => format_start_size start size
                    end
          end, dict_get "Pname" (attrib elem))
    with (memory_key elem start size).
  set (info := memory_key elem start size).
  assert (Hdel : (if dict_mem info m then dict_del info m else m) = dict_del info m).
  { destruct (dict_mem info m) eqn:Hm; [reflexivity|].
    symmetry. now apply dict_del_absent. }
  rewrite Hdel.
  pose proof (@evict_overlapping_spec (dict_get "Pname" (attrib elem)) start size part
                (dict_del info m) [] self) as Hev.
  cbn [app] in Hev. rewrite Hev; try assumption.
  - reflexivity.
  - now apply dict_del_wf.
  - now apply dict_del_values_incl.
Qed.

(** The collections the memory pass builds satisfy [memory_map_ok], whether
    a step returns or raises. *)
Lemma evict_overlapping_ok (pname : option string) (start size : Z) (keys : list MemKey) :
  forall (m : dict MemKey Element) (self : CmsisPackDescription),
    memory_map_ok m ->
    memory_map_ok (snd (fst (evict_overlapping pname start size keys m self))).
Proof.
  induction keys as [|k keys IH]; intros m self Hok; cbn [evict_overlapping];
    [exact Hok|].
  assert (Hdel : memory_map_ok (dict_del k m)).
  { destruct Hok as [Hwf Hvalid]. split;
      [now apply dict_del_wf|now apply dict_del_values_incl]. }
  destruct (dict_get k m) as [prev|]; [|exact Hok].
  destruct (get_start_and_size prev self) as [[[ps pz]|e] self1]; [|exact Hok].
  destruct (ranges_overlap start size ps pz); [|now apply IH].
  destruct (keqb pname (snd k) && negb (_warned_overlapping_memory_regions self1));
    [|now apply IH].
  name_warning_filename. destruct (warning_filename self1) as [fn|]; [|exact Hok].
  destruct (top_of_stack self1) as [state|]; [|exact Hok].
  destruct (_get_part_number_from_element (element state)); [now apply IH|exact Hok].
Qed.

Lemma memories_filter_ok (m : dict MemKey Element) (elem : Element)
    (self : CmsisPackDescription) :
  memory_map_ok m -> memory_map_ok (snd (fst (memories_filter m elem self))).
Proof.
  intros Hok. unfold memories_filter, get_start_and_size.
  destruct (int_attrib elem "start") as [start|] eqn:Hs; [|exact Hok].
  destruct (int_attrib elem "size") as [size|] eqn:Hz; [|exact Hok].
  match goal with
  | |- context [evict_overlapping ?p ?s ?z ?ks ?m1 self] =>
      assert (Hm1 : memory_map_ok m1);
      [|pose proof (evict_overlapping_ok p s z ks self Hm1) as Hev;
        destruct (evict_overlapping p s z ks m1 self) as [[[[]|e] m2] self2]]
  end.
  - destruct (dict_mem _ m); [|exact Hok]. destruct Hok as [Hwf Hvalid].
    split; [now apply dict_del_wf|now apply dict_del_values_incl].
  - cbn [fst snd] in *. destruct Hev as [Hwf Hvalid]. split.
    + now apply dict_set_wf.
    + apply dict_values_set_Forall; [now exists start, size|exact Hvalid].
  - exact Hev.
Qed.

Lemma memories_pass_ok (elems : list Element) :
  forall (m : dict MemKey Element) (self : CmsisPackDescription),
    memory_map_ok m ->
    match fst (extract_loop memories_filter elems m self) with
    | Ok m' => memory_map_ok m'
    | Raise _ => True
    end.
Proof.
  induction elems as [|elem rest IH]; intros m self Hok; cbn [extract_loop]; [exact Hok|].
  pose proof (memories_filter_ok elem self Hok) as H1.
  destruct (memories_filter m elem self) as [[[[]|e] m1] self1]; cbn [fst snd] in H1;
    [now apply IH|].
  destruct (caught_by_extract_items e); [now apply IH|exact I].
Qed.

(** ** What the walk keeps *)

Lemma Element_induction (P : Element -> Prop) :
  (forall t a cs, Forall P cs -> P (mkElement t a cs)) -> forall e, P e.
Proof.
  intros H.
  exact (fix IH (e : Element) : P e :=
           match e with
           | mkElement t a cs =>
               H t a cs
                 ((fix go (l : list Element) : Forall P l :=
                     match l with
                     | [] => Forall_nil P
                     | c :: r => @Forall_cons _ P c r (IH c) (go r)
                     end) cs)
           end).
Qed.

Lemma overlap_warnings_app (l1 l2 : list LogRecord) :
  overlap_warnings (l1 ++ l2) = (overlap_warnings l1 + overlap_warnings l2)%nat.
Proof. unfold overlap_warnings. now rewrite filter_app, length_app. Qed.

Lemma warned_once_stable : walk_stable warned_once.
Proof.
  split; [split|..]; unfold warned_once.
  - intros lvl msg self Hno Hself.
    cbn [log LOG _warned_overlapping_memory_regions].
    rewrite overlap_warnings_app.
    unfold overlap_warnings at 2. cbn [List.filter]. rewrite Hno. cbn [List.length]. lia.
  - intros fn part self Hw Hself. rewrite Hw in Hself.
    cbn [log set_warned LOG _warned_overlapping_memory_regions].
    rewrite overlap_warnings_app.
    unfold overlap_warnings at 2. cbn. cbn in Hself. lia.
  - intros stack self Hself. exact Hself.
  - intros dev self Hself. exact Hself.
Qed.

Section Keeps.
Variable P : CmsisPackDescription -> Prop.
Hypothesis Hstable : log_stable P.

Lemma get_start_and_size_keeps (elem : Element) : keeps P (get_start_and_size elem).
Proof.
  intros self Hself. unfold get_start_and_size.
  destruct (int_attrib elem "start"); [destruct (int_attrib elem "size")|]; cbn;
    try assumption; now apply (stable_log Hstable).
Qed.

Lemma evict_overlapping_keeps (pname : option string) (start size : Z)
    (keys : list MemKey) :
  forall (m : dict MemKey Element) (self : CmsisPackDescription),
    P self -> P (snd (evict_overlapping pname start size keys m self)).
Proof.
  induction keys as [|k keys IH]; intros m self Hself; cbn [evict_overlapping]; [assumption|].
  destruct (dict_get k m) as [prev|]; [|assumption].
  pose proof (get_start_and_size_keeps prev Hself) as H1.
  destruct (get_start_and_size prev self) as [[[ps pz]|e] self1]; cbn [snd] in H1;
    [|assumption].
  destruct (ranges_overlap start size ps pz); [|now apply IH].
  destruct (keqb pname (snd k)); cbn [andb]; [|now apply IH].
  destruct (_warned_overlapping_memory_regions self1) eqn:Hw; cbn [negb]; [now apply IH|].
  name_warning_filename. destruct (warning_filename self1) as [fn|]; [|assumption].
  destruct (top_of_stack self1) as [state|]; [|assumption].
  destruct (_get_part_number_from_element (element state)); [|assumption].
  apply IH. now apply (stable_warn Hstable).
Qed.

Lemma memories_filter_keeps : filter_keeps P memories_filter.
Proof.
  intros m elem self Hself. unfold memories_filter.
  pose proof (get_start_and_size_keeps elem Hself) as H1.
  destruct (get_start_and_size elem self) as [[[start size]|e] self1]; cbn [snd] in H1;
    [|assumption].
  match goal with
  | |- context [evict_overlapping ?p ?s ?z ?ks ?m1 self1] =>
      pose proof (evict_overlapping_keeps p s z ks m1 H1) as H2;
      destruct (evict_overlapping p s z ks m1 self1) as [[[[]|e] m2] self2]
  end; exact H2.
Qed.

Lemma algos_filter_keeps : filter_keeps P algos_filter.
Proof.
  intros m elem self Hself. unfold algos_filter.
  destruct (match dict_get "style" (attrib elem) with
            | Some style => negb (String.eqb (str_lower style) "keil")
            | None => false
            end); [now apply (stable_log Hstable)|].
  destruct (int_attrib elem "start"); [destruct (int_attrib elem "size")|]; assumption.
Qed.

Lemma processors_filter_keeps : filter_keeps P processors_filter.
Proof. intros m elem self Hself. exact Hself. Qed.

Lemma debugs_filter_keeps : filter_keeps P debugs_filter.
Proof.
  intros m elem self Hself. unfold debugs_filter.
  now destruct (dict_get "Pname" (attrib elem)).
Qed.

Lemma debugports_filter_keeps : filter_keeps P debugports_filter.
Proof.
  intros m elem self Hself. unfold debugports_filter.
  now destruct (dict_get "__dp" (attrib elem)).
Qed.

Lemma accessports_filter_keeps : filter_keeps P accessports_filter.
Proof.
  intros m elem self Hself. unfold accessports_filter.
  now destruct (dict_get "__apid" (attrib elem)).
Qed.

Lemma extract_loop_keeps (K V : Type) (filter : Filter K V) (elems : list Element) :
  filter_keeps P filter ->
  forall (m : dict K V) (self : CmsisPackDescription),
    P self -> P (snd (extract_loop filter elems m self)).
Proof.
  intros Hf. induction elems as [|elem rest IH]; intros m self Hself; cbn [extract_loop];
    [assumption|].
  pose proof (Hf m elem self Hself) as H1.
  destruct (filter m elem self) as [[[[]|e] m1] self1]; cbn [snd] in H1; [now apply IH|].
  destruct (caught_by_extract_items e); [|assumption].
  apply IH. now apply (stable_log Hstable).
Qed.

Lemma extract_items_keeps (K V : Type) (name : _DeviceInfo -> list Element)
    (filter : Filter K V) :
  filter_keeps P filter -> keeps P (_extract_items name filter).
Proof.
  intros Hf self Hself. unfold _extract_items.
  pose proof (extract_loop_keeps (flat_map name (_state_stack self)) Hf [] Hself) as H1.
  now destruct (extract_loop filter _ [] self) as [[m|e] self1].
Qed.

Lemma bind_keeps (A B : Type) (c : M A) (k : A -> M B) :
  keeps P c -> (forall a, keeps P (k a)) -> keeps P (bind c k).
Proof.
  intros Hc Hk self Hself. unfold bind. specialize (Hc self Hself).
  destruct (c self) as [[a|e] self1]; cbn [snd] in Hc; [now apply Hk|assumption].
Qed.
End Keeps.

Section WalkKeeps.
Variable P : CmsisPackDescription -> Prop.
Hypothesis Hstable : walk_stable P.

Lemma create_device_keeps (parent : Element) : keeps P (create_device parent).
Proof.
  pose proof (stable_logging Hstable) as Hlog. unfold create_device.
  apply bind_keeps; [intros self Hself; exact Hself|intros fams].
  apply bind_keeps; [apply extract_items_keeps, processors_filter_keeps; assumption|intros ?].
  apply bind_keeps; [apply extract_items_keeps, memories_filter_keeps; assumption|intros ?].
  apply bind_keeps; [apply extract_items_keeps, algos_filter_keeps; assumption|intros ?].
  apply bind_keeps; [apply extract_items_keeps, debugs_filter_keeps; assumption|intros ?].
  apply bind_keeps; [apply extract_items_keeps, debugports_filter_keeps; assumption|intros ?].
  apply bind_keeps; [apply extract_items_keeps, accessports_filter_keeps; assumption|intros ?].
  apply bind_keeps; [intros self Hself; exact Hself|intros dev].
  intros self Hself. now apply (stable_devices Hstable).
Qed.

Lemma parse_devices_keeps (parent : Element) : keeps P (_parse_devices parent).
Proof.
  induction parent as [t a cs IH] using Element_induction.
  cbn [_parse_devices].
  apply bind_keeps; [intros self Hself; now apply (stable_stack Hstable)|intros _].
  apply bind_keeps.
  { destruct (str_in t ["device"; "variant"]); [apply create_device_keeps|].
    intros self Hself; exact Hself. }
  intros _. apply bind_keeps.
  - induction IH as [|c r Hc _ IHr]; [intros self Hself; exact Hself|].
    apply bind_keeps; [|intros _; exact IHr].
    destruct (recursed_into c); [exact Hc|intros self Hself; exact Hself].
  - intros _ self Hself. unfold pop_state.
    destruct (_state_stack self); [assumption|]. now apply (stable_stack Hstable).
Qed.

Lemma parse_families_keeps (fams : list Element) : keeps P (parse_families fams).
Proof.
  induction fams as [|f rest IH]; cbn [parse_families]; [intros self Hself; exact Hself|].
  apply bind_keeps; [apply parse_devices_keeps|intros _; exact IH].
Qed.
End WalkKeeps.


(** ** Recovery from malformed elements *)

Lemma int_attrib_error (elem : Element) (name : string) (e : exn) :
  int_attrib elem name = Raise e -> caught_by_extract_items e = true.
Proof.
  unfold int_attrib. destruct (dict_get name (attrib elem)) as [raw|];
    [destruct (int0 raw)|]; intros E; inversion E; reflexivity.
Qed.

Lemma extract_loop_returns (K V : Type) (filter : Filter K V)
    (P : CmsisPackDescription -> Prop) (elems : list Element) :
  log_stable P ->
  filter_keeps P filter ->
  (forall m elem self e m' self',
      P self -> filter m elem self = (Raise e, m', self') ->
      caught_by_extract_items e = true) ->
  forall m self, P self -> exists m' self', extract_loop filter elems m self = (Ok m', self').
Proof.
  intros Hst Hkeep Hcaught.
  induction elems as [|elem rest IH]; intros m self Hself; cbn [extract_loop]; [eauto|].
  pose proof (Hkeep m elem self Hself) as H1.
  destruct (filter m elem self) as [[[[]|e] m1] self1] eqn:Hf; cbn [snd] in H1;
    [now apply IH|].
  rewrite (Hcaught _ _ _ _ _ _ Hself Hf). apply IH. now apply (stable_log Hst).
Qed.

Lemma always_stable : log_stable (fun _ => True).
Proof. split; auto. Qed.

Lemma extract_items_returns (K V : Type) (name : _DeviceInfo -> list Element)
    (filter : Filter K V) (self : CmsisPackDescription) :
  (forall m elem s e m' s', filter m elem s = (Raise e, m', s') ->
                            caught_by_extract_items e = true) ->
  returns (_extract_items name filter) self.
Proof.
  intros Hcaught. unfold returns, _extract_items.
  destruct (@extract_loop_returns K V filter (fun _ => True)
              (flat_map name (_state_stack self)) always_stable) with (m := @nil (K * V))
    (self := self) as (m' & s' & ->); eauto.
  intros ? ? ? _. exact I.
Qed.

Lemma warning_filename_zip (self : CmsisPackDescription) :
  opened_from_directory self = false ->
  exists fn, warning_filename self = Ok fn.
Proof.
  unfold opened_from_directory, warning_filename, filename.
  destruct (_pack self) as [pack|]; [|eauto].
  intros ->. eauto.
Qed.

Lemma warning_filename_directory (self : CmsisPackDescription) :
  opened_from_directory self = true ->
  warning_filename self = Raise AttributeError.
Proof.
  unfold opened_from_directory, warning_filename, filename.
  destruct (_pack self) as [pack|]; [|discriminate].
  now intros ->.
Qed.

Lemma evict_overlapping_errors (pname : option string) (start size : Z)
    (state : _DeviceInfo) (keys : list MemKey) :
  str_in (tag (element state)) ["device"; "variant"] = true ->
  forall m self e m' self',
    top_of_stack self = Ok state ->
    opened_from_directory self = false ->
    evict_overlapping pname start size keys m self = (Raise e, m', self') ->
    caught_by_extract_items e = true.
Proof.
  intros Htag. induction keys as [|k keys IH]; intros m self e m' self' Htop Hzip;
    cbn [evict_overlapping]; [discriminate|].
  destruct (dict_get k m) as [prev|]; [|intros E; inversion E; reflexivity].
  unfold get_start_and_size.
  destruct (int_attrib prev "start") as [ps|e1] eqn:Hs;
    [|intros E; inversion E; subst; eapply int_attrib_error; eassumption].
  destruct (int_attrib prev "size") as [pz|e1] eqn:Hz;
    [|intros E; inversion E; subst; eapply int_attrib_error; eassumption].
  destruct (ranges_overlap start size ps pz); [|now apply IH].
  destruct (keqb pname (snd k) && negb (_warned_overlapping_memory_regions self));
    [|now apply IH].
  name_warning_filename. destruct (warning_filename_zip self Hzip) as (fn & ->).
  rewrite Htop. unfold _get_part_number_from_element at 1. rewrite Htag. cbn [negb].
  destruct (dict_get "Dname" (attrib (element state))); [now apply IH|].
  destruct (String.eqb (tag (element state)) "variant").
  - destruct (dict_get "Dvariant" (attrib (element state))); [now apply IH|].
    intros E; inversion E; reflexivity.
  - intros E; inversion E; reflexivity.
Qed.

Lemma memories_filter_errors (state : _DeviceInfo) :
  str_in (tag (element state)) ["device"; "variant"] = true ->
  forall m elem self e m' self',
    top_of_stack self = Ok state ->
    opened_from_directory self = false ->
    memories_filter m elem self = (Raise e, m', self') ->
    caught_by_extract_items e = true.
Proof.
  intros Htag m elem self e m' self' Htop Hzip. unfold memories_filter, get_start_and_size.
  destruct (int_attrib elem "start") as [start|e1] eqn:Hs;
    [|intros E; inversion E; subst; eapply int_attrib_error; eassumption].
  destruct (int_attrib elem "size") as [size|e1] eqn:Hz;
    [|intros E; inversion E; subst; eapply int_attrib_error; eassumption].
  match goal with
  | |- context [evict_overlapping ?p ?s ?z ?ks ?m1 self] =>
      pose proof (@evict_overlapping_errors p s z state ks Htag m1 self) as Hev;
      destruct (evict_overlapping p s z ks m1 self) as [[[[]|e2] m2] self2]
  end; [discriminate|].
  intros E; inversion E; subst. eapply Hev; [exact Htop|exact Hzip|reflexivity].
Qed.

Lemma device_of_zip_stable (state : _DeviceInfo) :
  log_stable (fun self => top_of_stack self = Ok state
                          /\ opened_from_directory self = false).
Proof. split; auto. Qed.

Lemma extract_memories_returns (self : CmsisPackDescription) (state : _DeviceInfo) :
  top_of_stack self = Ok state ->
  str_in (tag (element state)) ["device"; "variant"] = true ->
  opened_from_directory self = false ->
  returns _extract_memories self.
Proof.
  intros Htop Htag Hzip. unfold returns, _extract_memories, _extract_items.
  destruct (@extract_loop_returns _ _ memories_filter
              (fun s => top_of_stack s = Ok state /\ opened_from_directory s = false)
              (flat_map memories (_state_stack self)) (device_of_zip_stable state))
    with (m := @nil (MemKey * Element)) (self := self) as (m' & s' & ->); eauto.
  - apply memories_filter_keeps, device_of_zip_stable.
  - intros m elem s e m1 s1 [Hs1 Hs2]. eapply memories_filter_errors; eassumption.
Qed.


Lemma unreadable_error (elem : Element) (name : string) :
  unreadable elem name ->
  exists e, int_attrib elem name = Raise e /\ caught_by_extract_items e = true.
Proof.
  intros Hbad. destruct (int_attrib elem name) as [n|e] eqn:E.
  - now destruct (Hbad n).
  - exists e. split; [reflexivity|]. eapply int_attrib_error; eassumption.
Qed.

Lemma memories_skip (bad : Element) :
  unreadable bad "start" \/ unreadable bad "size" -> skipped_by memories_filter bad.
Proof.
  intros Hbad m self rest.
  assert (Hraise : exists e,
             get_start_and_size bad self
             = (Raise e, log WARNING MemoryRegionMissingAddress self)
             /\ caught_by_extract_items e = true).
  { unfold get_start_and_size. destruct Hbad as [Hbad|Hbad].
    - destruct (unreadable_error Hbad) as (e & -> & He). eauto.
    - destruct (unreadable_error Hbad) as (e & Hz & He).
      destruct (int_attrib bad "start") as [n|e0] eqn:Hs; [rewrite Hz; eauto|].
      exists e0. split; [reflexivity|]. eapply int_attrib_error; eassumption. }
  destruct Hraise as (e & Hraise & He).
  assert (Hf : memories_filter m bad self
               = (Raise e, m, log WARNING MemoryRegionMissingAddress self))
    by (unfold memories_filter; now rewrite Hraise).
  exists e, (log WARNING MemoryRegionMissingAddress self).
  repeat split; try assumption. cbn [extract_loop]. now rewrite Hf, He.
Qed.

Lemma algos_skip (bad : Element) :
  keil_style bad = true ->
  unreadable bad "start" \/ unreadable bad "size" -> skipped_by algos_filter bad.
Proof.
  intros Hstyle Hbad m self rest.
  assert (Hf : exists e, algos_filter m bad self = (Raise e, m, self)
                         /\ caught_by_extract_items e = true).
  { unfold algos_filter, keil_style in *.
    replace (match dict_get "style" (attrib bad) with
             | Some style => negb (String.eqb (str_lower style) "keil")
             | None => false
             end) with false
      by (destruct (dict_get "style" (attrib bad)); [now rewrite Hstyle|reflexivity]).
    destruct Hbad as [Hbad|Hbad].
    - destruct (unreadable_error Hbad) as (e & -> & He). eauto.
    - destruct (unreadable_error Hbad) as (e & Hz & He).
      destruct (int_attrib bad "start") as [n|e0] eqn:Hs; [rewrite Hz; eauto|].
      exists e0. split; [reflexivity|]. eapply int_attrib_error; eassumption. }
  destruct Hf as (e & Hf & He). exists e, self.
  repeat split; try assumption. cbn [extract_loop]. now rewrite Hf, He.
Qed.

Lemma debugports_skip (bad : Element) :
  has_attr "__dp" bad = false -> skipped_by debugports_filter bad.
Proof.
  intros Hbad m self rest. exists KeyError, self.
  assert (Hf : debugports_filter m bad self = (Raise KeyError, m, self)).
  { unfold debugports_filter, has_attr, dict_mem in *.
    now destruct (dict_get "__dp" (attrib bad)). }
  repeat split; try assumption. cbn [extract_loop]. now rewrite Hf.
Qed.

Lemma accessports_skip (bad : Element) :
  has_attr "__apid" bad = false -> skipped_by accessports_filter bad.
Proof.
  intros Hbad m self rest. exists KeyError, self.
  assert (Hf : accessports_filter m bad self = (Raise KeyError, m, self)).
  { unfold accessports_filter, has_attr, dict_mem in *.
    now destruct (dict_get "__apid" (attrib bad)). }
  repeat split; try assumption. cbn [extract_loop]. now rewrite Hf.
Qed.

Lemma create_device_without_part (P : CmsisPackDescription -> Prop) (parent : Element)
    (e : exn) (self : CmsisPackDescription) :
  log_stable P ->
  _get_part_number_from_element parent = Raise e ->
  P self ->
  exists e' self', create_device parent self = (Raise e', self') /\ P self'.
Proof.
  intros Hst Hpart Hself. unfold create_device, bind, lift.
  destruct (_extract_families self); [|eauto].
  pose proof (extract_items_keeps Hst processors (processors_filter_keeps P) self Hself)
    as H1.
  fold _extract_processors in H1.
  destruct (_extract_processors self) as [[procs|] s1]; cbn [snd] in H1; [|eauto].
  pose proof (extract_items_keeps Hst memories (memories_filter_keeps Hst) s1 H1) as H2.
  fold _extract_memories in H2.
  destruct (_extract_memories s1) as [[mems|] s2]; cbn [snd] in H2; [|eauto].
  pose proof (extract_items_keeps Hst algos (algos_filter_keeps Hst) s2 H2) as H3.
  fold _extract_algos in H3.
  destruct (_extract_algos s2) as [[als|] s3]; cbn [snd] in H3; [|eauto].
  pose proof (extract_items_keeps Hst debugs (debugs_filter_keeps P) s3 H3) as H4.
  fold _extract_debugs in H4.
  destruct (_extract_debugs s3) as [[dbgs|] s4]; cbn [snd] in H4; [|eauto].
  pose proof (extract_items_keeps Hst debugports (debugports_filter_keeps P) s4 H4)
    as H5.
  fold _extract_debugports in H5.
  destruct (_extract_debugports s4) as [[dps|] s5]; cbn [snd] in H5; [|eauto].
  pose proof (extract_items_keeps Hst accessports (accessports_filter_keeps P) s5 H5)
    as H6.
  fold _extract_accessports in H6.
  destruct (_extract_accessports s5) as [[aps|] s6]; cbn [snd] in H6; [|eauto].
  unfold CmsisPackDevice_init. cbn [element]. rewrite Hpart. eauto.
Qed.

Lemma devices_stable (devs : list CmsisPackDevice) :
  log_stable (fun self => _devices self = devs).
Proof. split; auto. Qed.

Lemma recurse_never_returns (child : Element) (elems : list Element) :
  In child elems -> recursed_into child = true ->
  never_returns (_parse_devices child) ->
  never_returns
    ((fix recurse (l : list Element) : M unit :=
        match l with
        | [] => ret tt
        | elem :: rest =>
            bind (if recursed_into elem then _parse_devices elem else ret tt)
              (fun _ => recurse rest)
        end) elems).
Proof.
  intros Hin Hrec Hchild. induction elems as [|elem rest IH]; [destruct Hin|].
  intros self. unfold bind.
  destruct Hin as [->|Hin].
  - rewrite Hrec. destruct (Hchild self) as (e & self' & ->). eauto.
  - destruct ((if recursed_into elem then _parse_devices elem else ret tt) self)
      as [[[]|e] self1]; [|eauto].
    apply (IH Hin self1).
Qed.

Lemma parse_devices_never_returns (parent child : Element) :
  In child (children parent) -> recursed_into child = true ->
  never_returns (_parse_devices child) ->
  never_returns (_parse_devices parent).
Proof.
  destruct parent as [t a cs]. cbn [children]. intros Hin Hrec Hchild self.
  cbn [_parse_devices]. unfold bind at 1. cbn [push_state]. unfold bind at 1.
  destruct ((if str_in t ["device"; "variant"]
             then create_device (mkElement t a cs) else ret tt) _) as [[[]|e] self1];
    [|eauto].
  unfold bind at 1.
  destruct (@recurse_never_returns child cs Hin Hrec Hchild self1) as (e & self2 & ->). eauto.
Qed.

Lemma parse_families_never_returns (fams : list Element) (family : Element) :
  In family fams -> never_returns (_parse_devices family) ->
  never_returns (parse_families fams).
Proof.
  intros Hin Hfam. induction fams as [|f rest IH]; [destruct Hin|].
  intros self. cbn [parse_families]. unfold bind.
  destruct Hin as [->|Hin].
  - destruct (Hfam self) as (e & self' & ->). eauto.
  - destruct (_parse_devices f self) as [[[]|e] self1]; [|eauto].
    apply (IH Hin self1).
Qed.


(** ** Attribute inheritance *)

Lemma str_in_element_false (x : string) (elem : Element) : str_in_element x elem = false.
Proof.
  unfold str_in_element. induction (children elem) as [|c cs IH]; [reflexivity|exact IH].
Qed.

(** The membership test of the comprehension never holds, so every attribute
    of the ancestor is copied. *)
Lemma inherit_attributes_copies_all (to_elem from_elem : Element) :
  attrib (_inherit_attributes to_elem (Some from_elem))
  = dict_update (attrib to_elem) (attrib from_elem).
Proof.
  unfold _inherit_attributes, set_attrib. cbn [attrib]. f_equal.
  induction (attrib from_elem) as [|kv rest IH]; cbn [List.filter]; [reflexivity|].
  rewrite str_in_element_false. cbn [negb]. now rewrite IH.
Qed.

Section DictUpdate.
Context {K V : Type} `{EqKeyOk K}.

Lemma dict_set_present (k : K) (v : V) (d : dict K V) :
  dict_get k d = Some v -> dict_set k v d = d.
Proof.
  induction d as [|[k' v'] d IH]; cbn; [discriminate|].
  destruct (keqb k k'); [intros E; inversion E; reflexivity|].
  intros Hget. now rewrite IH.
Qed.

Lemma dict_update_get_fresh (k : K) (other : dict K V) :
  forall d, ~ In k (dict_keys other) -> dict_get k (dict_update d other) = dict_get k d.
Proof.
  unfold dict_update, dict_keys.
  induction other as [|[k0 v0] rest IH]; intros d Hfresh; cbn; [reflexivity|].
  rewrite IH by (intros Hin; apply Hfresh; now right).
  apply dict_get_set_other. intros ->. apply Hfresh. now left.
Qed.

Lemma dict_update_get (k : K) (v : V) (other : dict K V) :
  dict_wf other -> In (k, v) other ->
  forall d, dict_get k (dict_update d other) = Some v.
Proof.
  unfold dict_wf, dict_keys.
  induction other as [|[k0 v0] rest IH]; intros Hwf Hin d; [destruct Hin|].
  cbn in Hwf. inversion Hwf as [|? ? Hfresh Hrest]; subst.
  destruct Hin as [E|Hin].
  - inversion E; subst.
    change (dict_update d ((k, v) :: rest)) with (dict_update (dict_set k v d) rest).
    rewrite dict_update_get_fresh by exact Hfresh. apply dict_get_set_same.
  - change (dict_update d ((k0, v0) :: rest)) with (dict_update (dict_set k0 v0 d) rest).
    now apply IH.
Qed.

Lemma dict_update_idempotent (d other : dict K V) :
  dict_wf other -> dict_update (dict_update d other) other = dict_update d other.
Proof.
  intros Hwf.
  assert (Hsub : forall l, incl l other ->
                 dict_update (dict_update d other) l = dict_update d other).
  { induction l as [|[k v] l IH]; intros Hincl; [reflexivity|].
    change (dict_update (dict_update d other) ((k, v) :: l))
      with (dict_update (dict_set k v (dict_update d other)) l).
    rewrite dict_set_present.
    - apply IH. intros x Hx. apply Hincl. now right.
    - apply dict_update_get; [exact Hwf|]. apply Hincl. now left. }
  apply Hsub, incl_refl.
Qed.
End DictUpdate.

(** The merge changes the inner element in place, and the walk merges it
    again for every device below it; merging it again changes nothing. *)
Lemma inherit_attributes_idempotent (to_elem from_elem : Element) :
  dict_wf (attrib from_elem) ->
  _inherit_attributes (_inherit_attributes to_elem (Some from_elem)) (Some from_elem)
  = _inherit_attributes to_elem (Some from_elem).
Proof.
  intros Hwf.
  assert (Hall : forall elem,
             List.filter (fun kv => negb (str_in_element (fst kv) elem)) (attrib from_elem)
             = attrib from_elem).
  { intros elem. induction (attrib from_elem) as [|kv rest IH]; cbn [List.filter];
      [reflexivity|].
    rewrite str_in_element_false. cbn [negb]. f_equal. apply IH.
    unfold dict_wf, dict_keys in *. cbn in Hwf. now inversion Hwf. }
  unfold _inherit_attributes, set_attrib. cbn [attrib tag children].
  rewrite !Hall. now rewrite dict_update_idempotent.
Qed.

(** * Further properties *)

(** ** Passes that file each element under a key *)

Lemma find_app_first (A : Type) (f : A -> bool) (l1 l2 : list A) :
  find f (l1 ++ l2) = match find f l1 with
                      | Some x => Some x
                      | None => find f l2
                      end.
Proof.
  induction l1 as [|x l1 IH]; cbn; [reflexivity|]. now destruct (f x).
Qed.

Lemma NoDup_map_Some (A : Type) (l : list A) : NoDup l -> NoDup (map Some l).
Proof.
  induction 1 as [|x l Hfresh _ IH]; cbn; constructor; [|exact IH].
  intros Hin. apply in_map_iff in Hin. destruct Hin as (y & E & Hy).
  inversion E; subst. contradiction.
Qed.

Section KeyedFold.
Context {K : Type} `{EqKeyOk K}.
Variable key : Element -> option K.

Lemma dict_get_in (k : K) (v : Element) (d : dict K Element) :
  dict_wf d -> In (k, v) d -> dict_get k d = Some v.
Proof.
  unfold dict_wf, dict_keys. induction d as [|[k' v'] d IH]; cbn; [intros _ []|].
  intros Hnd Hin. inversion Hnd as [|? ? Hfresh Hrest]; subst.
  destruct Hin as [E|Hin].
  - inversion E; subst. now rewrite keqb_refl.
  - destruct (keqb k k') eqn:Ek; [|now apply IH].
    apply keqb_spec in Ek. subst k'. exfalso. apply Hfresh.
    change k with (fst (k, v)). now apply in_map.
Qed.

Lemma dict_get_some_in (k : K) (v : Element) (d : dict K Element) :
  dict_get k d = Some v -> exists k', In (k', v) d /\ k' = k.
Proof.
  induction d as [|[k' v'] d IH]; cbn; [discriminate|].
  destruct (keqb k k') eqn:Ek.
  - intros E; inversion E; subst. apply keqb_spec in Ek. subst. eauto.
  - intros Hget. destruct (IH Hget) as (k0 & Hin & ->). eauto.
Qed.

Lemma keyed_fold_get (k : K) (elems : list Element) :
  forall m,
    dict_get k (keyed_fold key elems m)
    = match last_filed key k elems with
      | Some e => Some e
      | None => dict_get k m
      end.
Proof.
  unfold keyed_fold, last_filed.
  induction elems as [|elem rest IH]; intros m; cbn [fold_left rev find]; [reflexivity|].
  rewrite IH, find_app_first.
  destruct (find _ (rev rest)); [reflexivity|]. cbn [find].
  destruct (key elem) as [k'|]; [|reflexivity].
  destruct (keqb k k') eqn:Ek.
  - apply keqb_spec in Ek. subst k'. apply dict_get_set_same.
  - apply dict_get_set_other. intros ->. rewrite keqb_refl in Ek. discriminate.
Qed.

Lemma keyed_fold_wf (elems : list Element) :
  forall m, dict_wf m -> dict_wf (keyed_fold key elems m).
Proof.
  unfold keyed_fold. induction elems as [|elem rest IH]; intros m Hwf; cbn [fold_left];
    [exact Hwf|].
  apply IH. destruct (key elem); [now apply dict_set_wf|exact Hwf].
Qed.

Lemma dict_set_keyed (k : K) (v : Element) (d : dict K Element) :
  key v = Some k ->
  Forall (fun kv => key (snd kv) = Some (fst kv)) d ->
  Forall (fun kv => key (snd kv) = Some (fst kv)) (dict_set k v d).
Proof.
  intros Hk. induction d as [|[k' v'] d IH]; cbn; intros Hd.
  - constructor; [exact Hk|constructor].
  - inversion Hd; subst. destruct (keqb k k') eqn:Ek.
    + apply keqb_spec in Ek. subst k'. constructor; assumption.
    + constructor; auto.
Qed.

Lemma keyed_fold_keyed (elems : list Element) :
  forall m,
    Forall (fun kv => key (snd kv) = Some (fst kv)) m ->
    Forall (fun kv => key (snd kv) = Some (fst kv)) (keyed_fold key elems m).
Proof.
  unfold keyed_fold. induction elems as [|elem rest IH]; intros m Hm; cbn [fold_left];
    [exact Hm|].
  apply IH. destruct (key elem) as [k|] eqn:Hk; [now apply dict_set_keyed|exact Hm].
Qed.

Lemma last_filed_some (k : K) (e : Element) (elems : list Element) :
  In e elems -> key e = Some k -> exists v, last_filed key k elems = Some v.
Proof.
  intros Hin Hk. unfold last_filed.
  destruct (find _ (rev elems)) as [v|] eqn:Hfind; [eauto|].
  exfalso. assert (Hrev : In e (rev elems)) by now apply in_rev in Hin.
  pose proof (find_none _ _ Hfind e Hrev) as Hno. cbn beta in Hno.
  rewrite Hk, keqb_refl in Hno. discriminate.
Qed.

Lemma keyed_fold_last_wins (elems : list Element) :
  last_wins key elems (dict_values (keyed_fold key elems [])).
Proof.
  pose proof (keyed_fold_wf elems (m := []) (NoDup_nil K)) as Hwf.
  pose proof (keyed_fold_keyed elems (m := []) (Forall_nil _)) as Hkeyed.
  pose proof (fun k => keyed_fold_get k elems []) as Hget.
  set (m := keyed_fold key elems []) in *. split; [|split].
  - replace (map key (dict_values m)) with (map Some (dict_keys m)).
    + apply NoDup_map_Some, Hwf.
    + unfold dict_values, dict_keys. rewrite !map_map. apply map_ext_in.
      intros kv Hin. rewrite Forall_forall in Hkeyed. symmetry. now apply Hkeyed.
  - intros v Hin. unfold dict_values in Hin. apply in_map_iff in Hin.
    destruct Hin as ([k v'] & E & Hin). cbn in E. subst v'.
    exists k. rewrite Forall_forall in Hkeyed. split; [apply (Hkeyed _ Hin)|].
    pose proof (@dict_get_in k v m Hwf Hin) as Hg. rewrite Hget in Hg. cbn [dict_get] in Hg.
    now destruct (last_filed key k elems).
  - intros e k Hin Hk. destruct (@last_filed_some k e elems Hin Hk) as (v & Hv).
    specialize (Hget k). rewrite Hv in Hget.
    destruct (@dict_get_some_in k v m Hget) as (k' & Hin' & ->).
    exists v. split.
    + unfold dict_values. change v with (snd (k, v)). now apply in_map.
    + rewrite Forall_forall in Hkeyed. apply (Hkeyed _ Hin').
Qed.

Lemma extract_loop_files_under (filter : Filter K Element) (elems : list Element) :
  files_under key filter ->
  forall m self m' self',
    extract_loop filter elems m self = (Ok m', self') ->
    m' = keyed_fold key elems m.
Proof.
  intros Hfiles. unfold keyed_fold.
  induction elems as [|elem rest IH]; intros m self m' self'; cbn [extract_loop fold_left].
  - intros E; inversion E; reflexivity.
  - pose proof (Hfiles m elem self) as Hstep.
    destruct (filter m elem self) as [[[[]|e] m1] self1]; cbn [fst snd] in Hstep; subst m1.
    + apply IH.
    + destruct (caught_by_extract_items e); [apply IH|discriminate].
Qed.
End KeyedFold.

Lemma algos_filter_files : files_under algo_key algos_filter.
Proof.
  intros m elem self. unfold algos_filter, algo_key, keil_style.
  destruct (dict_get "style" (attrib elem)) as [style|].
  - destruct (String.eqb (str_lower style) "keil"); cbn [negb]; [|reflexivity].
    destruct (int_attrib elem "start"); [destruct (int_attrib elem "size")|]; reflexivity.
  - destruct (int_attrib elem "start"); [destruct (int_attrib elem "size")|]; reflexivity.
Qed.

Lemma debugports_filter_files : files_under debugport_key debugports_filter.
Proof.
  intros m elem self. unfold debugports_filter, debugport_key.
  now destruct (dict_get "__dp" (attrib elem)).
Qed.

Lemma accessports_filter_files : files_under accessport_key accessports_filter.
Proof.
  intros m elem self. unfold accessports_filter, accessport_key.
  now destruct (dict_get "__apid" (attrib elem)).
Qed.

Lemma extract_items_last_wins (K : Type) `{EqKeyOk K} (key : Element -> option K)
    (name : _DeviceInfo -> list Element) (filter : Filter K Element)
    (self : CmsisPackDescription) :
  files_under key filter ->
  (forall m elem s e m' s', filter m elem s = (Raise e, m', s') ->
                            caught_by_extract_items e = true) ->
  exists values self',
    _extract_items name filter self = (Ok values, self')
    /\ last_wins key (flat_map name (_state_stack self)) values.
Proof.
  intros Hfiles Hcaught.
  destruct (@extract_items_returns _ _ name filter self Hcaught) as (values & self' & E).
  exists values, self'. split; [exact E|]. revert E. unfold _extract_items.
  destruct (extract_loop filter (flat_map name (_state_stack self)) [] self)
    as [[m|e] self1] eqn:Hloop; [|discriminate].
  intros E; inversion E; subst.
  apply extract_loop_files_under with (key := key) in Hloop; [|exact Hfiles].
  rewrite Hloop. apply keyed_fold_last_wins.
Qed.

Lemma algos_filter_caught m elem s e m' s' :
  algos_filter m elem s = (Raise e, m', s') -> caught_by_extract_items e = true.
Proof.
  unfold algos_filter.
  destruct (match dict_get "style" (attrib elem) with
            | Some style => negb (String.eqb (str_lower style) "keil")
            | None => false
            end); [discriminate|].
  destruct (int_attrib elem "start") as [start|e1] eqn:Hs.
  - destruct (int_attrib elem "size") as [size|e2] eqn:Hz; [discriminate|].
    intros E; inversion E; subst. eapply int_attrib_error, Hz.
  - intros E; inversion E; subst. eapply int_attrib_error, Hs.
Qed.

(** X1. Resolving the algorithms always returns, and the list holds, for
    every (start, size) range that some Keil-style algorithm element with
    readable start and size has, exactly the last such element in
    outer-to-inner order, and nothing else. *)
Theorem resolved_algos_last_wins (self : CmsisPackDescription) :
  exists values self',
    _extract_algos self = (Ok values, self')
    /\ last_wins algo_key (flat_map algos (_state_stack self)) values.
Proof.
  apply extract_items_last_wins;
    [exact _|apply algos_filter_files|apply algos_filter_caught].
Qed.

(** X2. Resolving the debug ports and the access ports always returns, and
    the lists hold, for every value of [__dp] (of [__apid]) as it is written,
    exactly the last element with that text, and nothing else: the key is the
    attribute's text, not the number it denotes. *)
Theorem resolved_ports_last_wins (self : CmsisPackDescription) :
  (exists values self',
     _extract_debugports self = (Ok values, self')
     /\ last_wins debugport_key (flat_map debugports (_state_stack self)) values)
  /\ (exists values self',
        _extract_accessports self = (Ok values, self')
        /\ last_wins accessport_key (flat_map accessports (_state_stack self)) values).
Proof.
  split; apply extract_items_last_wins; try exact _.
  - apply debugports_filter_files.
  - unfold debugports_filter. intros m elem s e m' s'.
    destruct (dict_get "__dp" (attrib elem)); intros E; inversion E; reflexivity.
  - apply accessports_filter_files.
  - unfold accessports_filter. intros m elem s e m' s'.
    destruct (dict_get "__apid" (attrib elem)); intros E; inversion E; reflexivity.
Qed.

(** ** The memory map of a device *)

Lemma build_memory_region_default_ram (part : string) (elem : Element)
    (self : MemoryMapState) :
  _default_ram self = find default_ram_candidate (_regions self) ->
  _default_ram (build_memory_region part elem self)
  = find default_ram_candidate (_regions (build_memory_region part elem self)).
Proof.
  intros Hinv. unfold build_memory_region.
  destruct (region_name_access_type elem) as [[[[name access] type]|]|err];
    [|exact Hinv|exact Hinv].
  destruct (int_attrib elem "start") as [start|e1]; [|exact Hinv].
  destruct (int_attrib elem "size") as [size|e2]; [|exact Hinv].
  cbv zeta.
  set (isDefault := _get_bool_attribute elem "default" false).
  set (region := mkMemoryRegion _ _ _ _ _ _ _ _ _ _).
  assert (Hcand : default_ram_candidate region = MemoryType_eqb type RAM && isDefault)
    by reflexivity.
  assert (Hgen : forall self1,
             _default_ram self1 = _default_ram self -> _regions self1 = _regions self ->
             let self2 := set_regions (_regions self1 ++ [region]) self1 in
             _default_ram
               match _default_ram self2 with
               | Some _ => self2
               | None => if MemoryType_eqb type RAM && isDefault
                         then set_default_ram region self2 else self2
               end
             = find default_ram_candidate
                 (_regions
                    match _default_ram self2 with
                    | Some _ => self2
                    | None => if MemoryType_eqb type RAM && isDefault
                              then set_default_ram region self2 else self2
                    end)).
  { intros self1 Hd Hr. cbv zeta. cbn [_default_ram set_regions]. rewrite Hd.
    destruct (_default_ram self) as [ram|] eqn:Hram.
    - cbn [_default_ram _regions set_regions]. rewrite Hd, Hr, find_app_first, <- Hinv.
      reflexivity.
    - destruct (MemoryType_eqb type RAM && isDefault) eqn:Hc;
        cbn [set_default_ram _default_ram _regions set_regions];
        rewrite ?Hd, Hr, find_app_first, <- Hinv, ?Hram; cbn [find];
        rewrite Hcand; reflexivity. }
  destruct (_get_bool_attribute elem "startup" false); apply Hgen; reflexivity.
Qed.

(** X3. The default RAM of a device is the first region, in the order of its
    memory elements, that is a RAM and is marked default; there is none
    exactly when no region is both. *)
Theorem default_ram_is_first_default_ram_region (dev : CmsisPackDevice) :
  let built := _build_memory_regions dev new_memory_map_state in
  _default_ram built = find default_ram_candidate (_regions built).
Proof.
  cbv zeta. unfold _build_memory_regions.
  assert (H0 : _default_ram new_memory_map_state
               = find default_ram_candidate (_regions new_memory_map_state)) by reflexivity.
  revert H0. generalize new_memory_map_state as self.
  induction (memories (_info dev)) as [|elem rest IH]; intros self Hinv; cbn [fold_left].
  - exact Hinv.
  - apply IH. now apply build_memory_region_default_ram.
Qed.

(** One entry of the sector table: it is passed over when its range is
    malformed, and gives one flash region otherwise. *)
Lemma split_from_step (region : MemoryRegion) (page : Z) (image : FlashAlgoImage)
    (pack_algo : PackFlashAlgo) (offset sector : Z) (rest : list (Z * Z))
    (self : MemoryMapState) :
  let start := region_start region + offset in
  let end_ := match rest with
              | [] => region_end region
              | (next_offset, _) :: _ => region_start region + next_offset - 1
              end in
  (end_ < start
   /\ split_from region page image pack_algo ((offset, sector) :: rest) self
      = split_from region page image pack_algo rest self)
  \/ (start <= end_
      /\ exists flash self2,
           split_from region page image pack_algo ((offset, sector) :: rest) self
           = (flash :: fst (split_from region page image pack_algo rest self2),
              snd (split_from region page image pack_algo rest self2))
           /\ region_start flash = start /\ region_end flash = end_
           /\ flash_of_sector region page image pack_algo sector flash
           /\ (page <= sector -> device_log self2 = device_log self)).
Proof.
  cbv zeta. cbn [split_from].
  set (e := match rest with
            | [] => region_end region
            | (next_offset, _) :: _ => region_start region + next_offset - 1
            end).
  destruct (Z.ltb_spec e (region_start region + offset)) as [Hlt|Hge]; [left; auto|].
  right. split; [exact Hge|].
  assert (Hmin : (if page >? sector then sector else page) = Z.min page sector).
  { destruct (Z.gtb_spec page sector); lia. }
  destruct (page >? sector) eqn:Hgt; destruct (negb (_saw_startup _)) eqn:Hsaw;
    match goal with
    | |- context [split_from region page image pack_algo rest ?s] =>
        destruct (split_from region page image pack_algo rest s) as [more s3] eqn:Hrest;
        eexists; exists s
    end;
    (split; [rewrite Hrest; reflexivity|]);
    (split; [reflexivity|]);
    (split; [unfold region_end, FlashRegion; cbn; lia|]);
    (split; [unfold flash_of_sector, FlashRegion; cbn; rewrite <- Hmin;
             repeat split; reflexivity|]);
    intros Hle; try reflexivity;
    destruct (Z.gtb_spec page sector); try discriminate; lia.
Qed.

(** X4. Every flash region made from a ROM region carries the sector size of
    its table entry, the smaller of the chosen page size and that sector size
    as its page size, the algorithm, its image and its erased-byte value,
    and the access rights, default and testable flags and alias of the ROM
    region; its name is the ROM region's, followed by the sector size when
    the table has more than one entry. *)
Theorem flash_regions_inherit_attributes (region : MemoryRegion) (page : Z)
    (image : FlashAlgoImage) (pack_algo : PackFlashAlgo) (self : MemoryMapState) :
  Forall (fun f => exists sector,
              In sector (map snd (sector_sizes pack_algo))
              /\ flash_of_sector region page image pack_algo sector f)
    (fst (_split_flash_region_by_sector_size region page image pack_algo self)).
Proof.
  unfold _split_flash_region_by_sector_size.
  assert (Hgen : forall sectors s,
             Forall (fun f => exists sector,
                         In sector (map snd sectors)
                         /\ flash_of_sector region page image pack_algo sector f)
               (fst (split_from region page image pack_algo sectors s))).
  { induction sectors as [|[offset sector] rest IH]; intros s; [constructor|].
    assert (Hmono : forall s',
               Forall (fun f => exists sector0,
                           In sector0 (map snd ((offset, sector) :: rest))
                           /\ flash_of_sector region page image pack_algo sector0 f)
                 (fst (split_from region page image pack_algo rest s'))).
    { intros s'. eapply Forall_impl; [|apply IH].
      intros f (sector0 & Hin & Hf). exists sector0. split; [now right|exact Hf]. }
    destruct (split_from_step region page image pack_algo offset sector rest s)
      as [[_ ->]|[_ (flash & self2 & -> & _ & _ & Hf & _)]]; [apply Hmono|].
    cbn [fst]. constructor; [|apply Hmono].
    exists sector. split; [now left|exact Hf]. }
  apply Hgen.
Qed.

Lemma split_from_tiles (region : MemoryRegion) (page : Z) (image : FlashAlgoImage)
    (pack_algo : PackFlashAlgo) (rest : list (Z * Z)) :
  forall offset sector self,
    increasing_below (region_length region) offset (map fst rest) ->
    let flashes :=
      fst (split_from region page image pack_algo ((offset, sector) :: rest) self) in
    tiles (region_start region + offset) (region_end region) flashes
    /\ List.length flashes = S (List.length rest).
Proof.
  induction rest as [|[next sector'] rest IH]; intros offset sector self Hinc; cbv zeta.
  - destruct (split_from_step region page image pack_algo offset sector [] self)
      as [[Hlt _]|[_ (flash & self2 & -> & Hs & He & _)]];
      cbn [map increasing_below] in Hinc; unfold region_end in *; [exfalso; lia|].
    cbn [fst split_from tiles List.length]. unfold region_end. repeat split; try lia.
  - destruct (split_from_step region page image pack_algo offset sector
                ((next, sector') :: rest) self)
      as [[Hlt _]|[_ (flash & self2 & -> & Hs & He & _)]];
      cbn [map increasing_below fst] in Hinc; unfold region_end in *; [exfalso; lia|].
    destruct Hinc as [Hlt Hinc]. specialize (IH next sector' self2 Hinc).
    cbv zeta in IH. destruct IH as [IHt IHl].
    cbn [fst tiles List.length]. rewrite IHl. unfold region_end.
    repeat split; try lia.
    replace (region_start flash + region_length flash - 1 + 1)
      with (region_start region + next) by lia.
    exact IHt.
Qed.

(** X5. When the sector table fits the ROM region (first offset 0, offsets
    strictly increasing and below the region's length), no table entry is
    dropped and the flash regions tile the ROM region: the first starts at
    its start, each next one starts right after the one before, and the last
    one ends at its end. *)
Theorem flash_regions_tile_rom_region (region : MemoryRegion) (page : Z)
    (image : FlashAlgoImage) (pack_algo : PackFlashAlgo) (self : MemoryMapState) :
  table_fits (region_length region) (sector_sizes pack_algo) ->
  let flashes :=
    fst (_split_flash_region_by_sector_size region page image pack_algo self) in
  tiles (region_start region) (region_end region) flashes
  /\ List.length flashes = List.length (sector_sizes pack_algo).
Proof.
  unfold table_fits, _split_flash_region_by_sector_size.
  destruct (sector_sizes pack_algo) as [|[offset sector] rest]; cbn [map fst];
    [intros []|].
  intros [-> Hinc].
  pose proof (split_from_tiles region page image pack_algo rest 0 sector self Hinc) as H.
  cbv zeta in *. now rewrite Z.add_0_r in H.
Qed.

(** X22. The end of a sub-range other than the last is taken from the next
    table offset and is not clamped to the ROM region: when the next offset
    lies beyond the region's length, the flash region made for the entry
    ends beyond the region's end. *)
Theorem sub_range_not_clamped_to_region (region : MemoryRegion) (page : Z)
    (image : FlashAlgoImage) (pack_algo : PackFlashAlgo) (self : MemoryMapState)
    (offset sector next sector' : Z) (rest : list (Z * Z)) :
  sector_sizes pack_algo = (offset, sector) :: (next, sector') :: rest ->
  offset < next ->
  region_length region < next ->
  exists flash others,
    fst (_split_flash_region_by_sector_size region page image pack_algo self)
    = flash :: others
    /\ region_start flash = region_start region + offset
    /\ region_end flash = region_start region + next - 1
    /\ region_end region < region_end flash.
Proof.
  intros Htable Hinc Hbeyond. unfold _split_flash_region_by_sector_size. rewrite Htable.
  destruct (split_from_step region page image pack_algo offset sector
              ((next, sector') :: rest) self)
    as [[Hlt _]|[_ (flash & self2 & -> & Hs & He & _)]]; [exfalso; lia|].
  exists flash. eexists. split; [reflexivity|]. split; [exact Hs|]. split; [exact He|].
  rewrite He. unfold region_end. lia.
Qed.

Lemma fold_min_spec (rest : list Z) :
  forall s,
    In (fold_left Z.min rest s) (s :: rest)
    /\ forall x, In x (s :: rest) -> fold_left Z.min rest s <= x.
Proof.
  induction rest as [|y rest IH]; intros s; cbn [fold_left].
  - split; [now left|]. intros x [<-|[]]. lia.
  - destruct (IH (Z.min s y)) as [Hin Hle]. split.
    + destruct Hin as [E|Hin]; [|right; now right].
      rewrite <- E. destruct (Z.min_spec s y) as [[_ ->]|[_ ->]]; [now left|right; now left].
    + intros x [<-|[<-|Hx]].
      * specialize (Hle (Z.min s y) (or_introl eq_refl)). lia.
      * specialize (Hle (Z.min s y) (or_introl eq_refl)). lia.
      * apply Hle. now right.
Qed.

Lemma split_from_small_page (region : MemoryRegion) (page : Z) (image : FlashAlgoImage)
    (pack_algo : PackFlashAlgo) (sectors : list (Z * Z)) :
  (forall s, In s (map snd sectors) -> page <= s) ->
  forall self,
    Forall (fun f => option_map flash_page_size (flash_attrs f) = Some page)
      (fst (split_from region page image pack_algo sectors self))
    /\ device_log (snd (split_from region page image pack_algo sectors self))
       = device_log self.
Proof.
  induction sectors as [|[offset sector] rest IH]; intros Hsmall self;
    [split; [constructor|reflexivity]|].
  assert (Hrest : forall s, In s (map snd rest) -> page <= s)
    by (intros s Hs; apply Hsmall; now right).
  assert (Hle : page <= sector) by (apply Hsmall; now left).
  destruct (split_from_step region page image pack_algo offset sector rest self)
    as [[_ ->]|[_ (flash & self2 & -> & _ & _ & Hf & Hlog)]]; [now apply IH|].
  destruct (IH Hrest self2) as [IHf IHl]. cbn [fst snd]. split.
  - constructor; [|exact IHf]. destruct Hf as (-> & _). cbn. f_equal. lia.
  - rewrite IHl. now apply Hlog.
Qed.

(** X6. A decoded page size of at most 32 is replaced by the smallest sector
    size of the table, and choosing fails with [ValueError] exactly when the
    table is empty; every flash region then gets the chosen page size as it
    is, and the split logs nothing. *)
Theorem small_page_size_becomes_smallest_sector (packAlgo : PackFlashAlgo) :
  page_size packAlgo <= 32 ->
  match choose_page_size packAlgo with
  | Raise e => e = ValueError /\ sector_sizes packAlgo = []
  | Ok page =>
      In page (map snd (sector_sizes packAlgo))
      /\ (forall s, In s (map snd (sector_sizes packAlgo)) -> page <= s)
      /\ forall region image self,
           let sp := _split_flash_region_by_sector_size region page image packAlgo self in
           Forall (fun f => option_map flash_page_size (flash_attrs f) = Some page) (fst sp)
           /\ device_log (snd sp) = device_log self
  end.
Proof.
  intros Hsmall. unfold choose_page_size.
  replace (page_size packAlgo <=? 32) with true by (symmetry; apply Z.leb_le; exact Hsmall).
  destruct (map snd (sector_sizes packAlgo)) as [|s rest] eqn:Hsizes.
  - split; [reflexivity|]. now destruct (sector_sizes packAlgo).
  - destruct (fold_min_spec rest s) as [Hin Hle].
    split; [exact Hin|]. split; [exact Hle|].
    intros region image self. cbv zeta. unfold _split_flash_region_by_sector_size.
    apply split_from_small_page. rewrite Hsizes. exact Hle.
Qed.

(** ** The memory merge *)

Lemma FOP_app_single (A : Type) (R : A -> A -> Prop) (l : list A) (a : A) :
  ForallOrdPairs R l -> Forall (fun x => R x a) l -> ForallOrdPairs R (l ++ [a]).
Proof.
  induction 1 as [|x l Hx Hl IH]; intros Hall; cbn.
  - constructor; constructor.
  - inversion Hall; subst. constructor; [|auto].
    apply Forall_app. split; [exact Hx|]. constructor; [assumption|constructor].
Qed.

Lemma FOP_map_filter (A B : Type) (R : B -> B -> Prop) (g : A -> B) (f : A -> bool)
    (l : list A) :
  ForallOrdPairs R (map g l) -> ForallOrdPairs R (map g (filter f l)).
Proof.
  induction l as [|x l IH]; cbn; [auto|]. intros Hfop.
  inversion Hfop as [|? ? Hx Hl]; subst. destruct (f x); cbn; [|auto].
  constructor; [|auto]. rewrite Forall_forall in *. intros y Hy. apply Hx.
  apply in_map_iff in Hy. destruct Hy as (z & <- & Hz). apply in_map.
  now apply filter_In in Hz.
Qed.

Section DictMore.
Context {K V : Type} `{EqKeyOk K}.

Lemma dict_del_In (k : K) (d : dict K V) : forall kv, In kv (dict_del k d) -> In kv d.
Proof.
  induction d as [|[k' v'] d IH]; cbn; [auto|]. intros kv.
  destruct (keqb k k'); [now right|]. intros [E|Hin]; [now left|right; auto].
Qed.

Lemma dict_del_FOP (R : V -> V -> Prop) (k : K) (d : dict K V) :
  ForallOrdPairs R (dict_values d) -> ForallOrdPairs R (dict_values (dict_del k d)).
Proof.
  unfold dict_values. induction d as [|[k' v'] d IH]; cbn; [auto|]. intros Hfop.
  inversion Hfop as [|? ? Hx Hl]; subst. destruct (keqb k k'); [exact Hl|].
  cbn. constructor; [|auto]. rewrite Forall_forall in *. intros y Hy. apply Hx.
  apply in_map_iff in Hy. destruct Hy as (z & <- & Hz). apply in_map.
  now apply dict_del_In in Hz.
Qed.

Lemma dict_del_Forall (P : K * V -> Prop) (k : K) (d : dict K V) :
  Forall P d -> Forall P (dict_del k d).
Proof.
  rewrite !Forall_forall. intros Hall kv Hin. apply Hall. now apply dict_del_In in Hin.
Qed.

Lemma dict_set_absent (k : K) (v : V) (d : dict K V) :
  ~ In k (dict_keys d) -> dict_set k v d = d ++ [(k, v)].
Proof.
  unfold dict_keys. induction d as [|[k' v'] d IH]; cbn; [reflexivity|]. intros Hnot.
  destruct (keqb k k') eqn:Ek.
  - apply keqb_spec in Ek. subst. exfalso. apply Hnot. now left.
  - f_equal. apply IH. intros Hin. apply Hnot. now right.
Qed.

Lemma dict_get_filter (f : K * V -> bool) (k : K) (v : V) (d : dict K V) :
  dict_get k d = Some v -> f (k, v) = true -> dict_get k (filter f d) = Some v.
Proof.
  intros Hget Hf. induction d as [|[k' v'] d IH]; cbn in *; [discriminate|].
  destruct (keqb k k') eqn:Ek.
  - apply keqb_spec in Ek. subst k'. inversion Hget; subst. rewrite Hf. cbn.
    now rewrite keqb_refl.
  - destruct (f (k', v')); cbn; [rewrite Ek|]; auto.
Qed.

Lemma dict_get_del_other (k k0 : K) (d : dict K V) :
  k <> k0 -> dict_get k (dict_del k0 d) = dict_get k d.
Proof.
  intros Hne. induction d as [|[k' v'] d IH]; cbn; [reflexivity|].
  destruct (keqb k0 k') eqn:E0.
  - apply keqb_spec in E0. subst k'. now rewrite keqb_neq.
  - cbn. now rewrite IH.
Qed.
End DictMore.

Lemma evict_overlapping_result (pname : option string) (start size : Z)
    (rest : dict MemKey Element) :
  forall (kept : dict MemKey Element) (self : CmsisPackDescription) m2 self2,
    dict_wf (kept ++ rest) ->
    Forall valid_range (dict_values rest) ->
    evict_overlapping pname start size (dict_keys rest) (kept ++ rest) self
    = (Ok tt, m2, self2) ->
    m2 = kept ++ filter (fun kv => negb (overlaps_new start size (snd kv))) rest.
Proof.
  induction rest as [|[k v] rest IH]; intros kept self m2 self2 Hwf Hvalid.
  - cbn. rewrite app_nil_r. intros E; inversion E; reflexivity.
  - assert (Hfresh : ~ In k (dict_keys kept)).
    { unfold dict_wf, dict_keys in *. rewrite map_app in Hwf. cbn in Hwf.
      apply NoDup_remove_2 in Hwf. intros Hin. apply Hwf. apply in_or_app. now left. }
    assert (Hwf_del : dict_wf (kept ++ rest)).
    { unfold dict_wf, dict_keys in *. rewrite map_app in *. cbn in Hwf.
      now apply NoDup_remove_1 in Hwf. }
    assert (Hwf_keep : dict_wf ((kept ++ [(k, v)]) ++ rest))
      by (rewrite <- app_assoc; exact Hwf).
    inversion Hvalid as [|? ? (ps & pz & Hps & Hpz) Hvalid']; subst.
    cbn [dict_keys map fst evict_overlapping].
    rewrite dict_get_app_fresh by exact Hfresh.
    rewrite (get_start_and_size_valid _ self Hps Hpz).
    cbn [filter snd fst].
    assert (Hov : ranges_overlap start size ps pz = overlaps_new start size v)
      by (unfold overlaps_new; now rewrite Hps, Hpz).
    rewrite Hov. destruct (overlaps_new start size v); cbn [negb].
    + rewrite dict_del_app_fresh by exact Hfresh. fold (dict_keys rest).
      destruct (keqb pname (snd k) && negb (_warned_overlapping_memory_regions self));
        [|now apply IH].
      name_warning_filename. destruct (warning_filename self) as [fn|]; [|discriminate].
      destruct (top_of_stack self) as [state|]; [|discriminate].
      destruct (_get_part_number_from_element (element state)); [|discriminate].
      now apply IH.
    + fold (dict_keys rest).
      replace (kept ++ (k, v) :: rest) with ((kept ++ [(k, v)]) ++ rest)
        by (now rewrite <- app_assoc).
      intros E. rewrite (IH (kept ++ [(k, v)]) _ _ _ Hwf_keep Hvalid' E).
      now rewrite <- app_assoc.
Qed.

Lemma evict_overlapping_closed (P : dict MemKey Element -> Prop)
    (pname : option string) (start size : Z) (keys : list MemKey) :
  (forall k m, P m -> P (dict_del k m)) ->
  forall (m : dict MemKey Element) (self : CmsisPackDescription),
    P m -> P (snd (fst (evict_overlapping pname start size keys m self))).
Proof.
  intros Hdel. induction keys as [|k keys IH]; intros m self Hm; cbn [evict_overlapping];
    [exact Hm|].
  destruct (dict_get k m) as [prev|]; [|exact Hm].
  destruct (get_start_and_size prev self) as [[[ps pz]|e] self1]; [|exact Hm].
  destruct (ranges_overlap start size ps pz); [|now apply IH].
  destruct (keqb pname (snd k) && negb (_warned_overlapping_memory_regions self1));
    [|apply IH; now apply Hdel].
  name_warning_filename. destruct (warning_filename self1) as [fn|]; [|exact Hm].
  destruct (top_of_stack self1) as [state|]; [|exact Hm].
  destruct (_get_part_number_from_element (element state));
    [apply IH; now apply Hdel|exact Hm].
Qed.

Lemma memory_map_apart_ok (m : dict MemKey Element) :
  memory_map_apart m -> memory_map_ok m.
Proof.
  intros (Hwf & Hkeyed & _). split; [exact Hwf|].
  unfold dict_values. rewrite Forall_forall in *. intros v Hin.
  apply in_map_iff in Hin. destruct Hin as (kv & <- & Hkv).
  specialize (Hkeyed kv Hkv). unfold element_key in Hkeyed.
  destruct (int_attrib (snd kv) "start") as [s|] eqn:Hs; [|discriminate].
  destruct (int_attrib (snd kv) "size") as [z|] eqn:Hz; [|discriminate]. now exists s, z.
Qed.

Lemma memory_map_apart_del (k : MemKey) (m : dict MemKey Element) :
  memory_map_apart m -> memory_map_apart (dict_del k m).
Proof.
  intros (Hwf & Hkeyed & Hfop). split; [now apply dict_del_wf|].
  split; [now apply dict_del_Forall|now apply dict_del_FOP].
Qed.

Lemma memories_filter_apart (m : dict MemKey Element) (elem : Element)
    (self : CmsisPackDescription) :
  memory_map_apart m -> memory_map_apart (snd (fst (memories_filter m elem self))).
Proof.
  intros Hm. unfold memories_filter, get_start_and_size.
  destruct (int_attrib elem "start") as [start|] eqn:Hs; [|exact Hm].
  destruct (int_attrib elem "size") as [size|] eqn:Hz; [|exact Hm].
  change (match dict_get "name" (attrib elem) with
          | Some n => n
          | None => match dict_get "id" (attrib elem) with
                    | Some i => i
                    | None => format_start_size start size
                    end
          end, dict_get "Pname" (attrib elem))
    with (memory_key elem start size).
  set (info := memory_key elem start size).
  assert (Hdel : (if dict_mem info m then dict_del info m else m) = dict_del info m).
  { destruct (dict_mem info m) eqn:Hmem; [reflexivity|].
    symmetry. now apply dict_del_absent. }
  rewrite Hdel.
  pose proof (memory_map_apart_del info Hm) as Hm1.
  pose proof (@evict_overlapping_closed memory_map_apart
                (dict_get "Pname" (attrib elem)) start size (dict_keys (dict_del info m))
                memory_map_apart_del (dict_del info m) self Hm1) as Hclosed.
  pose proof (@evict_overlapping_result (dict_get "Pname" (attrib elem)) start size
                (dict_del info m) [] self) as Hres.
  cbn [app] in Hres.
  destruct (evict_overlapping (dict_get "Pname" (attrib elem)) start size
              (dict_keys (dict_del info m)) (dict_del info m) self)
    as [[[[]|e] m2] self2] eqn:Hev; cbn [fst snd] in *; [|exact Hclosed].
  destruct (memory_map_apart_ok Hm1) as [Hwf1 Hvalid1].
  specialize (Hres m2 self2 Hwf1 Hvalid1 eq_refl).
  assert (Hfresh : ~ In info (dict_keys m2)).
  { subst m2. intros Hin. apply (dict_del_not_in info (proj1 (memory_map_apart_ok Hm))).
    unfold dict_keys in *. apply in_map_iff in Hin. destruct Hin as (kv & E & Hkv).
    apply filter_In in Hkv. destruct Hkv as [Hkv _].
    apply (in_map fst) in Hkv. rewrite E in Hkv. exact Hkv. }
  rewrite (dict_set_absent info elem m2 Hfresh).
  destruct Hclosed as (Hwf2 & Hkeyed2 & Hfop2). split; [|split].
  - rewrite <- (dict_set_absent info elem m2 Hfresh). now apply dict_set_wf.
  - apply Forall_app. split; [exact Hkeyed2|]. constructor; [|constructor].
    cbn [fst snd]. unfold element_key. now rewrite Hs, Hz.
  - unfold merged_apart, dict_values. rewrite map_app. cbn [map snd].
    apply FOP_app_single; [exact Hfop2|].
    rewrite Forall_forall. intros v Hin. unfold overlaps_entry. rewrite Hs, Hz.
    apply in_map_iff in Hin. destruct Hin as (kv & <- & Hkv). subst m2.
    apply filter_In in Hkv. destruct Hkv as [_ Hkv].
    now destruct (overlaps_new start size (snd kv)).
Qed.

Lemma memories_pass_apart (elems : list Element) :
  forall (m : dict MemKey Element) (self : CmsisPackDescription),
    memory_map_apart m ->
    match fst (extract_loop memories_filter elems m self) with
    | Ok m' => memory_map_apart m'
    | Raise _ => True
    end.
Proof.
  induction elems as [|elem rest IH]; intros m self Hok; cbn [extract_loop]; [exact Hok|].
  pose proof (memories_filter_apart elem self Hok) as H1.
  destruct (memories_filter m elem self) as [[[[]|e] m1] self1]; cbn [fst snd] in H1;
    [now apply IH|].
  destruct (caught_by_extract_items e); [now apply IH|exact I].
Qed.

(** X7. In the resolved memory list of a device every element has a readable
    range, no two elements have the same key, and no element overlaps, by the
    merge's test, an element before it: a later element's first or last
    address never lies in [[start, end)] of an earlier one, whatever the
    processor names. *)
Theorem resolved_memories_apart (self self' : CmsisPackDescription)
    (values : list Element) :
  _extract_memories self = (Ok values, self') ->
  Forall valid_range values
  /\ NoDup (map element_key values)
  /\ merged_apart values.
Proof.
  unfold _extract_memories, _extract_items.
  assert (H0 : memory_map_apart (@nil (MemKey * Element))).
  { split; [constructor|]. split; constructor. }
  pose proof (memories_pass_apart (flat_map memories (_state_stack self)) self H0) as Hpass.
  destruct (extract_loop memories_filter (flat_map memories (_state_stack self)) [] self)
    as [[m|e] self1]; [|discriminate].
  cbn [fst] in Hpass. intros E; inversion E; subst.
  split; [apply (memory_map_apart_ok Hpass)|].
  destruct Hpass as (Hwf & Hkeyed & Hfop). split; [|exact Hfop].
  replace (map element_key (dict_values m)) with (map Some (dict_keys m)).
  - apply NoDup_map_Some, Hwf.
  - unfold dict_values, dict_keys. rewrite !map_map. apply map_ext_in.
    intros kv Hin. rewrite Forall_forall in Hkeyed. symmetry. now apply Hkeyed.
Qed.

Lemma memories_filter_result (m m' : dict MemKey Element) (elem : Element)
    (self self' : CmsisPackDescription) (start size : Z) :
  memory_map_ok m ->
  int_attrib elem "start" = Ok start ->
  int_attrib elem "size" = Ok size ->
  memories_filter m elem self = (Ok tt, m', self') ->
  m' = merged_memories elem start size m.
Proof.
  intros [Hwf Hvalid] Hs Hz. unfold memories_filter.
  rewrite (get_start_and_size_valid _ self Hs Hz).
  change (match dict_get "name" (attrib elem) with
          | Some n => n
          | None => match dict_get "id" (attrib elem) with
                    | Some i => i
                    | None => format_start_size start size
                    end
          end, dict_get "Pname" (attrib elem))
    with (memory_key elem start size).
  set (info := memory_key elem start size).
  assert (Hdel : (if dict_mem info m then dict_del info m else m) = dict_del info m).
  { destruct (dict_mem info m) eqn:Hmem; [reflexivity|].
    symmetry. now apply dict_del_absent. }
  rewrite Hdel.
  pose proof (@evict_overlapping_result (dict_get "Pname" (attrib elem)) start size
                (dict_del info m) [] self) as Hres.
  cbn [app] in Hres.
  destruct (evict_overlapping (dict_get "Pname" (attrib elem)) start size
              (dict_keys (dict_del info m)) (dict_del info m) self)
    as [[[[]|e] m2] self2] eqn:Hev; [|discriminate].
  intros E; inversion E; subst. unfold merged_memories. fold info. f_equal.
  apply (Hres m2 self'); [now apply dict_del_wf|now apply dict_del_values_incl|reflexivity].
Qed.

(** X8. The merge's overlap test misses a new memory that strictly encloses
    an earlier one: when the new range starts below the earlier range and
    ends at or after its end, the earlier entry (under another key) is not
    evicted, and both are in the collection afterwards. *)
Theorem enclosing_memory_keeps_enclosed (m m' : dict MemKey Element) (elem prev : Element)
    (self self' : CmsisPackDescription) (k : MemKey) (start size ps pz : Z) :
  memory_map_ok m ->
  memories_filter m elem self = (Ok tt, m', self') ->
  int_attrib elem "start" = Ok start ->
  int_attrib elem "size" = Ok size ->
  dict_get k m = Some prev ->
  k <> memory_key elem start size ->
  int_attrib prev "start" = Ok ps ->
  int_attrib prev "size" = Ok pz ->
  start < ps ->
  ps + pz <= start + size ->
  dict_get k m' = Some prev
  /\ dict_get (memory_key elem start size) m' = Some elem.
Proof.
  intros Hok Hfilter Hs Hz Hget Hne Hps Hpz Hlow Hhigh.
  rewrite (@memories_filter_result m m' elem self self' start size Hok Hs Hz Hfilter).
  unfold merged_memories.
  split; [|apply dict_get_set_same].
  rewrite dict_get_set_other by exact Hne.
  apply dict_get_filter.
  - now rewrite dict_get_del_other.
  - cbn [snd]. unfold overlaps_new, ranges_overlap. rewrite Hps, Hpz.
    replace (ps <=? start) with false by (symmetry; apply Z.leb_gt; lia).
    replace (start + size - 1 <? ps + pz - 1) with false
      by (symmetry; apply Z.ltb_ge; lia).
    now rewrite andb_false_r.
Qed.

(** ** Flash synthesis *)

Lemma MemoryType_eqb_eq (a b : MemoryType) : MemoryType_eqb a b = true <-> a = b.
Proof. destruct a, b; cbn; split; congruence. Qed.

Lemma convert_rom_regions_skips (dev : CmsisPackDevice) (default_ram : MemoryRegion)
    (pre : list MemoryRegion) :
  Forall (passed_over dev) pre ->
  forall post acc self,
    convert_rom_regions dev default_ram (pre ++ post) acc self
    = convert_rom_regions dev default_ram post acc self.
Proof.
  induction 1 as [|region pre Hskip _ IH]; intros post acc self; [reflexivity|].
  cbn [app convert_rom_regions].
  assert (Hone : convert_rom_region dev default_ram region acc self = (Ok acc, self)).
  { unfold convert_rom_region.
    destruct (MemoryType_eqb (region_type region) ROM) eqn:Htype; [|reflexivity].
    apply MemoryType_eqb_eq in Htype. destruct Hskip as [Hno|Hfind]; [contradiction|].
    cbn [negb]. now rewrite Hfind. }
  rewrite Hone. apply IH.
Qed.

Lemma region_name_access_type_kind (elem : Element) (name access : string)
    (type : MemoryType) :
  region_name_access_type elem = Ok (Some (name, access, type)) -> type <> FLASH.
Proof.
  unfold region_name_access_type.
  destruct (dict_get "name" (attrib elem)).
  - destruct (dict_get "access" (attrib elem)) as [acc|]; [|discriminate].
    destruct (str_contains "p" acc); [|destruct (str_contains "w" acc)];
      intros E; inversion E; discriminate.
  - destruct (dict_get "id" (attrib elem)) as [i|]; [|discriminate].
    destruct (str_contains "RAM" i); intros E; inversion E; discriminate.
Qed.

Lemma build_memory_region_plain (part : string) (elem : Element) (self : MemoryMapState) :
  Forall (fun region => flash_attrs region = None /\ region_type region <> FLASH)
    (_regions self) ->
  Forall (fun region => flash_attrs region = None /\ region_type region <> FLASH)
    (_regions (build_memory_region part elem self)).
Proof.
  intros Hall. unfold build_memory_region.
  destruct (region_name_access_type elem) as [[[[name access] type]|]|err] eqn:Hname;
    [|exact Hall|exact Hall].
  apply region_name_access_type_kind in Hname.
  destruct (int_attrib elem "start") as [start|e1]; [|exact Hall].
  destruct (int_attrib elem "size") as [size|e2]; [|exact Hall].
  cbv zeta.
  assert (Hgen : forall self1 region,
             _regions self1 = _regions self ->
             flash_attrs region = None -> region_type region = type ->
             let self2 := set_regions (_regions self1 ++ [region]) self1 in
             Forall (fun region => flash_attrs region = None /\ region_type region <> FLASH)
               (_regions
                  match _default_ram self2 with
                  | Some _ => self2
                  | None =>
                      if MemoryType_eqb type RAM && _get_bool_attribute elem "default" false
                      then set_default_ram region self2 else self2
                  end)).
  { intros self1 region Hr Hf Ht. cbv zeta.
    assert (Hnew : Forall (fun region => flash_attrs region = None
                                         /\ region_type region <> FLASH)
                     (_regions self1 ++ [region])).
    { rewrite Hr. apply Forall_app. split; [exact Hall|].
      constructor; [|constructor]. split; [exact Hf|now rewrite Ht]. }
    destruct (_default_ram (set_regions (_regions self1 ++ [region]) self1));
      [exact Hnew|].
    destruct (MemoryType_eqb type RAM && _get_bool_attribute elem "default" false);
      exact Hnew. }
  destruct (_get_bool_attribute elem "startup" false); apply Hgen; reflexivity.
Qed.

(** X9. When no ROM region of a device is contained in an algorithm, the
    memory map is returned, never raised, and consists of exactly the regions
    built from the memory elements, in their order; none of them is a flash
    region. This holds whether or not the device has a default RAM. *)
Theorem memory_map_without_matching_algorithm (dev : CmsisPackDevice) :
  let built := _build_memory_regions dev new_memory_map_state in
  (forall region, In region (_regions built) -> region_type region = ROM ->
                  _find_matching_algo dev region = Raise KeyError) ->
  fst (memory_map dev) = Ok (_regions built)
  /\ Forall (fun region => flash_attrs region = None /\ region_type region <> FLASH)
       (_regions built).
Proof.
  cbv zeta. intros Hnone. split.
  - unfold memory_map, _build_flash_regions.
    set (built := _build_memory_regions dev new_memory_map_state) in *.
    destruct (_default_ram built) as [default_ram|].
    + assert (Hskip : Forall (passed_over dev) (_regions built)).
      { rewrite Forall_forall. intros region Hin. unfold passed_over.
        destruct (MemoryType_eqb (region_type region) ROM) eqn:Htype.
        - right. apply Hnone; [exact Hin|now apply MemoryType_eqb_eq].
        - left. intros E. rewrite E in Htype. discriminate Htype. }
      pose proof (convert_rom_regions_skips default_ram Hskip [] ([], []) built) as Hconv.
      rewrite app_nil_r in Hconv. rewrite Hconv. cbn [convert_rom_regions remove_regions].
      destruct (negb _); cbn [fst dlog set_regions _regions]; now rewrite app_nil_r.
    + destruct (negb _); reflexivity.
  - unfold _build_memory_regions.
    assert (H0 : Forall (fun region => flash_attrs region = None
                                       /\ region_type region <> FLASH)
                   (_regions new_memory_map_state)) by constructor.
    revert H0. generalize new_memory_map_state as self.
    induction (memories (_info dev)) as [|elem rest IH]; intros self Hinv; cbn [fold_left].
    + exact Hinv.
    + apply IH. now apply build_memory_region_plain.
Qed.

(** X10. A matched algorithm element that cannot be used aborts the memory
    map: when the first ROM region that an algorithm contains is matched by
    an element without [name] (KeyError), or whose file the decoder rejects
    otherwise than as missing, or whose [RAMstart] is not a number
    (ValueError), the error is raised out of the [memory_map] access, and the
    device is left with the regions as built. *)
Theorem unusable_algorithm_aborts_memory_map (dev : CmsisPackDevice)
    (default_ram region : MemoryRegion) (pre post : list MemoryRegion)
    (algo_element : Element) (e : exn) :
  let built := _build_memory_regions dev new_memory_map_state in
  _default_ram built = Some default_ram ->
  _regions built = pre ++ region :: post ->
  Forall (passed_over dev) pre ->
  region_type region = ROM ->
  _find_matching_algo dev region = Ok algo_element ->
  unusable_algorithm algo_element e ->
  memory_map dev = (Raise e, built).
Proof.
  cbv zeta. intros Hram Hregions Hpre Htype Hfind Hbad.
  unfold memory_map, _build_flash_regions.
  set (built := _build_memory_regions dev new_memory_map_state) in *.
  rewrite Hram, Hregions, (convert_rom_regions_skips default_ram Hpre).
  cbn [convert_rom_regions].
  assert (Hone : convert_rom_region dev default_ram region ([], []) built
                 = (Raise e, built)).
  { unfold convert_rom_region. rewrite Htype, Hfind. cbn [MemoryType_eqb negb].
    destruct Hbad as [[Hname ->]|[(name & Hname & Hopen & Hne)
                                 |(name & packAlgo & page & raw & Hname & Hopen & Hpage
                                   & Hraw & Hint & ->)]];
      rewrite Hname; [reflexivity| |].
    - unfold _load_flash_algo. rewrite Hopen. destruct e; try reflexivity.
      now contradiction Hne.
    - unfold _load_flash_algo, select_ram_for_algo. now rewrite Hopen, Hpage, Hraw, Hint. }
  now rewrite Hone.
Qed.

(** ** The walk *)

Lemma walked_refl (self : CmsisPackDescription) : walked self self [].
Proof.
  split; [reflexivity|]. split; [reflexivity|]. exists [].
  split; [now rewrite app_nil_r|]. split; [reflexivity|constructor].
Qed.

Lemma walked_trans (a b c : CmsisPackDescription) (l1 l2 : list Element) :
  walked a b l1 -> walked b c l2 -> walked a c (l1 ++ l2).
Proof.
  intros (Hs1 & Hp1 & d1 & Hd1 & Hm1 & Hf1) (Hs2 & Hp2 & d2 & Hd2 & Hm2 & Hf2).
  split; [congruence|]. split; [congruence|]. exists (d1 ++ d2).
  split; [now rewrite Hd2, Hd1, app_assoc|].
  split; [now rewrite map_app, Hm1, Hm2|now apply Forall_app].
Qed.

Lemma untouched_stable (self : CmsisPackDescription) :
  log_stable (fun s => _state_stack s = _state_stack self
                       /\ _pack s = _pack self
                       /\ _devices s = _devices self).
Proof. split; auto. Qed.

Lemma create_device_walked (parent : Element) (self self' : CmsisPackDescription) :
  create_device parent self = (Ok tt, self') -> walked self self' [parent].
Proof.
  pose proof (untouched_stable self) as Hst.
  set (P := fun s => _state_stack s = _state_stack self /\ _pack s = _pack self
                     /\ _devices s = _devices self) in Hst.
  assert (Hself : P self) by (repeat split).
  unfold create_device, bind, lift.
  destruct (_extract_families self); [|discriminate].
  pose proof (extract_items_keeps Hst processors (processors_filter_keeps P) self Hself)
    as H1.
  fold _extract_processors in H1.
  destruct (_extract_processors self) as [[procs|] s1]; cbn [snd] in H1; [|discriminate].
  pose proof (extract_items_keeps Hst memories (memories_filter_keeps Hst) s1 H1) as H2.
  fold _extract_memories in H2.
  destruct (_extract_memories s1) as [[mems|] s2]; cbn [snd] in H2; [|discriminate].
  pose proof (extract_items_keeps Hst algos (algos_filter_keeps Hst) s2 H2) as H3.
  fold _extract_algos in H3.
  destruct (_extract_algos s2) as [[als|] s3]; cbn [snd] in H3; [|discriminate].
  pose proof (extract_items_keeps Hst debugs (debugs_filter_keeps P) s3 H3) as H4.
  fold _extract_debugs in H4.
  destruct (_extract_debugs s3) as [[dbgs|] s4]; cbn [snd] in H4; [|discriminate].
  pose proof (extract_items_keeps Hst debugports (debugports_filter_keeps P) s4 H4)
    as H5.
  fold _extract_debugports in H5.
  destruct (_extract_debugports s4) as [[dps|] s5]; cbn [snd] in H5; [|discriminate].
  pose proof (extract_items_keeps Hst accessports (accessports_filter_keeps P) s5 H5)
    as H6.
  fold _extract_accessports in H6.
  destruct (_extract_accessports s5) as [[aps|] s6]; cbn [snd] in H6; [|discriminate].
  unfold CmsisPackDevice_init. cbn [element].
  destruct (_get_part_number_from_element parent) as [part|] eqn:Hpart; [|discriminate].
  intros E; inversion E; subst. destruct H6 as (Hs & Hp & Hd).
  split; [exact Hs|]. split; [exact Hp|]. eexists [_].
  split; [cbn [append_device _devices]; now rewrite Hd|].
  split; [reflexivity|]. constructor; [exact Hpart|constructor].
Qed.

Lemma parse_devices_walked (parent : Element) :
  forall self self',
    _parse_devices parent self = (Ok tt, self') ->
    walked self self' (device_elements parent).
Proof.
  induction parent as [t a cs IH] using Element_induction.
  intros self self'. cbn [_parse_devices device_elements].
  assert (Hkids : forall s s',
             (fix recurse (l : list Element) : M unit :=
                match l with
                | [] => ret tt
                | elem :: rest =>
                    bind (if recursed_into elem then _parse_devices elem else ret tt)
                      (fun _ => recurse rest)
                end) cs s = (Ok tt, s') ->
             walked s s'
               ((fix each (l : list Element) : list Element :=
                   match l with
                   | [] => []
                   | elem :: rest =>
                       (if recursed_into elem then device_elements elem else [])
                       ++ each rest
                   end) cs)).
  { induction IH as [|c r Hc _ IHr]; intros s s'.
    - intros E; inversion E; subst. apply walked_refl.
    - unfold bind at 1.
      destruct ((if recursed_into c then _parse_devices c else ret tt) s)
        as [[[]|e] s1] eqn:Hchild; [|discriminate].
      intros Hrest. apply walked_trans with (b := s1); [|now apply IHr].
      destruct (recursed_into c); [now apply Hc|].
      inversion Hchild; subst. apply walked_refl. }
  unfold bind at 1. cbn [push_state].
  set (s1 := set_state_stack (_state_stack self ++ [new_state (mkElement t a cs)]) self).
  unfold bind at 1.
  destruct ((if str_in t ["device"; "variant"]
             then create_device (mkElement t a cs) else ret tt) s1)
    as [[[]|e] s2] eqn:Hdev; [|discriminate].
  assert (Hown : walked s1 s2 (if str_in t ["device"; "variant"]
                               then [mkElement t a cs] else [])).
  { destruct (str_in t ["device"; "variant"]); [now apply create_device_walked|].
    inversion Hdev; subst. apply walked_refl. }
  unfold bind at 1.
  match goal with
  | |- context [?recurse cs s2] =>
      destruct (recurse cs s2) as [[[]|e] s3] eqn:Hrec; [|discriminate]
  end.
  apply Hkids in Hrec.
  pose proof (walked_trans Hown Hrec) as (Hs & Hp & devs & Hd & Hm & Hf).
  unfold pop_state. rewrite Hs. subst s1. cbn [set_state_stack _state_stack] in *.
  destruct (_state_stack self ++ [new_state (mkElement t a cs)]) eqn:Hstack;
    [now destruct (_state_stack self)|].
  rewrite <- Hstack, removelast_last. intros E; inversion E; subst.
  split; [reflexivity|]. split; [exact Hp|]. exists devs. now repeat split.
Qed.

(** X11. A walk that returns creates one device for every device and variant
    element it comes to, in document order (an element before the elements
    nested in it), appended after the devices already there; each device
    carries the part number of its element; and the state stack is left as
    it was found. Hence a description that is constructed has an empty state
    stack and the devices of its family elements in document order. *)
Theorem walk_creates_devices_in_document_order :
  (forall parent self self',
      _parse_devices parent self = (Ok tt, self') ->
      walked self self' (device_elements parent))
  /\ (forall pack pdsc self,
         CmsisPackDescription_init pack pdsc = (Ok tt, self) ->
         _state_stack self = []
         /\ map (fun dev => element (_info dev)) (_devices self)
            = flat_map device_elements (iter_tag "family" pdsc)
         /\ Forall made_from_element (_devices self)).
Proof.
  split; [exact parse_devices_walked|].
  intros pack pdsc self. unfold CmsisPackDescription_init.
  assert (Hfams : forall fams s s',
             parse_families fams s = (Ok tt, s') ->
             walked s s' (flat_map device_elements fams)).
  { induction fams as [|f rest IHf]; intros s s'; cbn [parse_families flat_map].
    - intros E; inversion E; subst. apply walked_refl.
    - unfold bind. destruct (_parse_devices f s) as [[[]|e] s1] eqn:Hf; [|discriminate].
      intros Hrest. apply walked_trans with (b := s1); [|now apply IHf].
      now apply parse_devices_walked. }
  intros Hinit. apply Hfams in Hinit.
  destruct Hinit as (Hs & _ & devs & Hd & Hm & Hf). cbn in Hs, Hd. subst devs.
  now repeat split.
Qed.

(** ** The debug merge *)

Lemma extract_loop_app (K V : Type) (filter : Filter K V) (l1 l2 : list Element) :
  forall m self,
    extract_loop filter (l1 ++ l2) m self
    = match extract_loop filter l1 m self with
      | (Ok m1, self1) => extract_loop filter l2 m1 self1
      | (Raise e, self1) => (Raise e, self1)
      end.
Proof.
  induction l1 as [|elem rest IH]; intros m self; cbn [app extract_loop]; [reflexivity|].
  destruct (filter m elem self) as [[[[]|e] m1] self1]; [apply IH|].
  destruct (caught_by_extract_items e); [apply IH|reflexivity].
Qed.

Lemma debugs_loop_keyed (elems : list Element) (self : CmsisPackDescription) :
  Forall keyed_debug elems ->
  forall m,
    dict_mem "*" m = false ->
    extract_loop debugs_filter elems m self
    = (Ok (keyed_fold (fun elem => Some (debug_key elem)) elems m), self).
Proof.
  induction 1 as [|elem rest [Hper Hkey] _ IH]; intros m Hm; [reflexivity|].
  cbn [extract_loop]. unfold keyed_fold. cbn [fold_left].
  unfold debugs_filter. unfold per_processor, has_attr, dict_mem in Hper.
  unfold debug_key in *.
  destruct (dict_get "Pname" (attrib elem)) as [pname|]; [|discriminate Hper].
  rewrite Hm. apply IH. unfold dict_mem.
  rewrite dict_get_set_other by (intros E; apply Hkey; now rewrite E).
  exact Hm.
Qed.

(** X12. Per-processor debug elements are filed under Pname followed by Punit
    (by 0 when Punit is absent), a later element replacing an earlier one
    with the same key. A global element forgets everything before it, and
    the first per-processor element after it forgets the global one: what
    the merge returns for a sequence with a global element is the collection
    of the per-processor elements after the last global one, or the global
    one alone when none follows. The elements after the last global one are
    taken to have keys other than the sentinel. *)
Theorem debug_merge_keeps_entries_after_last_global (pre post : list Element)
    (G : Element) (self : CmsisPackDescription) :
  Forall keyed_debug post ->
  extract_loop debugs_filter post [] self = (Ok (debug_entries post), self)
  /\ (per_processor G = false ->
      extract_loop debugs_filter (pre ++ G :: post) [] self
      = (Ok match post with
            | [] => [("*", G)]
            | _ :: _ => debug_entries post
            end, self))
  /\ last_wins (fun elem => Some (debug_key elem)) post (dict_values (debug_entries post)).
Proof.
  intros Hpost. split; [now apply debugs_loop_keyed|]. split;
    [|apply keyed_fold_last_wins].
  intros HG. rewrite extract_loop_app.
  assert (H0 : homogeneous []) by (right; constructor).
  destruct (debugs_loop_spec pre self H0) as (m & -> & _ & _).
  cbn [extract_loop]. unfold debugs_filter at 1.
  unfold per_processor, has_attr, dict_mem in HG.
  destruct (dict_get "Pname" (attrib G)); [discriminate HG|]. cbn [dict_set].
  destruct post as [|elem rest]; [reflexivity|].
  inversion Hpost as [|? ? [Hper Hkey] Hrest]; subst.
  cbn [extract_loop]. unfold debugs_filter at 1.
  unfold per_processor, has_attr, dict_mem in Hper.
  assert (Hname : debug_key elem
                  = match dict_get "Pname" (attrib elem) with
                    | Some pname =>
                        (pname ++ match dict_get "Punit" (attrib elem) with
                                  | Some u => u
                                  | None => "0"
                                  end)%string
                    | None => "*"
                    end) by reflexivity.
  destruct (dict_get "Pname" (attrib elem)) as [pname|]; [|discriminate Hper].
  cbn [dict_mem dict_get keqb EqKey_string String.eqb Ascii.eqb Bool.eqb dict_set].
  rewrite <- Hname. rewrite debugs_loop_keyed; [reflexivity|exact Hrest|].
  unfold dict_mem. cbn [dict_get].
  destruct (keqb "*" (debug_key elem)) eqn:E; [|reflexivity].
  apply keqb_spec in E. now contradiction Hkey.
Qed.

(** ** Debug ports *)

Lemma build_valid_dps_fold (dev : CmsisPackDevice) (l : list Element) :
  forall st,
    _valid_dps
      (fold_left
         (fun st debugport =>
            match _get_int_attribute debugport "__dp" None with
            | Ok dp => set_valid_dps (_valid_dps st ++ [dp]) st
            | Raise _ => tlog (_part dev) st
            end) l st)
    = _valid_dps st
      ++ flat_map
           (fun debugport =>
              match _get_int_attribute debugport "__dp" None with
              | Ok dp => [dp]
              | Raise _ => []
              end) l.
Proof.
  induction l as [|e l IH]; intros st; cbn [fold_left flat_map]; [now rewrite app_nil_r|].
  rewrite IH. destruct (_get_int_attribute e "__dp" None); cbn [_valid_dps set_valid_dps tlog].
  - now rewrite <- app_assoc.
  - reflexivity.
Qed.

Lemma build_valid_dps_spec (dev : CmsisPackDevice) (self : TopologyState) :
  _valid_dps (_build_valid_dps dev self)
  = match _valid_dps self ++ readable_dps dev with
    | [] => [0]
    | dps => dps
    end.
Proof.
  unfold _build_valid_dps, readable_dps. rewrite <- (build_valid_dps_fold dev).
  match goal with |- context [match _valid_dps ?s with _ => _ end] =>
    destruct (_valid_dps s) eqn:E end; cbn [_valid_dps set_valid_dps];
    [reflexivity|exact E].
Qed.

(** X13. The list of valid debug ports is never empty: it holds the indices
    that the device's debug-port elements give, in their order, and the
    single index 0 when they give none. Once read, it is returned as it is:
    a second access gives the same list and changes nothing. *)
Theorem valid_dps_never_empty_and_cached (dev : CmsisPackDevice) (self : TopologyState) :
  fst (valid_dps dev self) <> []
  /\ valid_dps dev (snd (valid_dps dev self)) = valid_dps dev self
  /\ (_valid_dps self = [] ->
      fst (valid_dps dev self)
      = match readable_dps dev with
        | [] => [0]
        | dps => dps
        end).
Proof.
  unfold valid_dps. destruct (_valid_dps self) as [|dp dps] eqn:Hself; cbn [fst snd].
  - pose proof (build_valid_dps_spec dev self) as Hspec. rewrite Hself in Hspec.
    cbn [app] in Hspec.
    assert (Hne : _valid_dps (_build_valid_dps dev self) <> []).
    { rewrite Hspec. now destruct (readable_dps dev). }
    split; [exact Hne|]. split; [|intros _; exact Hspec].
    destruct (_valid_dps (_build_valid_dps dev self)); [contradiction|reflexivity].
  - split; [discriminate|]. split; [now rewrite Hself|discriminate].
Qed.

(** ** Access-port ids *)

Lemma apids_kept_refl (self : TopologyState) : apids_kept self self.
Proof. split; reflexivity. Qed.

Lemma apids_kept_trans (a b c : TopologyState) :
  apids_kept a b -> apids_kept b c -> apids_kept a c.
Proof. intros [H1 H2] [H3 H4]. split; congruence. Qed.

Lemma build_valid_dps_kept (dev : CmsisPackDevice) (self : TopologyState) :
  apids_kept self (_build_valid_dps dev self).
Proof.
  unfold _build_valid_dps.
  assert (Hfold : forall l st,
             apids_kept st
               (fold_left
                  (fun st debugport =>
                     match _get_int_attribute debugport "__dp" None with
                     | Ok dp => set_valid_dps (_valid_dps st ++ [dp]) st
                     | Raise _ => tlog (_part dev) st
                     end) l st)).
  { induction l as [|e l IH]; intros st; cbn [fold_left]; [apply apids_kept_refl|].
    eapply apids_kept_trans; [|apply IH].
    destruct (_get_int_attribute e "__dp" None); split; reflexivity. }
  match goal with |- context [match _valid_dps ?s with _ => _ end] =>
    destruct (_valid_dps s) eqn:E end;
    [eapply apids_kept_trans; [apply Hfold|split; reflexivity]|apply Hfold].
Qed.

Lemma valid_dps_kept (dev : CmsisPackDevice) (self : TopologyState) :
  apids_kept self (snd (valid_dps dev self)).
Proof.
  unfold valid_dps. destruct (_valid_dps self); cbn [snd];
    [apply build_valid_dps_kept|apply apids_kept_refl].
Qed.

Lemma tlog_kept (part : string) (a b : TopologyState) :
  apids_kept a b -> apids_kept a (tlog part b).
Proof. intros [H1 H2]. split; assumption. Qed.

Lemma handle_accessport_spec (dev : CmsisPackDevice) (accessport : Element)
    (self : TopologyState) :
  let r := handle_accessport dev accessport self in
  _built_apid_map (snd r) = _built_apid_map self
  /\ (forall e, fst r = Raise e -> e = InternalError /\ is_accessport accessport = false)
  /\ (fst r = Ok tt ->
      _apids (snd r)
      = match accessport_entry accessport with
        | Some (apid, ap_address_) => dict_set apid ap_address_ (_apids self)
        | None => _apids self
        end)
  /\ (is_accessport accessport = true -> fst r = Ok tt).
Proof.
  cbv zeta. unfold handle_accessport, accessport_entry, is_accessport, str_in.
  cbn [existsb].
  destruct (_get_int_attribute accessport "__dp" (Some 0)) as [ap_dp|];
    [|cbn; repeat split; try discriminate; reflexivity].
  pose proof (valid_dps_kept dev self) as Hv.
  destruct (valid_dps dev self) as [dps self1]. cbn [snd] in Hv.
  assert (Hv2 : apids_kept self (if negb (Z_in ap_dp dps)
                                 then tlog (_part dev) self1 else self1))
    by (destruct (negb _); [now apply tlog_kept|exact Hv]).
  set (self2 := if negb (Z_in ap_dp dps) then tlog (_part dev) self1 else self1) in *.
  destruct Hv2 as [Hap Hflag].
  destruct (String.eqb (tag accessport) "accessportV1").
  - destruct (_get_int_attribute accessport "index" None);
      [destruct (_get_int_attribute accessport "__apid" None)|];
      cbn [fst snd tlog set_apids _apids _built_apid_map];
      repeat split; try discriminate; try reflexivity; try assumption;
      intros; now rewrite Hap.
  - destruct (String.eqb (tag accessport) "accessportV2").
    + destruct (_get_int_attribute accessport "address" None);
        [destruct (_get_int_attribute accessport "__apid" None)|];
        cbn [fst snd tlog set_apids _apids _built_apid_map];
        repeat split; try discriminate; try reflexivity; try assumption;
        intros; now rewrite Hap.
    + cbn [fst snd orb]. repeat split; try discriminate; try assumption.
      match goal with E : Raise _ = Raise _ |- _ => now inversion E end.
Qed.

Lemma last_accessport_snoc (apid : Z) (elems : list Element) (elem : Element) :
  last_accessport apid (elems ++ [elem])
  = match accessport_entry elem with
    | Some (k, _) => if k =? apid then Some elem else last_accessport apid elems
    | None => last_accessport apid elems
    end.
Proof.
  unfold last_accessport. rewrite rev_app_distr. cbn [rev app find].
  destruct (accessport_entry elem) as [[k a]|]; [|reflexivity].
  now destruct (k =? apid).
Qed.

Lemma handle_accessports_loop_spec (dev : CmsisPackDevice) (elems : list Element) :
  forall self,
    let r := handle_accessports_loop dev elems self in
    _built_apid_map (snd r) = _built_apid_map self
    /\ (forall e, fst r = Raise e ->
                  e = InternalError /\ forallb is_accessport elems = false)
    /\ (fst r = Ok tt ->
        forall apid,
          dict_get apid (_apids (snd r))
          = match last_accessport apid elems with
            | Some elem => option_map snd (accessport_entry elem)
            | None => dict_get apid (_apids self)
            end).
Proof.
  induction elems as [|accessport rest IH] using rev_ind; intros self; cbv zeta.
  - cbn. repeat split; try discriminate; reflexivity.
  - assert (Happ : handle_accessports_loop dev (rest ++ [accessport]) self
                   = match handle_accessports_loop dev rest self with
                     | (Ok _, self1) => handle_accessport dev accessport self1
                     | (Raise e, self1) => (Raise e, self1)
                     end).
    { clear IH. revert self. induction rest as [|x rest IHr]; intros self;
        cbn [app handle_accessports_loop].
      - now destruct (handle_accessport dev accessport self) as [[[]|e] s].
      - destruct (handle_accessport dev x self) as [[[]|e] s]; [apply IHr|reflexivity]. }
    rewrite Happ. specialize (IH self). cbv zeta in IH.
    destruct (handle_accessports_loop dev rest self) as [[[]|e] self1];
      cbn [fst snd] in IH; destruct IH as (Hflag & Herr & Hget).
    + pose proof (handle_accessport_spec dev accessport self1) as Hstep.
      cbv zeta in Hstep. destruct Hstep as (Hflag1 & Herr1 & Hget1 & _).
      split; [congruence|]. split.
      * intros e E. destruct (Herr1 e E) as [-> Hno]. split; [reflexivity|].
        rewrite forallb_app. cbn [forallb]. rewrite Hno. now rewrite andb_false_r.
      * intros Hok apid. rewrite (Hget1 Hok), last_accessport_snoc.
        specialize (Hget eq_refl apid).
        destruct (accessport_entry accessport) as [[k a]|] eqn:Hentry; [|exact Hget].
        destruct (Z.eqb_spec k apid) as [->|Hne].
        -- rewrite Hentry. apply dict_get_set_same.
        -- rewrite dict_get_set_other by congruence. exact Hget.
    + cbn [fst snd]. split; [exact Hflag|]. split; [|discriminate].
      intros e' E. destruct (Herr e' E) as [-> Hno]. split; [reflexivity|].
      rewrite forallb_app, Hno. reflexivity.
Qed.

(** X14. Handling the access-port elements of a device raises nothing but
    [InternalError], and that only for an element that is neither an
    [accessportV1] nor an [accessportV2]. When it returns, the id map holds
    for every number the address of the last element whose [__apid] denotes
    that number and whose [__dp], [index] or [address] can be read; the ids
    are compared as numbers, so a later element given as 0x1 replaces an
    earlier one given as 1. *)
Theorem access_port_ids_last_wins (dev : CmsisPackDevice) (self : TopologyState) :
  let r := _handle_accessports dev self in
  (forall e, fst r = Raise e ->
             e = InternalError /\ forallb is_accessport (accessports (_info dev)) = false)
  /\ (forallb is_accessport (accessports (_info dev)) = true ->
      fst r = Ok tt
      /\ forall apid,
           dict_get apid (_apids (snd r))
           = match last_accessport apid (accessports (_info dev)) with
             | Some elem => option_map snd (accessport_entry elem)
             | None => dict_get apid (_apids self)
             end).
Proof.
  cbv zeta. unfold _handle_accessports.
  pose proof (handle_accessports_loop_spec dev (accessports (_info dev)) self) as H.
  cbv zeta in H. destruct H as (_ & Herr & Hget). split; [exact Herr|].
  intros Hall.
  destruct (handle_accessports_loop dev (accessports (_info dev)) self)
    as [[[]|e] self1]; cbn [fst snd] in *.
  - split; [reflexivity|]. now apply Hget.
  - destruct (Herr e eq_refl) as [_ Hno]. rewrite Hall in Hno. discriminate Hno.
Qed.

Lemma handle_processors_kept (dev : CmsisPackDevice) (self : TopologyState) :
  apids_kept self (_handle_processors dev self).
Proof.
  unfold _handle_processors.
  assert (Hfold : forall l st,
             apids_kept st (fold_left (fun st proc => handle_processor dev proc st) l st)).
  { induction l as [|proc l IH]; intros st; cbn [fold_left]; [apply apids_kept_refl|].
    eapply apids_kept_trans; [|apply IH]. unfold handle_processor.
    destruct (match dict_get "Pname" (attrib proc) with
              | Some pname => Ok pname
              | None => match dict_get "Dcore" (attrib proc) with
                        | Some dcore => Ok dcore
                        | None => Raise MalformedCmsisPackError
                        end
              end) as [pname|]; [|split; reflexivity].
    destruct (_get_int_attribute proc "Punits" (Some 1)); [|split; reflexivity].
    destruct (dict_mem pname (_processors_map st)); split; reflexivity. }
  specialize (Hfold (processors (_info dev)) self).
  destruct (_processors_map (fold_left _ _ _));
    [eapply apids_kept_trans; [exact Hfold|split; reflexivity]|exact Hfold].
Qed.

Lemma debug_ap_address_kept (dev : CmsisPackDevice) (debug : Element)
    (self : TopologyState) :
  apids_kept self (snd (debug_ap_address dev debug self)).
Proof.
  unfold debug_ap_address.
  destruct (has_attr "__apid" debug).
  - destruct (_get_int_attribute debug "__apid" None); [|apply apids_kept_refl].
    destruct (dict_get _ _); apply apids_kept_refl.
  - destruct (has_attr "__ap" debug); [|apply apids_kept_refl].
    destruct (_get_int_attribute debug "__dp" (Some 0)); [|apply apids_kept_refl].
    pose proof (valid_dps_kept dev self) as Hv.
    destruct (valid_dps dev self) as [dps self1]. cbn [snd] in Hv.
    destruct (negb _); [exact Hv|].
    now destruct (_get_int_attribute debug "__ap" None).
Qed.

Lemma update_processor_kept (dev : CmsisPackDevice) (debug : Element) (pname : string)
    (ap : APAddressBase) (self : TopologyState) :
  apids_kept self (update_processor dev debug pname ap self).
Proof.
  unfold update_processor.
  destruct (dict_get pname (_processors_map self)); [|split; reflexivity].
  destruct (_get_int_attribute debug "Punit" (Some 0)); [|split; reflexivity].
  destruct (_get_int_attribute debug "address" (Some 0)); split; reflexivity.
Qed.

Lemma handle_debug_kept (dev : CmsisPackDevice) (debug : Element) (self : TopologyState) :
  apids_kept self (snd (handle_debug dev debug self)).
Proof.
  unfold handle_debug.
  destruct (match dict_get "Pname" (attrib debug) with
            | Some pname => Ok pname
            | None => match dict_keys (_processors_map self) with
                      | first :: _ => Ok first
                      | [] => Raise IndexError
                      end
            end) as [pname|]; [|apply apids_kept_refl].
  destruct (negb (dict_mem pname (_processors_map self))); [split; reflexivity|].
  pose proof (debug_ap_address_kept dev debug self) as Hap.
  destruct (debug_ap_address dev debug self) as [[ap|e] self1]; cbn [snd] in *.
  - eapply apids_kept_trans; [exact Hap|apply update_processor_kept].
  - now apply tlog_kept.
Qed.

Lemma handle_debugs_kept (dev : CmsisPackDevice) (elems : list Element) :
  forall self, apids_kept self (snd (handle_debugs dev elems self)).
Proof.
  induction elems as [|debug rest IH]; intros self; cbn [handle_debugs];
    [apply apids_kept_refl|].
  pose proof (handle_debug_kept dev debug self) as Hstep.
  destruct (handle_debug dev debug self) as [[[]|e] self1]; cbn [snd] in *;
    [|exact Hstep].
  eapply apids_kept_trans; [exact Hstep|apply IH].
Qed.

(** X15. The map of access-port ids is built on the first access only: after
    an access, whether it returned or raised, the built flag is set and every
    later access returns the map as it stands and changes nothing. What is
    built holds what the access-port elements give: the processor and debug
    elements leave the ids alone. *)
Theorem apid_map_built_once (dev : CmsisPackDevice) (self : TopologyState) :
  let self1 := snd (apid_map dev self) in
  _built_apid_map self1 = true
  /\ apid_map dev self1 = (Ok (_apids self1), self1)
  /\ (_built_apid_map self = false ->
      fst (_handle_accessports dev (set_built_apid_map self)) = Ok tt ->
      _apids self1 = _apids (snd (_handle_accessports dev (set_built_apid_map self)))).
Proof.
  cbv zeta.
  assert (Hbuilt : _built_apid_map (snd (_build_aps_map dev self)) = true
                   /\ (fst (_handle_accessports dev (set_built_apid_map self)) = Ok tt ->
                       _apids (snd (_build_aps_map dev self))
                       = _apids (snd (_handle_accessports dev (set_built_apid_map self))))).
  { unfold _build_aps_map, _handle_accessports.
    pose proof (handle_accessports_loop_spec dev (accessports (_info dev))
                  (set_built_apid_map self)) as Hacc.
    cbv zeta in Hacc. destruct Hacc as (Hflag & _ & _).
    cbn [set_built_apid_map _built_apid_map] in Hflag.
    destruct (handle_accessports_loop dev (accessports (_info dev))
                (set_built_apid_map self)) as [[[]|e] s1]; cbn [fst snd] in *;
      [|split; [exact Hflag|discriminate]].
    pose proof (handle_processors_kept dev s1) as [Hap2 Hflag2].
    destruct (_processors_map (_handle_processors dev s1));
      [cbn [snd]; split; [congruence|intros _; exact Hap2]|].
    pose proof (handle_debugs_kept dev (debugs (_info dev)) (_handle_processors dev s1))
      as [Hap3 Hflag3].
    split; [congruence|intros _; congruence]. }
  assert (Hs1 : snd (apid_map dev self)
                = if _built_apid_map self then self else snd (_build_aps_map dev self)).
  { unfold apid_map. destruct (_built_apid_map self); cbn [negb]; [reflexivity|].
    now destruct (_build_aps_map dev self) as [[[]|e] s]. }
  assert (Hflag1 : _built_apid_map (snd (apid_map dev self)) = true).
  { rewrite Hs1. destruct (_built_apid_map self) eqn:E; [exact E|apply Hbuilt]. }
  split; [exact Hflag1|]. split.
  - revert Hflag1. generalize (snd (apid_map dev self)). intros s1 Hflag1.
    unfold apid_map. now rewrite Hflag1.
  - intros Hself Hok. rewrite Hs1, Hself. now apply Hbuilt.
Qed.

(** ** Processors *)

Lemma handle_processor_map (dev : CmsisPackDevice) (proc : Element) (st : TopologyState) :
  _processors_map (handle_processor dev proc st) = add_processor proc (_processors_map st).
Proof.
  unfold handle_processor, add_processor, processor_entry.
  destruct (dict_get "Pname" (attrib proc)) as [pname|].
  - destruct (_get_int_attribute proc "Punits" (Some 1)); [|reflexivity].
    now destruct (dict_mem pname (_processors_map st)).
  - destruct (dict_get "Dcore" (attrib proc)) as [dcore|]; [|reflexivity].
    destruct (_get_int_attribute proc "Punits" (Some 1)); [|reflexivity].
    now destruct (dict_mem dcore (_processors_map st)).
Qed.

Lemma handle_processors_fold (dev : CmsisPackDevice) (l : list Element) :
  forall st,
    _processors_map (fold_left (fun st proc => handle_processor dev proc st) l st)
    = fold_left (fun m proc => add_processor proc m) l (_processors_map st).
Proof.
  induction l as [|proc l IH]; intros st; cbn [fold_left]; [reflexivity|].
  now rewrite IH, handle_processor_map.
Qed.

Lemma add_processors_get (name : string) (l : list Element) :
  forall m,
    dict_get name (fold_left (fun m proc => add_processor proc m) l m)
    = match dict_get name m with
      | Some p => Some p
      | None =>
          option_map (fun entry => new_ProcessorInfo name (snd entry))
            (find (fun entry => String.eqb (fst entry) name) (processor_entries l))
      end.
Proof.
  induction l as [|proc l IH]; intros m; cbn [fold_left processor_entries flat_map].
  - cbn. now destruct (dict_get name m).
  - fold (processor_entries l). rewrite IH. unfold add_processor.
    destruct (processor_entry proc) as [[pname punits]|]; [|reflexivity].
    cbn [app find fst snd]. unfold dict_mem.
    destruct (String.eqb_spec pname name) as [->|Hne].
    + destruct (dict_get name m) eqn:Hget; [now rewrite Hget|].
      now rewrite dict_get_set_same.
    + destruct (dict_get pname m) eqn:Hmem; [reflexivity|].
      rewrite dict_get_set_other by congruence. reflexivity.
Qed.

Lemma add_processors_wf (l : list Element) :
  forall m, dict_wf m /\ named_processors m ->
            dict_wf (fold_left (fun m proc => add_processor proc m) l m)
            /\ named_processors (fold_left (fun m proc => add_processor proc m) l m).
Proof.
  induction l as [|proc l IH]; intros m Hm; cbn [fold_left]; [exact Hm|].
  apply IH. unfold add_processor.
  destruct (processor_entry proc) as [[pname punits]|]; [|exact Hm].
  destruct (dict_mem pname m) eqn:Hmem; [exact Hm|]. destruct Hm as [Hwf Hnamed].
  split; [now apply dict_set_wf|].
  rewrite dict_set_absent.
  - apply Forall_app. split; [exact Hnamed|]. constructor; [reflexivity|constructor].
  - intros Hin. apply dict_get_in_keys in Hin. destruct Hin as (v & Hv).
    unfold dict_mem in Hmem. now rewrite Hv in Hmem.
Qed.

Lemma dict_all_absent (K V : Type) `{EqKeyOk K} (d : dict K V) :
  (forall k, dict_get k d = None) -> d = [].
Proof.
  destruct d as [|[k v] d]; [reflexivity|]. intros Hall. specialize (Hall k).
  cbn in Hall. rewrite keqb_refl in Hall. discriminate Hall.
Qed.

(** X16. From an empty map, the processor elements of a device define one
    processor per name: the name is Pname, else Dcore; of several elements
    with one name the first whose Punits can be read defines the processor
    (its units, 1 when absent) and the others are dropped; elements without
    a name or with an unreadable Punits define nothing. When no element
    defines a processor, the map holds the single placeholder "unknown". The
    map is never empty and files every processor under its own name. *)
Theorem first_processor_of_a_name_wins (dev : CmsisPackDevice) (self : TopologyState) :
  _processors_map self = [] ->
  let pm := _processors_map (_handle_processors dev self) in
  let entries := processor_entries (processors (_info dev)) in
  match entries with
  | [] => pm = [("unknown", new_ProcessorInfo "unknown" 1)]
  | _ :: _ =>
      forall name,
        dict_get name pm
        = option_map (fun entry => new_ProcessorInfo name (snd entry))
            (find (fun entry => String.eqb (fst entry) name) entries)
  end
  /\ pm <> [] /\ dict_wf pm /\ named_processors pm.
Proof.
  intros Hempty. cbv zeta. unfold _handle_processors.
  pose proof (handle_processors_fold dev (processors (_info dev)) self) as Hfold.
  rewrite Hempty in Hfold.
  pose proof (fun name => add_processors_get name (processors (_info dev)) []) as Hget.
  cbn [dict_get] in Hget.
  assert (Hinv : dict_wf (@nil (string * ProcessorInfo)) /\ named_processors [])
    by (split; constructor).
  apply (add_processors_wf (processors (_info dev))) in Hinv.
  rewrite <- Hfold in Hget, Hinv.
  set (self1 := fold_left (fun st proc => handle_processor dev proc st)
                  (processors (_info dev)) self) in *.
  destruct (processor_entries (processors (_info dev))) as [|[pname punits] entries]
    eqn:Hentries.
  - assert (Hnil : _processors_map self1 = []) by exact (@dict_all_absent _ _ _ EqKeyOk_string _ Hget).
    rewrite Hnil. cbn. split; [reflexivity|]. split; [discriminate|].
    split; [|constructor; [reflexivity|constructor]].
    unfold dict_wf. cbn. constructor; [intros []|constructor].
  - assert (Hne : _processors_map self1 <> []).
    { intros Hnil. specialize (Hget pname). rewrite Hnil in Hget. cbn in Hget.
      rewrite String.eqb_refl in Hget. discriminate Hget. }
    destruct (_processors_map self1) eqn:Hmap; [contradiction|].
    rewrite Hmap. split; [exact Hget|]. split; [discriminate|exact Hinv].
Qed.

Lemma handle_processors_map (dev : CmsisPackDevice) (st : TopologyState) :
  _processors_map (_handle_processors dev st)
  = match fold_left (fun m proc => add_processor proc m) (processors (_info dev))
            (_processors_map st) with
    | [] => [("unknown", new_ProcessorInfo "unknown" 1)]
    | m => m
    end.
Proof.
  unfold _handle_processors. rewrite <- (handle_processors_fold dev).
  now destruct (_processors_map (fold_left _ _ _)) eqn:E.
Qed.

Lemma handle_processors_ok (dev : CmsisPackDevice) (st : TopologyState) :
  dict_wf (_processors_map st) /\ named_processors (_processors_map st) ->
  let pm := _processors_map (_handle_processors dev st) in
  pm <> [] /\ dict_wf pm /\ named_processors pm.
Proof.
  intros Hinv. cbv zeta. rewrite handle_processors_map.
  apply (add_processors_wf (processors (_info dev))) in Hinv.
  destruct (fold_left _ _ _); [|split; [discriminate|exact Hinv]].
  split; [discriminate|]. split; [|constructor; [reflexivity|constructor]].
  unfold dict_wf. cbn. constructor; [intros []|constructor].
Qed.

Lemma dict_set_named (pname : string) (proc proc' : ProcessorInfo)
    (m : dict string ProcessorInfo) :
  named_processors m ->
  dict_get pname m = Some proc ->
  proc_name proc' = proc_name proc ->
  named_processors (dict_set pname proc' m).
Proof.
  unfold named_processors. intros Hnamed Hget Hname.
  induction m as [|[k v] m IH]; cbn in *; [discriminate|].
  inversion Hnamed as [|? ? Hkv Hrest]; subst. cbn [fst snd] in Hkv.
  change (keqb pname k) with (String.eqb pname k) in *.
  destruct (String.eqb_spec pname k) as [->|Hne].
  - inversion Hget; subst. constructor; [cbn; congruence|exact Hrest].
  - constructor; [exact Hkv|]. now apply IH.
Qed.

Lemma update_processor_named (dev : CmsisPackDevice) (debug : Element) (pname : string)
    (ap : APAddressBase) (self : TopologyState) :
  named_processors (_processors_map self) ->
  named_processors (_processors_map (update_processor dev debug pname ap self)).
Proof.
  intros Hnamed. unfold update_processor.
  destruct (dict_get pname (_processors_map self)) as [proc|] eqn:Hget; [|exact Hnamed].
  destruct (_get_int_attribute debug "Punit" (Some 0)); [|exact Hnamed].
  destruct (_get_int_attribute debug "address" (Some 0));
    cbn [tlog set_proc set_processors_map _processors_map];
    (eapply dict_set_named; [exact Hnamed|exact Hget|]);
    [destruct (dict_get "defaultResetSequence" (attrib debug))|]; reflexivity.
Qed.

Lemma handle_debug_returns (dev : CmsisPackDevice) (debug : Element)
    (self : TopologyState) :
  _processors_map self <> [] /\ named_processors (_processors_map self) ->
  fst (handle_debug dev debug self) = Ok tt
  /\ named_processors (_processors_map (snd (handle_debug dev debug self))).
Proof.
  intros [Hne Hnamed]. unfold handle_debug.
  assert (Htarget : exists pname,
             match dict_get "Pname" (attrib debug) with
             | Some pname => Ok pname
             | None => match dict_keys (_processors_map self) with
                       | first :: _ => Ok first
                       | [] => Raise IndexError
                       end
             end = Ok pname).
  { destruct (dict_get "Pname" (attrib debug)); [eauto|].
    destruct (_processors_map self) as [|[k v] m]; [contradiction|]. cbn. eauto. }
  destruct Htarget as (pname & ->).
  destruct (negb (dict_mem pname (_processors_map self))); [now split|].
  pose proof (debug_ap_address_processors dev debug self) as Hap.
  destruct (debug_ap_address dev debug self) as [[ap|e] self1]; cbn [fst snd] in *.
  - split; [reflexivity|]. apply update_processor_named. now rewrite Hap.
  - split; [reflexivity|]. cbn. now rewrite Hap.
Qed.

Lemma handle_debugs_returns (dev : CmsisPackDevice) (elems : list Element) :
  forall self,
    _processors_map self <> [] /\ named_processors (_processors_map self) ->
    fst (handle_debugs dev elems self) = Ok tt
    /\ named_processors (_processors_map (snd (handle_debugs dev elems self))).
Proof.
  induction elems as [|debug rest IH]; intros self Hinv; cbn [handle_debugs];
    [split; [reflexivity|apply Hinv]|].
  destruct (@handle_debug_returns dev debug self Hinv) as [Hok Hnamed].
  destruct (handle_debug_frame dev debug self) as [Hkeys _]. cbv zeta in Hkeys.
  destruct (handle_debug dev debug self) as [[[]|e] self1]; cbn [fst snd] in *;
    [|discriminate].
  apply IH. split; [|exact Hnamed].
  intros Hnil. rewrite Hnil in Hkeys. destruct Hinv as [Hne _].
  destruct (_processors_map self); [contradiction|discriminate].
Qed.

(** ** The walk sorts the elements *)

Lemma with_tag_tagged (tags : list string) (elems : list Element) :
  all_tagged tags (with_tag tags elems).
Proof.
  unfold all_tagged, with_tag. rewrite Forall_forall. intros e Hin.
  now apply filter_In in Hin.
Qed.

Lemma new_state_sorted (parent : Element) : well_sorted (new_state parent).
Proof. unfold well_sorted, new_state. cbn. repeat split; apply with_tag_tagged. Qed.

Lemma extract_loop_tagged (K : Type) (tags : list string) (filter : Filter K Element)
    (elems : list Element) :
  files_tagged tags filter ->
  all_tagged tags elems ->
  forall m self,
    all_tagged tags (dict_values m) ->
    match fst (extract_loop filter elems m self) with
    | Ok m' => all_tagged tags (dict_values m')
    | Raise _ => True
    end.
Proof.
  intros Hfiles. induction 1 as [|elem rest Helem _ IH]; intros m self Hm;
    cbn [extract_loop]; [exact Hm|].
  pose proof (Hfiles m elem self Hm Helem) as Hstep.
  destruct (filter m elem self) as [[[[]|e] m1] self1]; cbn [fst snd] in Hstep;
    [now apply IH|].
  destruct (caught_by_extract_items e); [now apply IH|exact I].
Qed.

Lemma extract_items_tagged (K : Type) (tags : list string) (filter : Filter K Element)
    (name : _DeviceInfo -> list Element) (self : CmsisPackDescription) :
  files_tagged tags filter ->
  Forall (fun state => all_tagged tags (name state)) (_state_stack self) ->
  forall values self',
    _extract_items name filter self = (Ok values, self') -> all_tagged tags values.
Proof.
  intros Hfiles Hstack values self'. unfold _extract_items.
  assert (Helems : all_tagged tags (flat_map name (_state_stack self))).
  { unfold all_tagged in *. rewrite Forall_forall in *. intros e Hin.
    apply in_flat_map in Hin. destruct Hin as (state & Hstate & He).
    specialize (Hstack state Hstate). rewrite Forall_forall in Hstack.
    exact (Hstack e He). }
  pose proof (@extract_loop_tagged K tags filter _ Hfiles Helems [] self
                (Forall_nil _)) as Hloop.
  destruct (extract_loop filter (flat_map name (_state_stack self)) [] self)
    as [[m|e] s1]; [|discriminate].
  intros E; inversion E; subst. exact Hloop.
Qed.

Lemma processors_filter_tagged (tags : list string) : files_tagged tags processors_filter.
Proof.
  intros m elem self Hm Helem. cbn [processors_filter fst snd].
  apply dict_values_set_Forall; [|exact Hm].
  destruct (dict_get (dict_get "Pname" (attrib elem)) m); exact Helem.
Qed.

Lemma memories_filter_tagged (tags : list string) : files_tagged tags memories_filter.
Proof.
  intros m elem self Hm Helem. unfold memories_filter.
  destruct (get_start_and_size elem self) as [[[start size]|e] self1]; [|exact Hm].
  match goal with
  | |- context [evict_overlapping ?p ?s ?z ?ks ?m1 self1] =>
      assert (Hm1 : all_tagged tags (dict_values m1));
      [|pose proof (@evict_overlapping_closed
                      (fun d => all_tagged tags (dict_values d)) p s z ks
                      (fun k d Hd => dict_del_values_incl k d Hd) m1 self1 Hm1) as Hev;
        destruct (evict_overlapping p s z ks m1 self1) as [[[[]|e] m2] self2]]
  end.
  - destruct (dict_mem _ m); [now apply dict_del_values_incl|exact Hm].
  - cbn [fst snd] in *. now apply dict_values_set_Forall.
  - exact Hev.
Qed.

Lemma algos_filter_tagged (tags : list string) : files_tagged tags algos_filter.
Proof.
  intros m elem self Hm Helem. unfold algos_filter.
  destruct (match dict_get "style" (attrib elem) with
            | Some style => negb (String.eqb (str_lower style) "keil")
            | None => false
            end); [exact Hm|].
  destruct (int_attrib elem "start"); [destruct (int_attrib elem "size")|];
    try exact Hm.
  now apply dict_values_set_Forall.
Qed.

Lemma debugs_filter_tagged (tags : list string) : files_tagged tags debugs_filter.
Proof.
  intros m elem self Hm Helem. unfold debugs_filter.
  destruct (dict_get "Pname" (attrib elem)); cbn [fst snd].
  - apply dict_values_set_Forall; [exact Helem|].
    destruct (dict_mem "*" m); [constructor|exact Hm].
  - constructor; [exact Helem|constructor].
Qed.

Lemma debugports_filter_tagged (tags : list string) : files_tagged tags debugports_filter.
Proof.
  intros m elem self Hm Helem. unfold debugports_filter.
  destruct (dict_get "__dp" (attrib elem)); [|exact Hm].
  now apply dict_values_set_Forall.
Qed.

Lemma accessports_filter_tagged (tags : list string) :
  files_tagged tags accessports_filter.
Proof.
  intros m elem self Hm Helem. unfold accessports_filter.
  destruct (dict_get "__apid" (attrib elem)); [|exact Hm].
  now apply dict_values_set_Forall.
Qed.

Lemma sorted_stable : log_stable sorted_description.
Proof. split; auto. Qed.

Lemma create_device_sorted (parent : Element) : keeps sorted_description (create_device parent).
Proof.
  intros self Hself. pose proof sorted_stable as Hst.
  assert (Hpick : forall (s : CmsisPackDescription) (pick : _DeviceInfo -> Prop),
             sorted_description s -> (forall info, well_sorted info -> pick info) ->
             Forall pick (_state_stack s)).
  { intros s pick [Hstack _] Hp. eapply Forall_impl; [exact Hp|exact Hstack]. }
  unfold create_device, bind, lift.
  destruct (_extract_families self) as [fams|]; [|exact Hself].
  pose proof (extract_items_keeps Hst processors
                (processors_filter_keeps sorted_description) self Hself) as H1.
  pose proof (@extract_items_tagged _ ["processor"] processors_filter processors self
                (@processors_filter_tagged _)
                (Hpick self _ Hself (fun info H => proj1 H))) as T1.
  fold _extract_processors in H1, T1.
  destruct (_extract_processors self) as [[procs|] s1]; cbn [snd] in H1; [|exact H1].
  specialize (T1 procs s1 eq_refl).
  pose proof (extract_items_keeps Hst memories (memories_filter_keeps Hst) s1 H1) as H2.
  pose proof (@extract_items_tagged _ ["memory"] memories_filter memories s1
                (@memories_filter_tagged _)
                (Hpick s1 _ H1 (fun info H => proj1 (proj2 H)))) as T2.
  fold _extract_memories in H2, T2.
  destruct (_extract_memories s1) as [[mems|] s2]; cbn [snd] in H2; [|exact H2].
  specialize (T2 mems s2 eq_refl).
  pose proof (extract_items_keeps Hst algos (algos_filter_keeps Hst) s2 H2) as H3.
  pose proof (@extract_items_tagged _ ["algorithm"] algos_filter algos s2
                (@algos_filter_tagged _)
                (Hpick s2 _ H2 (fun info H => proj1 (proj2 (proj2 H))))) as T3.
  fold _extract_algos in H3, T3.
  destruct (_extract_algos s2) as [[als|] s3]; cbn [snd] in H3; [|exact H3].
  specialize (T3 als s3 eq_refl).
  pose proof (extract_items_keeps Hst debugs (debugs_filter_keeps sorted_description)
                s3 H3) as H4.
  pose proof (@extract_items_tagged _ ["debug"] debugs_filter debugs s3
                (@debugs_filter_tagged _)
                (Hpick s3 _ H3 (fun info H => proj1 (proj2 (proj2 (proj2 H)))))) as T4.
  fold _extract_debugs in H4, T4.
  destruct (_extract_debugs s3) as [[dbgs|] s4]; cbn [snd] in H4; [|exact H4].
  specialize (T4 dbgs s4 eq_refl).
  pose proof (extract_items_keeps Hst debugports
                (debugports_filter_keeps sorted_description) s4 H4) as H5.
  pose proof (@extract_items_tagged _ ["debugport"] debugports_filter debugports s4
                (@debugports_filter_tagged _)
                (Hpick s4 _ H4 (fun info H => proj1 (proj2 (proj2 (proj2 (proj2 H)))))))
    as T5.
  fold _extract_debugports in H5, T5.
  destruct (_extract_debugports s4) as [[dps|] s5]; cbn [snd] in H5; [|exact H5].
  specialize (T5 dps s5 eq_refl).
  pose proof (extract_items_keeps Hst accessports
                (accessports_filter_keeps sorted_description) s5 H5) as H6.
  pose proof (@extract_items_tagged _ ["accessportV1"; "accessportV2"] accessports_filter
                accessports s5 (@accessports_filter_tagged _)
                (Hpick s5 _ H5 (fun info H => proj2 (proj2 (proj2 (proj2 (proj2 H)))))))
    as T6.
  fold _extract_accessports in H6, T6.
  destruct (_extract_accessports s5) as [[aps|] s6]; cbn [snd] in H6; [|exact H6].
  specialize (T6 aps s6 eq_refl).
  unfold CmsisPackDevice_init. cbn [element].
  destruct (_get_part_number_from_element parent) as [part|]; cbn [snd]; [|exact H6].
  destruct H6 as [Hstack Hdevs]. split; [exact Hstack|].
  cbn [append_device _devices]. apply Forall_app. split; [exact Hdevs|].
  constructor; [|constructor]. cbn [_info]. unfold well_sorted. cbn. now repeat split.
Qed.

Lemma parse_devices_sorted (parent : Element) :
  keeps sorted_description (_parse_devices parent).
Proof.
  pose proof sorted_stable as Hst.
  induction parent as [t a cs IH] using Element_induction.
  cbn [_parse_devices].
  apply bind_keeps; [|intros _].
  { intros self [Hstack Hdevs]. split; [|exact Hdevs].
    cbn [push_state snd set_state_stack _state_stack]. apply Forall_app.
    split; [exact Hstack|]. constructor; [apply new_state_sorted|constructor]. }
  apply bind_keeps; [|intros _].
  { destruct (str_in t ["device"; "variant"]); [apply create_device_sorted|].
    intros self Hself; exact Hself. }
  apply bind_keeps; [|intros _].
  - induction IH as [|c r Hc _ IHr]; [intros self Hself; exact Hself|].
    apply bind_keeps; [|intros _; exact IHr].
    destruct (recursed_into c); [exact Hc|intros self Hself; exact Hself].
  - intros self [Hstack Hdevs]. unfold pop_state.
    destruct (_state_stack self) as [|st stack] eqn:Hs;
      [split; [cbn [snd]; rewrite Hs; constructor|exact Hdevs]|].
    split; [|exact Hdevs]. cbn [snd set_state_stack _state_stack].
    rewrite Forall_forall in *. intros x Hin. apply Hstack.
    clear -Hin. revert st Hin. induction stack as [|y stack IHs]; intros st Hin;
      [destruct Hin|].
    cbn [removelast] in Hin. destruct Hin as [->|Hin]; [now left|].
    right. now apply IHs.
Qed.

Lemma init_sorted (pack : option CmsisPack) (pdsc : Element) :
  sorted_description (snd (CmsisPackDescription_init pack pdsc)).
Proof.
  unfold CmsisPackDescription_init.
  assert (Hfams : forall fams, keeps sorted_description (parse_families fams)).
  { induction fams as [|f rest IHf]; cbn [parse_families];
      [intros self Hself; exact Hself|].
    apply bind_keeps; [apply parse_devices_sorted|intros _; exact IHf]. }
  apply Hfams. split; constructor.
Qed.

(** X18. The walk sorts the elements by kind, and the merge passes keep them
    sorted: in every device of a description, whether its construction
    returned or raised, the processor list holds [processor] elements only,
    the memory list [memory] elements, the algorithm list [algorithm]
    elements, the debug list [debug] elements, the debug-port list
    [debugport] elements, and the access-port list [accessportV1] and
    [accessportV2] elements. *)
Theorem walk_sorts_elements_by_kind (pack : option CmsisPack) (pdsc : Element) :
  Forall (fun dev => well_sorted (_info dev))
    (_devices (snd (CmsisPackDescription_init pack pdsc)))
  /\ Forall (fun dev => forallb is_accessport (accessports (_info dev)) = true)
       (_devices (snd (CmsisPackDescription_init pack pdsc))).
Proof.
  destruct (init_sorted pack pdsc) as [_ Hdevs]. split; [exact Hdevs|].
  eapply Forall_impl; [|exact Hdevs]. intros dev (_ & _ & _ & _ & _ & Hap).
  apply forallb_forall. unfold all_tagged in Hap. rewrite Forall_forall in Hap.
  exact Hap.
Qed.

(** ** Reading the processor map *)

Lemma build_aps_map_returns (dev : CmsisPackDevice) (self : TopologyState) :
  forallb is_accessport (accessports (_info dev)) = true ->
  _processors_map self = [] ->
  exists self',
    _build_aps_map dev self = (Ok tt, self')
    /\ _apids self' = _apids (snd (_handle_accessports dev (set_built_apid_map self)))
    /\ dict_keys (_processors_map self')
       = dict_keys (_processors_map (_handle_processors dev self))
    /\ _processors_map self' <> []
    /\ dict_wf (_processors_map self') /\ named_processors (_processors_map self').
Proof.
  intros Hall Hempty. unfold _build_aps_map, _handle_accessports.
  pose proof (handle_accessports_loop_spec dev (accessports (_info dev))
                (set_built_apid_map self)) as Hacc.
  cbv zeta in Hacc. destruct Hacc as (_ & Herr & _).
  pose proof (handle_accessports_processors dev (accessports (_info dev))
                (set_built_apid_map self)) as Hprocs.
  destruct (handle_accessports_loop dev (accessports (_info dev))
              (set_built_apid_map self)) as [[[]|e] s1];
    cbn [fst snd] in *.
  2:{ destruct (Herr e eq_refl) as [_ Hno]. rewrite Hall in Hno. discriminate Hno. }
  cbn [set_built_apid_map _processors_map] in Hprocs. rewrite Hempty in Hprocs.
  assert (Hsame : _processors_map (_handle_processors dev s1)
                  = _processors_map (_handle_processors dev self))
    by (rewrite !handle_processors_map, Hprocs, Hempty; reflexivity).
  assert (Hinv0 : dict_wf (_processors_map s1) /\ named_processors (_processors_map s1))
    by (rewrite Hprocs; split; constructor).
  destruct (@handle_processors_ok dev s1 Hinv0) as (Hne & Hwf & Hnamed).
  destruct (handle_processors_kept dev s1) as [Hap1 _].
  destruct (_processors_map (_handle_processors dev s1)) as [|kv m] eqn:Hmap;
    [contradiction|].
  rewrite <- Hmap in Hne, Hwf, Hnamed.
  destruct (@handle_debugs_returns dev (debugs (_info dev)) (_handle_processors dev s1)
              (conj Hne Hnamed)) as [Hok Hnamed'].
  destruct (handle_debugs_frame dev (debugs (_info dev)) (_handle_processors dev s1))
    as [Hkeys _]. cbv zeta in Hkeys.
  destruct (handle_debugs_kept dev (debugs (_info dev)) (_handle_processors dev s1))
    as [Hap2 _].
  destruct (handle_debugs dev (debugs (_info dev)) (_handle_processors dev s1))
    as [[[]|e] s3]; cbn [fst snd] in *; [|discriminate].
  exists s3. split; [reflexivity|]. split; [congruence|].
  split; [now rewrite Hkeys, <- Hsame, Hmap|].
  split; [|split; [unfold dict_wf; rewrite Hkeys; exact Hwf|exact Hnamed']].
  intros Hnil. rewrite Hnil in Hkeys. rewrite Hmap in Hkeys. discriminate Hkeys.
Qed.

(** X17. For a device whose access-port list holds access-port elements
    only, reading the processor map returns and never raises. The map has
    exactly the processors that the processor elements define, in their
    order: the debug elements add and remove none. It is never empty, has
    one entry per name, and files every processor under its own name. Every
    device of a description is such a device, so reading the processor map
    of a device of a parsed pack never raises. *)
Theorem processors_map_returns :
  (forall dev,
      forallb is_accessport (accessports (_info dev)) = true ->
      exists pm self,
        processors_map dev = (Ok pm, self)
        /\ dict_keys pm
           = dict_keys (_processors_map (_handle_processors dev new_topology_state))
        /\ pm <> [] /\ dict_wf pm /\ named_processors pm)
  /\ (forall pack pdsc dev,
         In dev (_devices (snd (CmsisPackDescription_init pack pdsc))) ->
         exists pm self, processors_map dev = (Ok pm, self)).
Proof.
  assert (Hreturns : forall dev,
             forallb is_accessport (accessports (_info dev)) = true ->
             exists pm self,
               processors_map dev = (Ok pm, self)
               /\ dict_keys pm
                  = dict_keys (_processors_map (_handle_processors dev new_topology_state))
               /\ pm <> [] /\ dict_wf pm /\ named_processors pm).
  { intros dev Hall. unfold processors_map.
    destruct (@build_aps_map_returns dev new_topology_state Hall eq_refl)
      as (self & -> & _ & Hkeys & Hne & Hwf & Hnamed).
    exists (_processors_map self), self. now repeat split. }
  split; [exact Hreturns|].
  intros pack pdsc dev Hin.
  destruct (init_sorted pack pdsc) as [_ Hdevs]. rewrite Forall_forall in Hdevs.
  destruct (Hdevs dev Hin) as (_ & _ & _ & _ & _ & Hap).
  destruct (Hreturns dev) as (pm & self & Hmap & _); [|eauto].
  apply forallb_forall. unfold all_tagged in Hap. rewrite Forall_forall in Hap.
  exact Hap.
Qed.

(** X21. The device uses access-port ids exactly when one of its access-port
    elements is fully readable: the id map is not empty if and only if some
    element has a readable [__dp] (or none), a readable [index] or [address]
    according to its version, and a readable [__apid]. Access-port elements
    that are all malformed leave the device without ids. *)
Theorem uses_apid_iff_readable_access_port (dev : CmsisPackDevice) :
  forallb is_accessport (accessports (_info dev)) = true ->
  fst (uses_apid dev new_topology_state)
  = Ok (existsb (fun elem => match accessport_entry elem with
                             | Some _ => true
                             | None => false
                             end)
          (accessports (_info dev))).
Proof.
  intros Hall. unfold uses_apid, apid_map. cbn [new_topology_state _built_apid_map negb].
  destruct (@build_aps_map_returns dev new_topology_state Hall eq_refl)
    as (self & Hbuild & Hapids & _).
  change (mkTopologyState [] [] [] false []) with new_topology_state.
  rewrite Hbuild. cbn [fst]. f_equal. rewrite Hapids. unfold _handle_accessports.
  pose proof (handle_accessports_loop_spec dev (accessports (_info dev))
                (set_built_apid_map new_topology_state)) as Hacc.
  cbv zeta in Hacc. destruct Hacc as (_ & Herr & Hget).
  destruct (handle_accessports_loop dev (accessports (_info dev))
              (set_built_apid_map new_topology_state)) as [[[]|e] s1];
    cbn [fst snd] in *.
  2:{ destruct (Herr e eq_refl) as [_ Hno]. rewrite Hall in Hno. discriminate Hno. }
  specialize (Hget eq_refl).
  destruct (existsb _ (accessports (_info dev))) eqn:Hex.
  - apply existsb_exists in Hex. destruct Hex as (elem & Hin & Hentry).
    destruct (accessport_entry elem) as [[k a]|] eqn:He; [|discriminate].
    specialize (Hget k). unfold last_accessport in Hget.
    destruct (find _ (rev (accessports (_info dev)))) as [found|] eqn:Hfind.
    + apply find_some in Hfind. destruct Hfind as [_ Hfound].
      destruct (accessport_entry found) as [[k' a']|]; [|discriminate].
      cbn in Hget. destruct (_apids s1); [discriminate Hget|reflexivity].
    + apply in_rev in Hin. pose proof (find_none _ _ Hfind elem Hin) as Hno.
      cbn beta in Hno. rewrite He, Z.eqb_refl in Hno. discriminate Hno.
  - assert (Hnil : _apids s1 = []).
    { apply (@dict_all_absent _ _ _ EqKeyOk_Z). intros k. rewrite Hget.
      unfold last_accessport.
      destruct (find _ (rev (accessports (_info dev)))) as [found|] eqn:Hfind;
        [|reflexivity].
      apply find_some in Hfind. destruct Hfind as [Hin Hfound].
      apply in_rev in Hin.
      assert (Hnone : accessport_entry found = None).
      { destruct (accessport_entry found) eqn:He; [|reflexivity].
        assert (Htrue : existsb (fun elem => match accessport_entry elem with
                                             | Some _ => true
                                             | None => false
                                             end) (accessports (_info dev)) = true).
        { apply existsb_exists. exists found. split; [exact Hin|now rewrite He]. }
        rewrite Hex in Htrue. discriminate Htrue. }
      rewrite Hnone in Hfound. discriminate Hfound. }
    now rewrite Hnil.
Qed.

(** ** Debug elements that fail *)

(** X19. A debug element is applied to its processor field by field, and a
    failure keeps what was assigned before it: when the access port and
    [Punit] of the element can be read and its [address] cannot, the
    processor has the element's unit and access-port address afterwards,
    and its address, SVD path and reset sequence as they were; the failure is
    logged and the walk over the debug elements goes on. When [Punit] cannot
    be read, or the access port cannot be resolved, the processor is as it
    was. *)
Theorem failed_debug_element_updates_partially (dev : CmsisPackDevice) (debug : Element)
    (self : TopologyState) (pname : string) (proc : ProcessorInfo) :
  debug_target (dict_keys (_processors_map self)) debug = Some pname ->
  dict_get pname (_processors_map self) = Some proc ->
  let r := handle_debug dev debug self in
  fst r = Ok tt
  /\ (forall ap self1 unit_ e,
         debug_ap_address dev debug self = (Ok ap, self1) ->
         _get_int_attribute debug "Punit" (Some 0) = Ok unit_ ->
         _get_int_attribute debug "address" (Some 0) = Raise e ->
         dict_get pname (_processors_map (snd r))
         = Some (with_ap_address ap (with_unit unit_ proc))
         /\ topology_log (snd r) = topology_log self1 ++ [(WARNING, MalformedPack (_part dev))])
  /\ ((exists e, _get_int_attribute debug "Punit" (Some 0) = Raise e)
      \/ (exists e, fst (debug_ap_address dev debug self) = Raise e) ->
      _processors_map (snd r) = _processors_map self).
Proof.
  intros Htarget Hget. cbv zeta. unfold handle_debug.
  assert (Hname : match dict_get "Pname" (attrib debug) with
                  | Some pname => Ok pname
                  | None => match dict_keys (_processors_map self) with
                            | first :: _ => Ok first
                            | [] => Raise IndexError
                            end
                  end = Ok pname).
  { unfold debug_target in Htarget. destruct (dict_get "Pname" (attrib debug)).
    - now inversion Htarget.
    - destruct (dict_keys (_processors_map self)); [discriminate|]. now inversion Htarget. }
  rewrite Hname. unfold dict_mem. rewrite Hget. cbn [negb].
  pose proof (debug_ap_address_processors dev debug self) as Hap.
  destruct (debug_ap_address dev debug self) as [[ap|e] self1]; cbn [fst snd] in *.
  - split; [reflexivity|]. unfold update_processor. rewrite Hap, Hget. split.
    + intros ap' self1' unit_ e E Hunit Haddr. inversion E; subst.
      rewrite Hunit, Haddr. cbn [tlog set_proc set_processors_map _processors_map
                                  topology_log].
      split; [apply dict_get_set_same|reflexivity].
    + intros [[e He]|[e He]]; [|discriminate He]. now rewrite He.
  - split; [reflexivity|]. split; [discriminate|]. intros _. exact Hap.
Qed.

(** ** The processor merge *)

Lemma dict_update_wf (K V : Type) `{EqKeyOk K} (other : dict K V) :
  forall d, dict_wf d -> dict_wf (dict_update d other).
Proof.
  unfold dict_update. induction other as [|[k v] rest IH]; intros d Hwf; cbn [fold_left];
    [exact Hwf|].
  apply IH. cbn [fst snd]. now apply dict_set_wf.
Qed.

Lemma dict_get_member (K V : Type) `{EqKeyOk K} (k : K) (v : V) (d : dict K V) :
  dict_get k d = Some v -> In (k, v) d.
Proof.
  induction d as [|[k' v'] d IH]; cbn; [discriminate|].
  destruct (keqb k k') eqn:Ek.
  - intros E; inversion E; subst. apply keqb_spec in Ek. subst. now left.
  - intros Hget. right. now apply IH.
Qed.

Lemma dict_update_lookup (K V : Type) `{EqKeyOk K} (k : K) (d other : dict K V) :
  dict_wf other ->
  dict_get k (dict_update d other)
  = match dict_get k other with
    | Some v => Some v
    | None => dict_get k d
    end.
Proof.
  intros Hwf. destruct (dict_get k other) as [v|] eqn:Hget.
  - apply dict_get_member in Hget; [|exact _]. now apply dict_update_get.
  - apply dict_update_get_fresh. intros Hin. apply dict_get_in_keys in Hin.
    destruct Hin as (v & Hv). rewrite Hv in Hget. discriminate Hget.
Qed.

Lemma outermost_attribute_snoc (k : string) (elems : list Element) (elem : Element) :
  outermost_attribute k (elems ++ [elem])
  = match outermost_attribute k elems with
    | Some v => Some v
    | None => dict_get k (attrib elem)
    end.
Proof.
  unfold outermost_attribute. rewrite find_app_first.
  destruct (find (has_attr k) elems) as [e|] eqn:Hfind.
  - apply find_some in Hfind. destruct Hfind as [_ Hhas].
    unfold has_attr, dict_mem in Hhas. now destruct (dict_get k (attrib e)).
  - cbn [find]. unfold has_attr, dict_mem.
    destruct (dict_get k (attrib elem)) eqn:E; [exact E|reflexivity].
Qed.

Lemma processors_filter_merged (seen : list Element) (m : dict (option string) Element)
    (elem : Element) (self : CmsisPackDescription) :
  dict_wf (attrib elem) ->
  processors_merged seen m ->
  processors_merged (seen ++ [elem]) (snd (fst (processors_filter m elem self))).
Proof.
  intros Hwf Hm pname. cbn [processors_filter fst snd]. rewrite filter_app.
  cbn [filter].
  change (same_processor pname elem) with (keqb (dict_get "Pname" (attrib elem)) pname).
  destruct (keqb (dict_get "Pname" (attrib elem)) pname) eqn:Hsame.
  - apply keqb_spec in Hsame. rewrite Hsame. rewrite dict_get_set_same.
    specialize (Hm pname). destruct (dict_get pname m) as [r|].
    + destruct Hm as (Hwfr & Hattr & outer & inner & Hel & _).
      split; [rewrite inherit_attributes_copies_all;
              now apply (@dict_update_wf _ _ _ EqKeyOk_string)|].
      split.
      * intros k. rewrite inherit_attributes_copies_all, outermost_attribute_snoc.
        rewrite (@dict_update_lookup _ _ _ EqKeyOk_string _ _ _ Hwfr). now rewrite Hattr.
      * exists (filter (same_processor pname) seen), elem. now repeat split.
    + rewrite Hm. split; [exact Hwf|]. split.
      * intros k. unfold outermost_attribute. cbn [app find _inherit_attributes].
        unfold has_attr, dict_mem.
        destruct (dict_get k (attrib elem)) eqn:E; [now rewrite E|reflexivity].
      * exists [], elem. now repeat split.
  - rewrite app_nil_r. rewrite dict_get_set_other; [apply Hm|].
    intros ->. now rewrite keqb_refl in Hsame.
Qed.

Lemma processors_loop_merged (rest : list Element) (self : CmsisPackDescription) :
  Forall (fun elem => dict_wf (attrib elem)) rest ->
  forall seen m,
    processors_merged seen m ->
    exists m',
      extract_loop processors_filter rest m self = (Ok m', self)
      /\ processors_merged (seen ++ rest) m'.
Proof.
  induction 1 as [|elem rest Hwf _ IH]; intros seen m Hm.
  - exists m. rewrite app_nil_r. now split.
  - pose proof (@processors_filter_merged seen m elem self Hwf Hm) as Hstep.
    cbn [extract_loop]. cbn [processors_filter fst snd] in *.
    destruct (IH (seen ++ [elem]) _ Hstep) as (m' & Hloop & Hm').
    exists m'. split; [exact Hloop|]. now rewrite <- app_assoc in Hm'.
Qed.

(** X20. Over the whole state stack the processor merge resolves one
    processor per Pname (the elements without Pname being one group): every
    attribute of the resolved processor has the value given by the outermost
    element of the group that has the attribute, an inner element
    contributing only the attributes that no element outside it gives; the
    tag and the children are those of the innermost element. The pass never
    fails and writes no log. Attribute names are taken to be unique within an
    element, as they are in a dictionary. *)
Theorem resolved_processor_takes_outermost_attributes (self : CmsisPackDescription) :
  Forall (fun elem => dict_wf (attrib elem)) (flat_map processors (_state_stack self)) ->
  exists m,
    extract_loop processors_filter (flat_map processors (_state_stack self)) [] self
    = (Ok m, self)
    /\ _extract_processors self = (Ok (dict_values m), self)
    /\ processors_merged (flat_map processors (_state_stack self)) m.
Proof.
  intros Hwf.
  assert (H0 : processors_merged [] (@nil (option string * Element)))
    by (intros pname; reflexivity).
  destruct (@processors_loop_merged _ self Hwf [] [] H0) as (m & Hloop & Hm).
  exists m. split; [exact Hloop|]. split; [|exact Hm].
  unfold _extract_processors, _extract_items. now rewrite Hloop.
Qed.

(** ** Families that cannot be named *)

Lemma extract_families_raises (self : CmsisPackDescription) :
  nameless_family self -> _extract_families self = Raise KeyError.
Proof.
  unfold nameless_family, _extract_families.
  set (step := fun (acc : result (list string)) (state : _DeviceInfo) => _).
  assert (Hsticky : forall stack e, fold_left step stack (Raise e) = Raise e).
  { induction stack as [|st stack IH]; intros e; cbn [fold_left]; [reflexivity|].
    apply IH. }
  assert (Hstep : forall acc st,
             (exists acc', step (Ok acc) st = Ok acc')
             \/ step (Ok acc) st = Raise KeyError).
  { intros acc st. subst step. cbn beta.
    destruct (String.eqb (tag (element st)) "family").
    - destruct (dict_get "Dvendor" (attrib (element st)));
        [destruct (dict_get "Dfamily" (attrib (element st)))|]; eauto.
    - destruct (String.eqb (tag (element st)) "subFamily"); [|eauto].
      destruct (dict_get "DsubFamily" (attrib (element st))); eauto. }
  assert (Hbad : forall acc st,
             family_names (element st) = None -> step (Ok acc) st = Raise KeyError).
  { intros acc st. unfold family_names. subst step. cbn beta.
    destruct (String.eqb (tag (element st)) "family").
    - destruct (dict_get "Dvendor" (attrib (element st)));
        [destruct (dict_get "Dfamily" (attrib (element st)))|]; try discriminate;
        reflexivity.
    - destruct (String.eqb (tag (element st)) "subFamily"); [|discriminate].
      destruct (dict_get "DsubFamily" (attrib (element st))); [discriminate|reflexivity]. }
  generalize (@nil string) as acc.
  induction (_state_stack self) as [|st stack IH]; intros acc Hex;
    [inversion Hex|].
  cbn [fold_left]. inversion Hex as [? ? Hhere|? ? Hlater]; subst.
  - rewrite (Hbad acc st Hhere). apply Hsticky.
  - destruct (Hstep acc st) as [[acc' E]|E]; rewrite E; [now apply IH|apply Hsticky].
Qed.

Lemma create_device_nameless (parent : Element) (self : CmsisPackDescription) :
  nameless_family self -> create_device parent self = (Raise KeyError, self).
Proof.
  intros Hbad. unfold create_device, bind.
  now rewrite (extract_families_raises Hbad).
Qed.

Lemma parse_devices_nameless (parent : Element) :
  forall self,
    nameless_family self \/ family_names parent = None ->
    aborts_at_first_device self (_parse_devices parent) (device_elements parent).
Proof.
  induction parent as [t a cs IH] using Element_induction.
  intros self Hbad.
  set (s1 := set_state_stack (_state_stack self ++ [new_state (mkElement t a cs)]) self).
  assert (Hbad1 : nameless_family s1).
  { unfold nameless_family. subst s1. cbn [set_state_stack _state_stack].
    apply Exists_app. destruct Hbad as [Hbad|Hbad]; [now left|right].
    constructor. exact Hbad. }
  set (recurse := fix recurse (l : list Element) : M unit :=
                    match l with
                    | [] => ret tt
                    | elem :: rest =>
                        bind (if recursed_into elem then _parse_devices elem else ret tt)
                          (fun _ => recurse rest)
                    end).
  set (each := fix each (l : list Element) : list Element :=
                 match l with
                 | [] => []
                 | elem :: rest =>
                     (if recursed_into elem then device_elements elem else [])
                     ++ each rest
                 end).
  assert (Hrun : _parse_devices (mkElement t a cs) self
                 = match (if str_in t ["device"; "variant"]
                          then create_device (mkElement t a cs) else ret tt) s1 with
                   | (Ok _, s2) =>
                       match recurse cs s2 with
                       | (Ok _, s3) => pop_state s3
                       | (Raise e, s3) => (Raise e, s3)
                       end
                   | (Raise e, s2) => (Raise e, s2)
                   end) by reflexivity.
  assert (Hels : device_elements (mkElement t a cs)
                 = (if str_in t ["device"; "variant"] then [mkElement t a cs] else [])
                   ++ each cs) by reflexivity.
  assert (Hkids : forall s, nameless_family s ->
                            aborts_at_first_device s (recurse cs) (each cs)).
  { clear Hbad Hbad1 s1 Hrun Hels. induction IH as [|c r Hc _ IHr]; intros s Hs.
    - exists s. now repeat split.
    - change (recurse (c :: r))
        with (bind (if recursed_into c then _parse_devices c else ret tt)
                (fun _ => recurse r)).
      change (each (c :: r))
        with ((if recursed_into c then device_elements c else []) ++ each r).
      specialize (Hc s (or_introl Hs)).
      unfold aborts_at_first_device in *. unfold bind.
      destruct (recursed_into c).
      + destruct (device_elements c) as [|d ds].
        * destruct Hc as (s' & -> & Hstack & Hdevs). cbn [app].
          assert (Hs' : nameless_family s')
            by (unfold nameless_family in *; now rewrite Hstack).
          specialize (IHr s' Hs').
          destruct (each r).
          -- destruct IHr as (s2 & -> & Hstack2 & Hdevs2). exists s2.
             split; [reflexivity|]. split; congruence.
          -- destruct IHr as (s2 & -> & Hdevs2). exists s2.
             split; [reflexivity|congruence].
        * destruct Hc as (s' & -> & Hdevs). cbn [app]. exists s'. now split.
      + cbn [app ret]. apply (IHr s Hs). }
  unfold aborts_at_first_device. rewrite Hrun, Hels.
  destruct (str_in t ["device"; "variant"]).
  - rewrite (create_device_nameless _ Hbad1). cbn [app]. exists s1. split; reflexivity.
  - cbn [app ret]. specialize (Hkids s1 Hbad1).
    unfold aborts_at_first_device in Hkids.
    destruct (each cs).
    + destruct Hkids as (s3 & -> & Hstack & Hdevs). unfold pop_state. rewrite Hstack.
      subst s1. cbn [set_state_stack _state_stack _devices] in *.
      destruct (_state_stack self ++ [new_state (mkElement t a cs)]) eqn:Hpushed;
        [now destruct (_state_stack self)|].
      rewrite <- Hpushed, removelast_last. eexists. split; [reflexivity|].
      cbn [set_state_stack _state_stack _devices]. now split.
    + destruct Hkids as (s3 & -> & Hdevs). exists s3. now split.
Qed.

(** X23. A family element without [Dvendor] or [Dfamily], like a sub-family
    without [DsubFamily], is not recovered from: the walk below it raises
    [KeyError] at the first device or variant it comes to, having created no
    device, and the error leaves the walk; only when it comes to no device
    at all does the walk return, having created nothing. *)
Theorem family_without_names_aborts_walk (family : Element)
    (self : CmsisPackDescription) :
  family_names family = None ->
  aborts_at_first_device self (_parse_devices family) (device_elements family)
  /\ forall parent, create_device parent
                      (set_state_stack (_state_stack self ++ [new_state family]) self)
                    = (Raise KeyError,
                       set_state_stack (_state_stack self ++ [new_state family]) self).
Proof.
  intros Hbad. split; [apply parse_devices_nameless; now right|].
  intros parent. apply create_device_nameless.
  unfold nameless_family. cbn [set_state_stack _state_stack].
  apply Exists_app. right. constructor. exact Hbad.
Qed.

(** ** Vendor and families *)

Lemma extract_families_rooted (self : CmsisPackDescription) (state : _DeviceInfo)
    (more : list _DeviceInfo) (l : list string) :
  _state_stack self = state :: more ->
  String.eqb (tag (element state)) "family" = true ->
  _extract_families self = Ok l ->
  exists vendor_ name subs,
    dict_get "Dvendor" (attrib (element state)) = Some vendor_
    /\ dict_get "Dfamily" (attrib (element state)) = Some name
    /\ l = vendor_ :: name :: subs.
Proof.
  intros Hstack Hfamily. unfold _extract_families. rewrite Hstack.
  set (step := fun (acc : result (list string)) (state : _DeviceInfo) => _).
  assert (Hsticky : forall stack e, fold_left step stack (Raise e) = Raise e).
  { induction stack as [|st stack IH]; intros e; cbn [fold_left]; [reflexivity|].
    apply IH. }
  assert (Hgrows : forall stack acc l',
             fold_left step stack (Ok acc) = Ok l' -> exists subs, l' = acc ++ subs).
  { induction stack as [|st stack IH]; intros acc l'; cbn [fold_left].
    - intros E; inversion E; subst. exists []. now rewrite app_nil_r.
    - destruct (step (Ok acc) st) as [acc'|e] eqn:Hstep.
      + intros Hrest. destruct (IH _ _ Hrest) as (subs & ->).
        subst step. cbn beta in Hstep.
        destruct (String.eqb (tag (element st)) "family").
        * destruct (dict_get "Dvendor" (attrib (element st)));
            [destruct (dict_get "Dfamily" (attrib (element st)))|]; inversion Hstep.
          eexists. now rewrite <- app_assoc.
        * destruct (String.eqb (tag (element st)) "subFamily").
          -- destruct (dict_get "DsubFamily" (attrib (element st))); inversion Hstep.
             eexists. now rewrite <- app_assoc.
          -- inversion Hstep. now exists subs.
      + rewrite Hsticky. discriminate. }
  cbn [fold_left]. subst step. cbn beta. rewrite Hfamily.
  destruct (dict_get "Dvendor" (attrib (element state))) as [vendor_|];
    [destruct (dict_get "Dfamily" (attrib (element state))) as [name|]|];
    try (rewrite Hsticky; discriminate).
  intros Hrest. destruct (Hgrows _ _ _ Hrest) as (subs & ->).
  now exists vendor_, name, subs.
Qed.

Lemma create_device_families (parent : Element) (self : CmsisPackDescription) :
  (exists dev,
      fst (create_device parent self) = Ok tt
      /\ _devices (snd (create_device parent self)) = _devices self ++ [dev]
      /\ _extract_families self = Ok (families (_info dev)))
  \/ (exists e,
         fst (create_device parent self) = Raise e
         /\ _devices (snd (create_device parent self)) = _devices self).
Proof.
  pose proof (devices_stable (_devices self)) as Hst.
  set (P := fun s => _devices s = _devices self) in Hst.
  assert (Hself : P self) by reflexivity.
  unfold create_device, bind, lift.
  destruct (_extract_families self) as [fams|]; [|right; eexists; split; [reflexivity|cbn [snd]; assumption]].
  pose proof (extract_items_keeps Hst processors (processors_filter_keeps P) self Hself)
    as H1.
  fold _extract_processors in H1.
  destruct (_extract_processors self) as [[procs|] s1]; cbn [snd] in H1; [|right; eexists; split; [reflexivity|cbn [snd]; assumption]].
  pose proof (extract_items_keeps Hst memories (memories_filter_keeps Hst) s1 H1) as H2.
  fold _extract_memories in H2.
  destruct (_extract_memories s1) as [[mems|] s2]; cbn [snd] in H2; [|right; eexists; split; [reflexivity|cbn [snd]; assumption]].
  pose proof (extract_items_keeps Hst algos (algos_filter_keeps Hst) s2 H2) as H3.
  fold _extract_algos in H3.
  destruct (_extract_algos s2) as [[als|] s3]; cbn [snd] in H3; [|right; eexists; split; [reflexivity|cbn [snd]; assumption]].
  pose proof (extract_items_keeps Hst debugs (debugs_filter_keeps P) s3 H3) as H4.
  fold _extract_debugs in H4.
  destruct (_extract_debugs s3) as [[dbgs|] s4]; cbn [snd] in H4; [|right; eexists; split; [reflexivity|cbn [snd]; assumption]].
  pose proof (extract_items_keeps Hst debugports (debugports_filter_keeps P) s4 H4)
    as H5.
  fold _extract_debugports in H5.
  destruct (_extract_debugports s4) as [[dps|] s5]; cbn [snd] in H5; [|right; eexists; split; [reflexivity|cbn [snd]; assumption]].
  pose proof (extract_items_keeps Hst accessports (accessports_filter_keeps P) s5 H5)
    as H6.
  fold _extract_accessports in H6.
  destruct (_extract_accessports s5) as [[aps|] s6]; cbn [snd] in H6; [|right; eexists; split; [reflexivity|cbn [snd]; assumption]].
  unfold CmsisPackDevice_init. cbn [element].
  destruct (_get_part_number_from_element parent) as [part|]; [|right; eexists; split; [reflexivity|cbn [snd]; assumption]].
  left. eexists. split; [reflexivity|]. split.
  - cbn [snd append_device _devices]. rewrite H6. reflexivity.
  - reflexivity.
Qed.

Lemma create_device_of_family (G : Element -> Prop) (parent : Element)
    (self : CmsisPackDescription) (state : _DeviceInfo) (more : list _DeviceInfo) :
  _state_stack self = state :: more ->
  String.eqb (tag (element state)) "family" = true ->
  G (element state) ->
  Forall (of_family G) (_devices self) ->
  Forall (of_family G) (_devices (snd (create_device parent self))).
Proof.
  intros Hstack Hfamily HG Hdevs.
  destruct (create_device_families parent self)
    as [(dev & _ & -> & Hfams)|(e & _ & ->)]; [|exact Hdevs].
  apply Forall_app. split; [exact Hdevs|]. constructor; [|constructor].
  destruct (extract_families_rooted self Hstack Hfamily Hfams)
    as (vendor_ & name & subs & Hv & Hn & Hl).
  now exists (element state), vendor_, name, subs.
Qed.

Lemma parse_devices_of_family (G : Element -> Prop) (parent : Element) :
  forall self,
    rooted G parent self ->
    Forall (of_family G) (_devices self) ->
    Forall (of_family G) (_devices (snd (_parse_devices parent self))).
Proof.
  induction parent as [t a cs IH] using Element_induction.
  intros self Hroot Hdevs.
  set (s1 := set_state_stack (_state_stack self ++ [new_state (mkElement t a cs)]) self).
  assert (Hroot1 : exists state more,
             _state_stack s1 = state :: more
             /\ String.eqb (tag (element state)) "family" = true /\ G (element state)).
  { subst s1. cbn [set_state_stack _state_stack]. unfold rooted in Hroot.
    destruct (_state_stack self) as [|state more]; cbn [app]; eauto. }
  set (recurse := fix recurse (l : list Element) : M unit :=
                    match l with
                    | [] => ret tt
                    | elem :: rest =>
                        bind (if recursed_into elem then _parse_devices elem else ret tt)
                          (fun _ => recurse rest)
                    end).
  assert (Hrun : _parse_devices (mkElement t a cs) self
                 = match (if str_in t ["device"; "variant"]
                          then create_device (mkElement t a cs) else ret tt) s1 with
                   | (Ok _, s2) =>
                       match recurse cs s2 with
                       | (Ok _, s3) => pop_state s3
                       | (Raise e, s3) => (Raise e, s3)
                       end
                   | (Raise e, s2) => (Raise e, s2)
                   end) by reflexivity.
  assert (Hkids : forall s,
             (exists state more,
                 _state_stack s = state :: more
                 /\ String.eqb (tag (element state)) "family" = true
                 /\ G (element state)) ->
             Forall (of_family G) (_devices s) ->
             Forall (of_family G) (_devices (snd (recurse cs s)))).
  { clear Hroot Hdevs Hroot1 s1 Hrun. induction IH as [|c r Hc _ IHr];
      intros s Hs Hdevs; [exact Hdevs|].
    change (recurse (c :: r))
      with (bind (if recursed_into c then _parse_devices c else ret tt)
              (fun _ => recurse r)).
    unfold bind. destruct (recursed_into c); [|now apply IHr].
    assert (Hrooted : rooted G c s).
    { unfold rooted. destruct Hs as (state & more & -> & Hf & Hg). now split. }
    specialize (Hc s Hrooted Hdevs).
    destruct (_parse_devices c s) as [[[]|e] s'] eqn:Hchild; cbn [snd] in *;
      [|exact Hc].
    apply IHr; [|exact Hc].
    apply parse_devices_walked in Hchild. destruct Hchild as (Hstack & _).
    now rewrite Hstack. }
  rewrite Hrun.
  assert (Hown : Forall (of_family G)
                   (_devices (snd ((if str_in t ["device"; "variant"]
                                    then create_device (mkElement t a cs) else ret tt) s1)))
                 /\ (forall s2, (if str_in t ["device"; "variant"]
                                 then create_device (mkElement t a cs) else ret tt) s1
                                = (Ok tt, s2) ->
                                _state_stack s2 = _state_stack s1)).
  { destruct (str_in t ["device"; "variant"]).
    - destruct Hroot1 as (state & more & Hstack & Hf & Hg). split.
      + now apply (create_device_of_family (G := G) (mkElement t a cs) s1 Hstack).
      + intros s2 Hrun2. apply create_device_walked in Hrun2. apply Hrun2.
    - split; [exact Hdevs|]. intros s2 E. now inversion E. }
  destruct Hown as [Hown Hstack2].
  destruct ((if str_in t ["device"; "variant"]
             then create_device (mkElement t a cs) else ret tt) s1) as [[[]|e] s2];
    cbn [snd] in *; [|exact Hown].
  specialize (Hstack2 s2 eq_refl).
  assert (Hs2 : exists state more,
             _state_stack s2 = state :: more
             /\ String.eqb (tag (element state)) "family" = true /\ G (element state))
    by (rewrite Hstack2; exact Hroot1).
  specialize (Hkids s2 Hs2 Hown).
  destruct (recurse cs s2) as [[[]|e] s3]; cbn [snd] in *; [|exact Hkids].
  unfold pop_state. now destruct (_state_stack s3).
Qed.

(** X24. Every device of a description belongs to a family element of the
    pack that has a vendor and a name: its family list starts with the
    [Dvendor] and the [Dfamily] of that element, followed by the names of the
    sub-families above it. So reading its vendor never fails and gives the
    family's [Dvendor] up to the first colon, and its families are the family
    name followed by the sub-family names. *)
Theorem devices_have_vendor_and_family (pack : option CmsisPack) (pdsc : Element) :
  Forall (fun dev =>
            exists family vendor_ name subs,
              In family (iter_tag "family" pdsc)
              /\ dict_get "Dvendor" (attrib family) = Some vendor_
              /\ dict_get "Dfamily" (attrib family) = Some name
              /\ families (_info dev) = vendor_ :: name :: subs
              /\ vendor dev = Ok (before_colon vendor_)
              /\ device_families dev = name :: subs)
    (_devices (snd (CmsisPackDescription_init pack pdsc))).
Proof.
  set (G := fun elem => In elem (iter_tag "family" pdsc)).
  assert (Hfams : forall fams self,
             (forall f, In f fams -> String.eqb (tag f) "family" = true /\ G f) ->
             _state_stack self = [] ->
             Forall (of_family G) (_devices self) ->
             Forall (of_family G) (_devices (snd (parse_families fams self)))).
  { induction fams as [|f rest IHf]; intros self Hall Hstack Hdevs;
      cbn [parse_families]; [exact Hdevs|].
    unfold bind.
    assert (Hroot : rooted G f self).
    { unfold rooted. rewrite Hstack. apply Hall. now left. }
    pose proof (parse_devices_of_family (G := G) f self Hroot Hdevs) as Hone.
    destruct (_parse_devices f self) as [[[]|e] s1] eqn:Hrun; cbn [snd] in *;
      [|exact Hone].
    apply IHf; [intros f' Hin; apply Hall; now right| |exact Hone].
    apply parse_devices_walked in Hrun. destruct Hrun as (Hs & _).
    now rewrite Hs. }
  assert (Hall : Forall (of_family G)
                   (_devices (snd (CmsisPackDescription_init pack pdsc)))).
  { unfold CmsisPackDescription_init. apply Hfams; [|reflexivity|constructor].
    intros f Hin. split; [|exact Hin].
    unfold iter_tag, with_tag in Hin. apply filter_In in Hin. destruct Hin as [_ Htag].
    cbn in Htag. now rewrite orb_false_r in Htag. }
  eapply Forall_impl; [|exact Hall].
  intros dev (family & vendor_ & name & subs & HG & Hv & Hn & Hl).
  exists family, vendor_, name, subs. unfold vendor, device_families. rewrite Hl.
  now repeat split.
Qed.

(** * The claims on the memory merge, the flash synthesis and the recovery *)

(** ** The memory merge when the overlap warning cannot be built *)

Section DictAbsent.
Context {K V : Type} `{EqKeyOk K}.

Lemma dict_get_fresh (k : K) (d : dict K V) : ~ In k (dict_keys d) -> dict_get k d = None.
Proof.
  unfold dict_keys. induction d as [|[k' v'] d IH]; cbn; [reflexivity|]. intros Hnot.
  rewrite keqb_neq by (intros ->; apply Hnot; now left).
  apply IH. intros Hin. apply Hnot. now right.
Qed.

Lemma dict_get_del_same (k : K) (d : dict K V) :
  dict_wf d -> dict_get k (dict_del k d) = None.
Proof.
  unfold dict_wf. induction d as [|[k' v'] d IH]; cbn; [reflexivity|]. intros Hnd.
  inversion Hnd as [|? ? Hfresh Hrest]; subst.
  destruct (keqb k k') eqn:E.
  - apply keqb_spec in E. subst k'. now apply dict_get_fresh.
  - cbn. rewrite E. now apply IH.
Qed.

Lemma dict_get_del_none (k k0 : K) (d : dict K V) :
  dict_get k d = None -> dict_get k (dict_del k0 d) = None.
Proof.
  intros Hget. destruct (keqb k k0) eqn:E.
  - apply keqb_spec in E. subst k0.
    rewrite dict_del_absent; [exact Hget|]. unfold dict_mem. now rewrite Hget.
  - rewrite dict_get_del_other; [exact Hget|].
    intros ->. rewrite keqb_refl in E. discriminate E.
Qed.
End DictAbsent.

Lemma evict_overlapping_fails (pname : option string) (start size : Z) (e : exn)
    (rest : dict MemKey Element) :
  forall (kept : dict MemKey Element) (self : CmsisPackDescription),
    dict_wf (kept ++ rest) ->
    Forall valid_range (dict_values rest) ->
    _warned_overlapping_memory_regions self = false ->
    warning_error self = Some e ->
    existsb (fun kv => overlaps_new start size (snd kv) && keqb pname (snd (fst kv)))
      rest = true ->
    exists m' k prev,
      evict_overlapping pname start size (dict_keys rest) (kept ++ rest) self
      = (Raise e, m', self)
      /\ dict_get k m' = Some prev
      /\ overlaps_new start size prev = true
      /\ snd k = pname.
Proof.
  induction rest as [|[k v] rest IH]; intros kept self Hwf Hvalid Hw Herr Hex.
  - discriminate Hex.
  - assert (Hfresh : ~ In k (dict_keys kept)).
    { unfold dict_wf, dict_keys in *. rewrite map_app in Hwf. cbn in Hwf.
      apply NoDup_remove_2 in Hwf. intros Hin. apply Hwf. apply in_or_app. now left. }
    assert (Hwf_del : dict_wf (kept ++ rest)).
    { unfold dict_wf, dict_keys in *. rewrite map_app in *. cbn in Hwf.
      now apply NoDup_remove_1 in Hwf. }
    assert (Hwf_keep : dict_wf ((kept ++ [(k, v)]) ++ rest))
      by (rewrite <- app_assoc; exact Hwf).
    inversion Hvalid as [|? ? (ps & pz & Hps & Hpz) Hvalid']; subst.
    cbn [dict_keys map fst evict_overlapping].
    rewrite dict_get_app_fresh by exact Hfresh.
    rewrite (get_start_and_size_valid _ self Hps Hpz).
    cbn [existsb snd fst] in Hex.
    assert (Hov : ranges_overlap start size ps pz = overlaps_new start size v)
      by (unfold overlaps_new; now rewrite Hps, Hpz).
    rewrite Hov. destruct (overlaps_new start size v) eqn:Hover; cbn [andb orb] in Hex.
    + destruct (keqb pname (snd k)) eqn:Hsame; cbn [andb orb] in Hex |- *.
      * rewrite Hw. cbn [negb]. apply keqb_spec in Hsame.
        unfold warning_error in Herr. name_warning_filename.
        destruct (warning_filename self) as [fn|e1].
        -- destruct (top_of_stack self) as [state|e1].
           ++ destruct (_get_part_number_from_element (element state)) as [part|e1];
                [discriminate Herr|].
              inversion Herr; subst e1. exists (kept ++ (k, v) :: rest), k, v.
              rewrite dict_get_app_fresh by exact Hfresh. auto.
           ++ inversion Herr; subst e1. exists (kept ++ (k, v) :: rest), k, v.
              rewrite dict_get_app_fresh by exact Hfresh. auto.
        -- inversion Herr; subst e1. exists (kept ++ (k, v) :: rest), k, v.
           rewrite dict_get_app_fresh by exact Hfresh. auto.
      * rewrite dict_del_app_fresh by exact Hfresh. fold (dict_keys rest).
        now apply IH.
    + fold (dict_keys rest).
      replace (kept ++ (k, v) :: rest) with ((kept ++ [(k, v)]) ++ rest)
        by (now rewrite <- app_assoc).
      now apply IH.
Qed.

Lemma memories_filter_fails (m : dict MemKey Element) (elem : Element)
    (self : CmsisPackDescription) (start size : Z) (e : exn) :
  memory_map_ok m ->
  int_attrib elem "start" = Ok start ->
  int_attrib elem "size" = Ok size ->
  same_processor_overlap elem start size m = true ->
  _warned_overlapping_memory_regions self = false ->
  warning_error self = Some e ->
  exists m' k prev,
    memories_filter m elem self = (Raise e, m', self)
    /\ dict_get (memory_key elem start size) m' = None
    /\ dict_get k m' = Some prev
    /\ overlaps_new start size prev = true
    /\ snd k = snd (memory_key elem start size).
Proof.
  intros [Hwf Hvalid] Hs Hz Hsame Hw Herr. unfold memories_filter.
  rewrite (get_start_and_size_valid _ self Hs Hz).
  change (match dict_get "name" (attrib elem) with
          | Some n => n
          | None => match dict_get "id" (attrib elem) with
                    | Some i => i
                    | None => format_start_size start size
                    end
          end, dict_get "Pname" (attrib elem))
    with (memory_key elem start size).
  set (info := memory_key elem start size) in *.
  assert (Hdel : (if dict_mem info m then dict_del info m else m) = dict_del info m).
  { destruct (dict_mem info m) eqn:Hmem; [reflexivity|].
    symmetry. now apply dict_del_absent. }
  rewrite Hdel.
  destruct (@evict_overlapping_fails (dict_get "Pname" (attrib elem)) start size e
              (dict_del info m) [] self)
    as (m' & k & prev & Hev & Hget & Hover & Hk).
  - now apply dict_del_wf.
  - now apply dict_del_values_incl.
  - exact Hw.
  - exact Herr.
  - exact Hsame.
  - pose proof (@evict_overlapping_closed (fun d => dict_get info d = None)
                  (dict_get "Pname" (attrib elem)) start size
                  (dict_keys (dict_del info m))
                  (fun k0 d Hd => dict_get_del_none info k0 d Hd)
                  (dict_del info m) self (dict_get_del_same info Hwf)) as Hnew.
    cbn [app] in Hev. rewrite Hev in Hnew |- *. cbn [fst snd] in Hnew.
    exists m', k, prev. auto.
Qed.

Lemma memories_filter_silent (m : dict MemKey Element) (elem : Element)
    (self : CmsisPackDescription) (start size : Z) :
  memory_map_ok m ->
  int_attrib elem "start" = Ok start ->
  int_attrib elem "size" = Ok size ->
  same_processor_overlap elem start size m = false ->
  memories_filter m elem self = (Ok tt, merged_memories elem start size m, self).
Proof.
  intros Hok Hs Hz Hnone.
  rewrite (@memories_filter_spec m elem self start size EmptyString Hok Hs Hz).
  - unfold warn_once. now rewrite Hnone.
  - intros Hneeded. rewrite Hnone in Hneeded. discriminate Hneeded.
Qed.


(** ** Flash synthesis with the RAM an algorithm names *)

Lemma list_remove_middle (region : MemoryRegion) (pre post : list MemoryRegion) :
  Forall (fun r => region_eq r region = false) pre ->
  region_eq region region = true ->
  list_remove region (pre ++ region :: post) = Ok (pre ++ post).
Proof.
  intros Hpre Hrefl. induction Hpre as [|r pre Hr _ IH]; cbn [app list_remove].
  - now rewrite Hrefl.
  - now rewrite Hr, IH.
Qed.

Lemma split_from_uses_ram (region : MemoryRegion) (page : Z) (packAlgo : PackFlashAlgo)
    (ram : RamForAlgo) (sectors : list (Z * Z)) :
  forall s,
    Forall (uses_ram ram)
      (fst (split_from region page (get_pyocd_flash_algo packAlgo page ram) packAlgo
              sectors s)).
Proof.
  induction sectors as [|[offset sector] rest IH]; intros s; [constructor|].
  destruct (split_from_step region page (get_pyocd_flash_algo packAlgo page ram) packAlgo
              offset sector rest s)
    as [[_ ->]|[_ (flash & self2 & -> & _ & _ & Hf & _)]]; [apply IH|].
  cbn [fst]. constructor; [|apply IH].
  destruct Hf as (Hattrs & Htype & _). split; [exact Htype|]. now rewrite Hattrs.
Qed.

Lemma flashes_use_ram (region : MemoryRegion) (page : Z) (packAlgo : PackFlashAlgo)
    (ram : RamForAlgo) (s : MemoryMapState) :
  Forall (uses_ram ram) (flashes_with_ram region page packAlgo ram s).
Proof. apply split_from_uses_ram. Qed.

Lemma explicit_ram_size_regions (algo_element : Element) (s self : MemoryMapState)
    (start : Z) :
  _regions s = _regions self ->
  explicit_ram_size algo_element s start = explicit_ram_size algo_element self start.
Proof. intros Hsame. unfold explicit_ram_size. now rewrite Hsame. Qed.

Lemma convert_rom_region_grows (dev : CmsisPackDevice) (default_ram region : MemoryRegion)
    (acc acc' : list MemoryRegion * list MemoryRegion) (self self' : MemoryMapState) :
  convert_rom_region dev default_ram region acc self = (Ok acc', self') ->
  _regions self' = _regions self /\ incl (snd acc) (snd acc').
Proof.
  unfold convert_rom_region.
  destruct (negb _); [intros E; inversion E; subst; split; [reflexivity|apply incl_refl]|].
  destruct (_find_matching_algo dev region) as [algo_element|[]];
    try discriminate;
    [|intros E; inversion E; subst; split; [reflexivity|apply incl_refl]].
  destruct (dict_get "name" (attrib algo_element)) as [name|]; [|discriminate].
  destruct (_load_flash_algo name) as [[packAlgo|]|]; try discriminate;
    [|intros E; inversion E; subst; split; [reflexivity|apply incl_refl]].
  destruct (choose_page_size packAlgo) as [page|]; [|discriminate].
  destruct (select_ram_for_algo algo_element default_ram self) as [ram|]; [|discriminate].
  pose proof (split_from_boot region page (get_pyocd_flash_algo packAlgo page ram)
                packAlgo (sector_sizes packAlgo) self) as Hsp. cbv zeta in Hsp.
  unfold _split_flash_region_by_sector_size.
  destruct (split_from _ _ _ _ _ _) as [flashes self1].
  cbn [fst snd] in Hsp. destruct Hsp as (Hr & _).
  intros E; inversion E; subst. cbn [snd]. split; [exact Hr|].
  now apply incl_appl, incl_refl.
Qed.

Lemma convert_rom_regions_grows (dev : CmsisPackDevice) (default_ram : MemoryRegion)
    (regions : list MemoryRegion) :
  forall acc acc' self self',
    convert_rom_regions dev default_ram regions acc self = (Ok acc', self') ->
    _regions self' = _regions self /\ incl (snd acc) (snd acc').
Proof.
  induction regions as [|region rest IH]; intros acc acc' self self';
    cbn [convert_rom_regions].
  - intros E; inversion E; subst. split; [reflexivity|apply incl_refl].
  - destruct (convert_rom_region dev default_ram region acc self) as [[acc1|e] self1]
      eqn:Hstep; [|discriminate].
    intros Hrest. apply convert_rom_region_grows in Hstep. apply IH in Hrest.
    destruct Hstep as [H1 H2], Hrest as [H3 H4].
    split; [congruence|]. eapply incl_tran; eassumption.
Qed.

(** Whatever else is converted, the flash regions of a ROM region whose
    matched algorithm names its RAM are among the regions to add. *)
Lemma convert_rom_regions_explicit_ram (dev : CmsisPackDevice)
    (default_ram region : MemoryRegion) (algo_element : Element) (name : string)
    (packAlgo : PackFlashAlgo) (page start size : Z) (regions : list MemoryRegion) :
  region_type region = ROM ->
  _find_matching_algo dev region = Ok algo_element ->
  dict_get "name" (attrib algo_element) = Some name ->
  open_flash_algo name = Ok packAlgo ->
  choose_page_size packAlgo = Ok page ->
  int_attrib algo_element "RAMstart" = Ok start ->
  In region regions ->
  forall acc acc' self self',
    explicit_ram_size algo_element self start = Ok size ->
    convert_rom_regions dev default_ram regions acc self = (Ok acc', self') ->
    exists s,
      incl (flashes_with_ram region page packAlgo (mkRamForAlgo start size) s) (snd acc').
Proof.
  intros Hrom Hfind Hname Hopen Hpage Hstart.
  induction regions as [|r rest IH]; intros Hin acc acc' self self' Hsize;
    [destruct Hin|].
  cbn [convert_rom_regions].
  destruct (convert_rom_region dev default_ram r acc self) as [[acc1|e] self1] eqn:Hstep;
    [|discriminate].
  intros Hrest. destruct Hin as [->|Hin].
  - rewrite (convert_rom_region_explicit_ram dev self default_ram region acc
               Hrom Hfind Hname Hopen Hpage Hstart Hsize) in Hstep.
    inversion Hstep; subst acc1 self1. clear Hstep.
    apply convert_rom_regions_grows in Hrest. destruct Hrest as [_ Hincl].
    exists self. cbn [snd] in Hincl. unfold flashes_with_ram.
    intros f Hf. apply Hincl. apply in_or_app. now right.
  - apply convert_rom_region_grows in Hstep. destruct Hstep as [Hregions _].
    apply (IH Hin acc1 acc' self1 self'); [|exact Hrest].
    rewrite <- Hsize. now apply explicit_ram_size_regions.
Qed.

(** C4, as the code has it. Flash synthesis for the whole device is
    abandoned whenever the device has no default RAM, whatever the
    algorithms say: the region list is left as it is, every ROM region
    stays a ROM region, and a warning is logged. With a default RAM, a ROM
    region whose matched algorithm can be decoded and gives an explicit
    [RAMstart] is converted with that RAM, of size [RAMsize] if given, else
    the remaining length of the region containing the RAM start, else
    128 KiB: every flash region split from it carries the algorithm image
    built for that RAM, the flash regions are part of every memory map the
    device returns, and when the other regions are passed over the memory
    map is the other regions followed by these flash regions. *)
Theorem flash_synthesis_needs_default_ram (dev : CmsisPackDevice) :
  let built := _build_memory_regions dev new_memory_map_state in
  (forall self,
      _default_ram self = None ->
      _build_flash_regions dev self
      = (Ok tt, dlog WARNING (NoDefaultRam (_part dev)) self))
  /\ (_default_ram built = None -> fst (memory_map dev) = Ok (_regions built))
  /\ (forall default_ram region algo_element name packAlgo page start size,
         _default_ram built = Some default_ram ->
         In region (_regions built) ->
         region_type region = ROM ->
         _find_matching_algo dev region = Ok algo_element ->
         dict_get "name" (attrib algo_element) = Some name ->
         open_flash_algo name = Ok packAlgo ->
         choose_page_size packAlgo = Ok page ->
         int_attrib algo_element "RAMstart" = Ok start ->
         explicit_ram_size algo_element built start = Ok size ->
         let ram := mkRamForAlgo start size in
         (forall s, Forall (uses_ram ram) (flashes_with_ram region page packAlgo ram s))
         /\ (forall regions,
                fst (memory_map dev) = Ok regions ->
                exists s, incl (flashes_with_ram region page packAlgo ram s) regions)
         /\ (forall pre post,
                _regions built = pre ++ region :: post ->
                Forall (passed_over dev) pre ->
                Forall (passed_over dev) post ->
                Forall (fun r => region_eq r region = false) pre ->
                region_eq region region = true ->
                fst (memory_map dev)
                = Ok (pre ++ post ++ flashes_with_ram region page packAlgo ram built))).
Proof.
  cbv zeta. set (built := _build_memory_regions dev new_memory_map_state).
  split; [|split].
  - intros self Hnone. unfold _build_flash_regions. now rewrite Hnone.
  - intros Hnone. unfold memory_map, _build_flash_regions. fold built. rewrite Hnone.
    destruct (negb _); reflexivity.
  - intros default_ram region algo_element name packAlgo page start size
      Hram Hin Hrom Hfind Hname Hopen Hpage Hstart Hsize.
    split; [|split].
    + intros s. apply flashes_use_ram.
    + intros regions. unfold memory_map, _build_flash_regions. fold built. rewrite Hram.
      destruct (convert_rom_regions dev default_ram (_regions built) ([], []) built)
        as [[[to_delete to_add]|e] self1] eqn:Hconv; [|discriminate].
      destruct (remove_regions to_delete self1) as [[[]|e] self2]; [|discriminate].
      destruct (@convert_rom_regions_explicit_ram dev default_ram region algo_element
                  name packAlgo page start size (_regions built)
                  Hrom Hfind Hname Hopen Hpage Hstart Hin
                  ([], []) (to_delete, to_add) built self1 Hsize Hconv) as (s & Hincl).
      cbn [snd] in Hincl. intros Hmap. exists s. intros f Hf.
      assert (Hregions : regions = _regions self2 ++ to_add).
      { destruct (negb _); cbn [fst dlog set_regions _regions] in Hmap;
          inversion Hmap; reflexivity. }
      rewrite Hregions. apply in_or_app. right. now apply Hincl.
    + intros pre post Hsplit Hpre Hpost Hne Hrefl.
      unfold memory_map, _build_flash_regions. fold built. rewrite Hram, Hsplit.
      rewrite (convert_rom_regions_skips default_ram Hpre).
      cbn [convert_rom_regions].
      rewrite (convert_rom_region_explicit_ram dev built default_ram region ([], [])
                 Hrom Hfind Hname Hopen Hpage Hstart Hsize).
      cbn [fst snd app].
      pose proof (convert_rom_regions_skips default_ram Hpost []) as Hskip.
      rewrite app_nil_r in Hskip. rewrite Hskip. cbn [convert_rom_regions remove_regions].
      pose proof (split_from_boot region page
                    (get_pyocd_flash_algo packAlgo page (mkRamForAlgo start size))
                    packAlgo (sector_sizes packAlgo) built) as Hsp.
      cbv zeta in Hsp. destruct Hsp as (Hregions & _).
      unfold _split_flash_region_by_sector_size at 1 2. rewrite Hregions, Hsplit.
      rewrite (list_remove_middle post Hne Hrefl). cbn [remove_regions].
      destruct (negb _); cbn [fst dlog set_regions _regions];
        unfold flashes_with_ram, _split_flash_region_by_sector_size;
        now rewrite <- app_assoc.
Qed.

(** ** Recovery from malformed elements *)

(** C5, as the code has it. Within a merge pass an element is skipped when
    the start or size of a memory or algorithm element is missing or not a
    number, or the [__dp] of a debug port or the [__apid] of an access port
    is missing: the error is caught and logged, the collection is left as it
    was and the pass goes on with the remaining elements. A [__dp] or
    [__apid] that is present is not parsed by the pass: the element is filed
    under the text of the attribute, number or not. So the processor,
    algorithm, debug, debug-port and access-port passes return a collection,
    and so does the memory pass run for a device or variant of a pack that
    was not opened from a directory. A device or variant element without a
    part number is not recovered: the error leaves the walk and no device is
    created; the walk of every element above it raises as well, and so does
    the walk of the pack's families. *)
Theorem malformed_elements_recovery (self : CmsisPackDescription) :
  (returns _extract_processors self /\ returns _extract_algos self
   /\ returns _extract_debugs self /\ returns _extract_debugports self
   /\ returns _extract_accessports self
   /\ (forall state,
          top_of_stack self = Ok state ->
          str_in (tag (element state)) ["device"; "variant"] = true ->
          opened_from_directory self = false ->
          returns _extract_memories self))
  /\ (forall bad,
         (unreadable bad "start" \/ unreadable bad "size" ->
          skipped_by memories_filter bad
          /\ (keil_style bad = true -> skipped_by algos_filter bad))
         /\ (has_attr "__dp" bad = false -> skipped_by debugports_filter bad)
         /\ (has_attr "__apid" bad = false -> skipped_by accessports_filter bad))
  /\ (forall elem text m s,
         (dict_get "__dp" (attrib elem) = Some text ->
          debugports_filter m elem s = (Ok tt, dict_set text elem m, s))
         /\ (dict_get "__apid" (attrib elem) = Some text ->
             accessports_filter m elem s = (Ok tt, dict_set text elem m, s)))
  /\ (forall parent e,
         str_in (tag parent) ["device"; "variant"] = true ->
         _get_part_number_from_element parent = Raise e ->
         exists e' self',
           _parse_devices parent self = (Raise e', self')
           /\ _devices self' = _devices self)
  /\ (forall parent child,
         In child (children parent) -> recursed_into child = true ->
         never_returns (_parse_devices child) ->
         never_returns (_parse_devices parent))
  /\ (forall fams family,
         In family fams -> never_returns (_parse_devices family) ->
         never_returns (parse_families fams)).
Proof.
  split; [|split; [|split; [|split; [|split]]]].
  - repeat split.
    + apply extract_items_returns. intros m elem s e m' s' E. inversion E.
    + apply extract_items_returns. intros m elem s e m' s'. unfold algos_filter.
      destruct (match dict_get "style" (attrib elem) with
                | Some style => negb (String.eqb (str_lower style) "keil")
                | None => false
                end); [discriminate|].
      destruct (int_attrib elem "start") eqn:Hs;
        [|intros E; inversion E; subst; eapply int_attrib_error; eassumption].
      destruct (int_attrib elem "size") eqn:Hz;
        [|intros E; inversion E; subst; eapply int_attrib_error; eassumption].
      discriminate.
    + apply extract_items_returns. intros m elem s e m' s'. unfold debugs_filter.
      destruct (dict_get "Pname" (attrib elem)); discriminate.
    + apply extract_items_returns. intros m elem s e m' s'. unfold debugports_filter.
      destruct (dict_get "__dp" (attrib elem)); [discriminate|].
      intros E; inversion E; reflexivity.
    + apply extract_items_returns. intros m elem s e m' s'. unfold accessports_filter.
      destruct (dict_get "__apid" (attrib elem)); [discriminate|].
      intros E; inversion E; reflexivity.
    + intros state Htop Htag Hzip. eapply extract_memories_returns; eassumption.
  - intros bad. repeat split.
    + now apply memories_skip.
    + intros Hstyle. now apply algos_skip.
    + apply debugports_skip.
    + apply accessports_skip.
  - intros elem text m s. split; intros Hget.
    + unfold debugports_filter. now rewrite Hget.
    + unfold accessports_filter. now rewrite Hget.
  - intros [t a cs] e Htag Hpart. cbn [tag] in Htag. cbn [_parse_devices].
    unfold bind at 1. cbn [push_state]. unfold bind at 1. rewrite Htag.
    destruct (@create_device_without_part (fun s => _devices s = _devices self)
                (mkElement t a cs) e
                (set_state_stack (_state_stack self ++ [new_state (mkElement t a cs)]) self)
                (devices_stable _) Hpart eq_refl) as (e' & self' & -> & Hdev).
    eauto.
  - exact parse_devices_never_returns.
  - exact parse_families_never_returns.
Qed.

End Model.

(** * The model on concrete packs *)

Local Abbreviation init :=
  (CmsisPackDescription_init py_int0 py_lower py_format_start_size None).
Local Abbreviation memory_map_of :=
  (memory_map py_int0 py_lower py_strip py_format_sector_suffix
     example_open_flash_algo same_range).
Local Abbreviation build_memory_regions_of :=
  (_build_memory_regions py_int0 py_lower py_strip).
Local Abbreviation build_flash_regions_of :=
  (_build_flash_regions py_int0 py_format_sector_suffix example_open_flash_algo same_range).

(** C1. The processor merge copies every attribute of the outer element onto
    the inner one, so the outer value replaces the inner element's own: a
    device processor with [Dfpu="NO_FPU"] under a family processor with
    [Dfpu="SP_FPU"] is resolved with [Dfpu="SP_FPU"]. *)
Theorem processor_merge_overwrites_descendant :
  (forall to_elem from_elem,
      attrib (_inherit_attributes to_elem (Some from_elem))
      = dict_update (attrib to_elem) (attrib from_elem))
  /\ dict_get "Dfpu" (attrib device_processor) = Some "NO_FPU"
  /\ map (fun dev => map attrib (processors (_info dev)))
       (_devices (snd (init pdsc_inheritance)))
     = [[ [("Dfpu", "SP_FPU"); ("Dcore", "Cortex-M4")] ]].
Proof.
  split; [exact inherit_attributes_copies_all|]. split; reflexivity.
Qed.



(** Two devices of one pack with an overlap each: the later memory evicts
    the earlier one in both, and the warning is logged for the first only. *)
Example overlap_warned_once_per_pack :
  map (fun dev => memories (_info dev)) (_devices (snd (init pdsc_overlap)))
  = [[memory_overlapping]; [memory_overlapping]]
  /\ LOG (snd (init pdsc_overlap))
     = [(WARNING, OverlappingMemoryRegions (Some "unknown") "DevB")].
Proof. split; reflexivity. Qed.

Lemma debug_merge_homogeneous_witness :
  fst (extract_loop debugs_filter [debug_A; debug_global; debug_B] [] description_overlap)
  = Ok [("cm01", debug_B)].
Proof.
  destruct (debug_merge_homogeneous [debug_A; debug_global; debug_B] description_overlap)
    as (m & Hloop & _ & _ & Hex).
  rewrite Hloop. cbn [fst]. f_equal.
  exact (Hex debug_A debug_global debug_B eq_refl eq_refl eq_refl eq_refl).
Defined.

Lemma first_containing_algo_match_witness :
  _find_matching_algo py_int0 device_default_ram region_rom = Ok algorithm_explicit_ram.
Proof.
  assert (Hres : resolved_algos py_int0 py_lower (algos (_info device_default_ram))).
  { exists (mkDescription None [_info device_default_ram] [] false []).
    exists (mkDescription None [_info device_default_ram] [] false []).
    reflexivity. }
  exact (proj1 (first_containing_algo_match py_format_sector_suffix
                  example_open_flash_algo device_default_ram region_rom Hres)).
Defined.

Lemma named_memory_without_access_skipped_witness :
  build_memory_region py_int0 py_lower py_strip "DevJ" memory_no_access
    new_memory_map_state
  = dlog DEBUG (IgnoringMemoryError "DevJ" KeyError) new_memory_map_state.
Proof.
  exact (proj1 (named_memory_without_access_skipped py_int0 py_lower py_strip "DevJ"
                  memory_no_access new_memory_map_state eq_refl) eq_refl).
Defined.

(** The device has no default RAM; its algorithm names its RAM, matches the
    ROM and can be decoded; the ROM stays a ROM. *)
Lemma flash_abandoned_despite_explicit_ram :
  _devices (snd (init (pdsc_of [element_no_default_ram]))) = [device_no_default_ram]
  /\ int_attrib py_int0 algorithm_explicit_ram "RAMstart" = Ok 0x20000000
  /\ _find_matching_algo py_int0 device_no_default_ram region_rom
     = Ok algorithm_explicit_ram
  /\ example_open_flash_algo "Flash/Example.FLM" = Ok example_flm
  /\ fst (memory_map_of device_no_default_ram) = Ok [region_rom; region_ram].
Proof. repeat split; reflexivity. Qed.

Lemma flash_synthesis_needs_default_ram_witness :
  build_flash_regions_of device_no_default_ram
    (build_memory_regions_of device_no_default_ram new_memory_map_state)
  = (Ok tt,
     dlog WARNING (NoDefaultRam "DevD")
       (build_memory_regions_of device_no_default_ram new_memory_map_state))
  /\ fst (memory_map_of device_default_ram)
     = Ok ([] ++ [region_ram_default]
           ++ flashes_with_ram py_format_sector_suffix region_rom 0x400 example_flm
                (mkRamForAlgo 0x20000000 0x1000)
                (build_memory_regions_of device_default_ram new_memory_map_state)).
Proof.
  split.
  - exact (proj1 (flash_synthesis_needs_default_ram py_int0 py_lower py_strip
                    py_format_sector_suffix example_open_flash_algo same_range
                    device_no_default_ram)
             (build_memory_regions_of device_no_default_ram new_memory_map_state)
             eq_refl).
  - refine (proj2 (proj2 (proj2 (proj2 (flash_synthesis_needs_default_ram py_int0 py_lower
                    py_strip py_format_sector_suffix example_open_flash_algo same_range
                    device_default_ram))
             region_ram_default region_rom algorithm_explicit_ram "Flash/Example.FLM"
             example_flm 0x400 0x20000000 0x1000
             eq_refl _ eq_refl eq_refl eq_refl eq_refl eq_refl eq_refl eq_refl))
             [] [region_ram_default] eq_refl _ _ _ eq_refl).
    + left. reflexivity.
    + constructor.
    + constructor; [|constructor]. left. discriminate.
    + constructor.
Defined.

(** With the RAM marked default, the same ROM is split into flash regions
    whose algorithm image uses the RAM the algorithm names. *)
Example flash_uses_explicit_ram :
  map (fun r => (region_name r, region_type r, flash_range r,
                 option_map (fun fa => image_ram (algo fa)) (flash_attrs r)))
    match fst (memory_map_of device_default_ram) with
    | Ok regions => regions
    | Raise _ => []
    end
  = [("IRAM1", RAM, (0x20000000, 0x20007FFF, 0), None);
     ("IROM1_0x1000", FLASH, (0, 0xFFFF, 0x1000), Some (mkRamForAlgo 0x20000000 0x1000));
     ("IROM1_0x2000", FLASH, (0x10000, 0x1FFFF, 0x2000),
      Some (mkRamForAlgo 0x20000000 0x1000))].
Proof. reflexivity. Qed.

(** A device without [Dname] ahead of a well-formed one: the walk raises and
    delivers no device, where the well-formed device alone is resolved. *)
Lemma nameless_device_aborts_siblings :
  fst (init pdsc_nameless_first) = Raise ValueError
  /\ _devices (snd (init pdsc_nameless_first)) = []
  /\ fst (init pdsc_named_only) = Ok tt
  /\ map _part (_devices (snd (init pdsc_named_only))) = ["DevF"].
Proof. repeat split; reflexivity. Qed.

Lemma malformed_elements_recovery_witness :
  exists e' self',
    _parse_devices py_int0 py_lower py_format_start_size element_nameless
      (mkDescription None [] [] false [])
    = (Raise e', self')
    /\ _devices self' = [].
Proof.
  exact (proj1 (proj2 (proj2 (proj2 (malformed_elements_recovery py_int0 py_lower
                                       py_format_start_size
                                       (mkDescription None [] [] false [])))))
           element_nameless ValueError eq_refl eq_refl).
Defined.

(** A merge pass skips a memory element without its size and keeps the
    others. *)
Example sizeless_memory_skipped :
  fst (_extract_memories py_int0 py_format_start_size
         (mkDescription None
            [mk_DeviceInfo element_named [] [] [memory_sizeless; memory_boot_2] [] [] [] []]
            [] false []))
  = Ok [memory_boot_2].
Proof. reflexivity. Qed.

(** Two memory elements marked startup give two regions with the flag. *)
Lemma two_startup_regions_both_boot :
  fst (memory_map_of device_two_boot)
  = Ok [mkMemoryRegion "IROM1" 0 0x1000 "rx" ROM false true false None None;
        mkMemoryRegion "IROM2" 0x10000 0x1000 "rx" ROM false true false None None]
  /\ count_boot
       [mkMemoryRegion "IROM1" 0 0x1000 "rx" ROM false true false None None;
        mkMemoryRegion "IROM2" 0x10000 0x1000 "rx" ROM false true false None None]
     = 2%nat.
Proof. split; reflexivity. Qed.

Lemma boot_flag_synthesized_at_most_once_witness :
  match fst (memory_map_of device_default_ram) with
  | Ok regions => (count_boot regions <= 1)%nat
  | Raise _ => False
  end.
Proof.
  pose proof (proj2 (proj2 (boot_flag_synthesized_at_most_once py_int0 py_lower py_strip
                              py_format_sector_suffix
                              example_open_flash_algo same_range device_default_ram)))
    as Hmost.
  destruct (memory_map_of device_default_ram) as [[regions|e] self] eqn:Hmap.
  - cbn [fst]. exact (Hmost regions self eq_refl eq_refl).
  - vm_compute in Hmap. discriminate Hmap.
Defined.

(** A processor that no debug element is aimed at ends on access port -1,
    not on access port 0. *)
Lemma untargeted_processor_keeps_placeholder :
  fst (processors_map py_int0 device_no_debug)
  = Ok [("Cortex-M4",
         mkProcessorInfo "Cortex-M4" (-1) 1 (APv1Address (-1) 0) 0 None "ResetSystem")]
  /\ APv1Address (-1) 0 <> APv1Address 0 0.
Proof. split; [reflexivity|discriminate]. Qed.

Lemma processor_ap_address_resolution_witness :
  match fst (processors_map py_int0 device_plain_debug) with
  | Ok pm =>
      match dict_get "Cortex-M4" pm with
      | Some proc => ap_address proc = APv1Address 0 default_dp
      | None => False
      end
  | Raise _ => False
  end.
Proof.
  pose proof (@processor_ap_address_resolution py_int0 device_plain_debug) as Hres.
  destruct (processors_map py_int0 device_plain_debug) as [[pm|e] self] eqn:Hmap.
  - cbn [fst]. specialize (Hres pm self "Cortex-M4").
    assert (Hpm : pm = [("Cortex-M4",
                         mkProcessorInfo "Cortex-M4" 0 1 (APv1Address 0 0) 0
                           (Some "dev.svd") "ResetSystem")])
      by (vm_compute in Hmap; congruence).
    destruct (dict_get "Cortex-M4" pm) as [proc|] eqn:Hget.
    + refine (proj2 (Hres proc eq_refl eq_refl) [] debug_global [] 0 eq_refl _ _
                eq_refl eq_refl eq_refl).
      * rewrite Hpm. reflexivity.
      * intros d' [].
    + rewrite Hpm in Hget. discriminate Hget.
  - vm_compute in Hmap. discriminate Hmap.
Defined.

(** * Further properties on concrete packs *)

Lemma small_page_size_becomes_smallest_sector_witness :
  match choose_page_size example_flm_small_page with
  | Ok page => In page [0x1000; 0x2000] /\ forall s, In s [0x1000; 0x2000] -> page <= s
  | Raise _ => False
  end.
Proof.
  assert (Hle : page_size example_flm_small_page <= 32) by (vm_compute; discriminate).
  pose proof (small_page_size_becomes_smallest_sector py_format_sector_suffix
                example_flm_small_page Hle) as H.
  destruct (choose_page_size example_flm_small_page) as [page|e].
  - split; [exact (proj1 H)|exact (proj1 (proj2 H))].
  - destruct H as [_ Hempty]. discriminate Hempty.
Defined.

Lemma flash_regions_tile_rom_region_witness :
  tiles 0 0x1FFFF
    (fst (_split_flash_region_by_sector_size py_format_sector_suffix example_rom 0x400
            (get_pyocd_flash_algo example_flm 0x400 (mkRamForAlgo 0x20000000 0x1000))
            example_flm new_memory_map_state)).
Proof.
  assert (Hfits : table_fits (region_length example_rom) (sector_sizes example_flm)).
  { unfold table_fits. cbn. repeat split; lia. }
  exact (proj1 (flash_regions_tile_rom_region py_format_sector_suffix example_rom 0x400
                  (get_pyocd_flash_algo example_flm 0x400 (mkRamForAlgo 0x20000000 0x1000))
                  example_flm new_memory_map_state Hfits)).
Defined.

Lemma resolved_memories_apart_witness :
  match _extract_memories py_int0 py_format_start_size description_overlap with
  | (Ok values, _) => values = [memory_overlapping] /\ merged_apart py_int0 values
  | (Raise _, _) => False
  end.
Proof.
  destruct (_extract_memories py_int0 py_format_start_size description_overlap)
    as [[values|e] self'] eqn:Hpass.
  - split; [vm_compute in Hpass; inversion Hpass; reflexivity|].
    exact (proj2 (proj2 (@resolved_memories_apart py_int0 py_format_start_size _ _ _
                           Hpass))).
  - vm_compute in Hpass. discriminate Hpass.
Defined.

Lemma enclosing_memory_keeps_enclosed_witness :
  let m' := snd (fst (memories_filter py_int0 py_format_start_size
                        [(("IROM_A", None), memory_inner)] memory_enclosing
                        description_overlap)) in
  dict_get ("IROM_A", None) m' = Some memory_inner
  /\ dict_get ("IROM_B", None) m' = Some memory_enclosing.
Proof.
  assert (Hok : memory_map_ok py_int0 [(("IROM_A", @None string), memory_inner)]).
  { split.
    - unfold dict_wf. cbn. constructor; [intros []|constructor].
    - constructor; [|constructor]. exists 0x800, 0x100. split; reflexivity. }
  assert (Hne : ("IROM_A", @None string)
                <> memory_key py_format_start_size memory_enclosing 0 0x2000)
    by discriminate.
  exact (@enclosing_memory_keeps_enclosed py_int0 py_format_start_size
           [(("IROM_A", None), memory_inner)]
           [(("IROM_A", None), memory_inner); (("IROM_B", None), memory_enclosing)]
           memory_enclosing memory_inner description_overlap description_overlap
           ("IROM_A", None) 0 0x2000 0x800 0x100
           Hok eq_refl eq_refl eq_refl eq_refl Hne eq_refl eq_refl
           ltac:(lia) ltac:(lia)).
Defined.

Lemma memory_map_without_matching_algorithm_witness :
  fst (memory_map_of device_two_boot)
  = Ok (_regions (build_memory_regions_of device_two_boot new_memory_map_state)).
Proof.
  refine (proj1 (memory_map_without_matching_algorithm py_int0 py_lower py_strip
                   py_format_sector_suffix example_open_flash_algo same_range
                   device_two_boot _)).
  intros region _ _. reflexivity.
Defined.

Lemma unusable_algorithm_aborts_memory_map_witness :
  fst (memory_map_of device_unnamed_algorithm) = Raise KeyError.
Proof.
  assert (Hpre : Forall (passed_over py_int0 device_unnamed_algorithm) [region_ram_default]).
  { constructor; [|constructor]. left. discriminate. }
  assert (Hbad : unusable_algorithm py_int0 example_open_flash_algo algorithm_unnamed
                   KeyError).
  { left. split; reflexivity. }
  rewrite (@unusable_algorithm_aborts_memory_map py_int0 py_lower py_strip
             py_format_sector_suffix example_open_flash_algo same_range
             device_unnamed_algorithm region_ram_default region_rom
             [region_ram_default] [] algorithm_unnamed KeyError
             eq_refl eq_refl Hpre eq_refl eq_refl Hbad).
  reflexivity.
Defined.

Lemma walk_creates_devices_in_document_order_witness :
  map _part (_devices (snd (init pdsc_nested))) = ["DevL"; "DevM"; "DevM1"; "DevM2"]
  /\ map (fun dev => element (_info dev)) (_devices (snd (init pdsc_nested)))
     = flat_map device_elements (iter_tag "family" pdsc_nested).
Proof.
  split; [reflexivity|].
  destruct (init pdsc_nested) as [[[]|e] self] eqn:Hinit.
  - exact (proj1 (proj2 (proj2 (walk_creates_devices_in_document_order py_int0 py_lower
                                  py_format_start_size) None pdsc_nested self Hinit))).
  - vm_compute in Hinit. discriminate Hinit.
Defined.

Lemma debug_merge_keeps_entries_after_last_global_witness :
  extract_loop debugs_filter ([debug_A] ++ debug_global :: [debug_B]) [] description_overlap
  = (Ok [("cm01", debug_B)], description_overlap).
Proof.
  assert (Hpost : Forall keyed_debug [debug_B]).
  { constructor; [|constructor]. split; [reflexivity|discriminate]. }
  exact (proj1 (proj2 (debug_merge_keeps_entries_after_last_global [debug_A] debug_global
                         description_overlap Hpost)) eq_refl).
Defined.

(** The walk keeps both access ports, their ids being different texts; the
    id map has one entry, that of the later element. *)
Lemma access_port_ids_last_wins_witness :
  fst (_extract_accessports
         (mkDescription None [new_state element_two_accessports] [] false []))
  = Ok [accessport_decimal; accessport_hex]
  /\ dict_get 1 (_apids (snd (_handle_accessports py_int0 device_two_accessports
                                new_topology_state)))
     = Some (APv2Address 0x2000 0).
Proof.
  split; [reflexivity|].
  rewrite (proj2 (proj2 (access_port_ids_last_wins py_int0 device_two_accessports
                           new_topology_state) eq_refl) 1).
  reflexivity.
Defined.

Lemma first_processor_of_a_name_wins_witness :
  dict_get "Cortex-M4"
    (_processors_map (_handle_processors py_int0 device_no_debug new_topology_state))
  = Some (new_ProcessorInfo "Cortex-M4" 1).
Proof.
  exact (proj1 (first_processor_of_a_name_wins py_int0 device_no_debug
                  new_topology_state eq_refl) "Cortex-M4").
Defined.

Lemma processors_map_returns_witness :
  exists pm self,
    processors_map py_int0 device_two_accessports = (Ok pm, self)
    /\ dict_keys pm = ["Cortex-M4"].
Proof.
  destruct (proj1 (processors_map_returns py_int0 py_lower py_format_start_size)
              device_two_accessports eq_refl)
    as (pm & self & Hmap & Hkeys & _).
  exists pm, self. split; [exact Hmap|]. rewrite Hkeys. reflexivity.
Defined.

Lemma failed_debug_element_updates_partially_witness :
  match fst (processors_map py_int0 device_bad_address) with
  | Ok pm =>
      dict_get "Cortex-M4" pm
      = Some (mkProcessorInfo "Cortex-M4" 3 1 (APv1Address 2 0) 0 None "ResetSystem")
  | Raise _ => False
  end.
Proof.
  assert (Hself : snd (handle_debug py_int0 device_bad_address debug_bad_address
                         (_handle_processors py_int0 device_bad_address
                            (set_built_apid_map new_topology_state)))
                  = snd (processors_map py_int0 device_bad_address)) by reflexivity.
  pose proof (proj1 (proj2 (@failed_debug_element_updates_partially py_int0
                              device_bad_address debug_bad_address
                              (_handle_processors py_int0 device_bad_address
                                 (set_built_apid_map new_topology_state))
                              "Cortex-M4" (new_ProcessorInfo "Cortex-M4" 1)
                              eq_refl eq_refl))
                (APv1Address 2 0) _ 3 MalformedCmsisPackError eq_refl eq_refl eq_refl)
    as [Hget _].
  rewrite Hself in Hget.
  destruct (processors_map py_int0 device_bad_address) as [[pm|e] s] eqn:Hmap.
  - assert (Hpm : pm = _processors_map s) by (vm_compute in Hmap; inversion Hmap; reflexivity).
    cbn [fst snd] in *. rewrite Hpm. exact Hget.
  - vm_compute in Hmap. discriminate Hmap.
Defined.

Lemma resolved_processor_takes_outermost_attributes_witness :
  exists m : dict (option string) Element,
    _extract_processors description_inheritance = (Ok (dict_values m), description_inheritance)
    /\ match dict_get None m with
       | Some r =>
           dict_get "Dfpu" (attrib r) = Some "SP_FPU"
           /\ dict_get "Dcore" (attrib r) = Some "Cortex-M4"
       | None => False
       end.
Proof.
  assert (Hwf : Forall (fun elem => dict_wf (attrib elem))
                  (flat_map processors (_state_stack description_inheritance))).
  { repeat constructor; cbn; intuition discriminate. }
  destruct (resolved_processor_takes_outermost_attributes description_inheritance Hwf)
    as (m & _ & Hpass & Hm).
  exists m. split; [exact Hpass|]. specialize (Hm None).
  destruct (dict_get None m) as [r|].
  - destruct Hm as (_ & Hattr & _). split; rewrite Hattr; reflexivity.
  - discriminate Hm.
Defined.

Lemma uses_apid_iff_readable_access_port_witness :
  fst (uses_apid py_int0 device_two_accessports new_topology_state) = Ok true
  /\ fst (uses_apid py_int0 device_unreadable_accessport new_topology_state) = Ok false.
Proof.
  split.
  - exact (uses_apid_iff_readable_access_port py_int0 device_two_accessports eq_refl).
  - exact (uses_apid_iff_readable_access_port py_int0 device_unreadable_accessport eq_refl).
Defined.

Lemma sub_range_not_clamped_to_region_witness :
  exists flash others,
    fst (_split_flash_region_by_sector_size py_format_sector_suffix example_rom 0x400
           (get_pyocd_flash_algo example_flm_beyond 0x400 (mkRamForAlgo 0x20000000 0x1000))
           example_flm_beyond new_memory_map_state)
    = flash :: others
    /\ region_end flash = 0x2FFFF
    /\ region_end example_rom = 0x1FFFF.
Proof.
  destruct (@sub_range_not_clamped_to_region py_format_sector_suffix example_rom 0x400
              (get_pyocd_flash_algo example_flm_beyond 0x400 (mkRamForAlgo 0x20000000 0x1000))
              example_flm_beyond new_memory_map_state 0 0x1000 0x30000 0x2000 []
              eq_refl ltac:(lia) ltac:(cbn; lia))
    as (flash & others & Hsplit & _ & Hend & _).
  exists flash, others. split; [exact Hsplit|]. split; [exact Hend|reflexivity].
Defined.

Lemma family_without_names_aborts_walk_witness :
  (exists self',
      _parse_devices py_int0 py_lower py_format_start_size family_without_vendor
        (mkDescription None [] [] false [])
      = (Raise KeyError, self')
      /\ _devices self' = [])
  /\ fst (init (mkElement "package" [] [family_without_vendor_empty])) = Ok tt.
Proof.
  split; [|reflexivity].
  exact (proj1 (family_without_names_aborts_walk py_int0 py_lower py_format_start_size
                  family_without_vendor (mkDescription None [] [] false []) eq_refl)).
Defined.

(** The devices of the nested pack: vendor, and family with sub-family. *)
Lemma devices_have_vendor_and_family_witness :
  map (fun dev => (vendor dev, device_families dev)) (_devices (snd (init pdsc_nested)))
  = [(Ok "Vendor", ["Example"]); (Ok "Vendor", ["Example"; "Sub"]);
     (Ok "Vendor", ["Example"; "Sub"]); (Ok "Vendor", ["Example"; "Sub"])]
  /\ Forall (fun dev => exists v, vendor dev = Ok v) (_devices (snd (init pdsc_nested))).
Proof.
  split; [reflexivity|].
  eapply Forall_impl;
    [|exact (devices_have_vendor_and_family py_int0 py_lower py_format_start_size
               None pdsc_nested)].
  intros dev (family & vendor_ & name & subs & _ & _ & _ & _ & Hv & _). eauto.
Defined.
